(** * Lesson navigation, answer checking and playback of the driving-test
      flashcard controller ([static/app.js], class [ChineseLearningApp])

    The controller is a single JavaScript object mutated by DOM event
    handlers.  It is embedded here as pure functions over an explicit state
    record [App]; the DOM elements it writes to are fields of [Elements].

    JavaScript strings are sequences of UTF-16 code units, modelled as
    [list Z].  The built-in string operations used by [compareAnswers]
    ([toLowerCase], [replace] with the two regular expressions, [trim]) are
    written out following ECMA-262 over that representation, with the
    Unicode case tables (Unicode 14.0) spelled out. *)

From Stdlib Require Import ZArith List Bool Lia String.
From stdpp Require Import base decidable option list gmap.
Import ListNotations.
Local Open Scope Z_scope.

(** A JavaScript string: its UTF-16 code units. *)
Abbreviation jsstring := (list Z).

(* ================================================================== *)
(** * Strings: the built-ins behind [normalize]                        *)
(* ================================================================== *)

Module JS.

(** ** Code units and code points (ECMA-262, 6.1.4 and 11.1) *)

Definition isCodeUnit (c : Z) : bool := (0 <=? c) && (c <=? 0xFFFF).
Definition isLeadingSurrogate (c : Z) : bool := (0xD800 <=? c) && (c <=? 0xDBFF).
Definition isTrailingSurrogate (c : Z) : bool := (0xDC00 <=? c) && (c <=? 0xDFFF).
Definition isSurrogate (c : Z) : bool := (0xD800 <=? c) && (c <=? 0xDFFF).

Definition UTF16SurrogatePairToCodePoint (lead trail : Z) : Z :=
  (lead - 0xD800) * 0x400 + (trail - 0xDC00) + 0x10000.

(** [StringToCodePoints]: a leading surrogate directly followed by a
    trailing one is read as one supplementary code point; every other code
    unit, an unpaired surrogate included, is read as the code point of the
    same value. *)
Fixpoint StringToCodePoints (s : jsstring) : list Z :=
  match s with
  | [] => []
  | first :: rest =>
      match rest with
      | second :: rest' =>
          if isLeadingSurrogate first && isTrailingSurrogate second
          then UTF16SurrogatePairToCodePoint first second :: StringToCodePoints rest'
          else first :: StringToCodePoints rest
      | [] => [first]
      end
  end.

Definition UTF16EncodeCodePoint (cp : Z) : jsstring :=
  if cp <=? 0xFFFF then [cp]
  else [(cp - 0x10000) / 0x400 + 0xD800; (cp - 0x10000) mod 0x400 + 0xDC00].

Definition CodePointsToString (text : list Z) : jsstring :=
  flat_map UTF16EncodeCodePoint text.

(** A string is well formed when it consists of 16-bit code units and every
    surrogate in it belongs to a pair (what [String.prototype.isWellFormed]
    tests). *)
Fixpoint isWellFormed (s : jsstring) : bool :=
  match s with
  | [] => true
  | first :: rest =>
      if isLeadingSurrogate first then
        match rest with
        | second :: rest' => isTrailingSurrogate second && isWellFormed rest'
        | [] => false
        end
      else isCodeUnit first && negb (isTrailingSurrogate first) && isWellFormed rest
  end.

(** ** Unicode case data

    [lowercaseTable] lists the simple lowercase mappings of UnicodeData.txt
    as runs [(first, last, step, delta)]: every [step]-th code point from
    [first] to [last] maps to itself plus [delta].  [casedTable] and
    [caseIgnorableTable] are the ranges of the derived properties Cased and
    Case_Ignorable, which only the Final_Sigma rule consults. *)

Definition lowercaseTable : list (Z * Z * Z * Z) := [
  (0x41, 0x5A, 1, 32); (0xC0, 0xD6, 1, 32); (0xD8, 0xDE, 1, 32);
  (0x100, 0x12E, 2, 1); (0x132, 0x136, 2, 1); (0x139, 0x147, 2, 1);
  (0x14A, 0x176, 2, 1); (0x178, 0x178, 1, (-121)); (0x179, 0x17D, 2, 1);
  (0x181, 0x181, 1, 210); (0x182, 0x184, 2, 1); (0x186, 0x186, 1, 206);
  (0x187, 0x187, 1, 1); (0x189, 0x18A, 1, 205); (0x18B, 0x18B, 1, 1);
  (0x18E, 0x18E, 1, 79); (0x18F, 0x18F, 1, 202); (0x190, 0x190, 1, 203);
  (0x191, 0x191, 1, 1); (0x193, 0x193, 1, 205); (0x194, 0x194, 1, 207);
  (0x196, 0x196, 1, 211); (0x197, 0x197, 1, 209); (0x198, 0x198, 1, 1);
  (0x19C, 0x19C, 1, 211); (0x19D, 0x19D, 1, 213); (0x19F, 0x19F, 1, 214);
  (0x1A0, 0x1A4, 2, 1); (0x1A6, 0x1A6, 1, 218); (0x1A7, 0x1A7, 1, 1);
  (0x1A9, 0x1A9, 1, 218); (0x1AC, 0x1AC, 1, 1); (0x1AE, 0x1AE, 1, 218);
  (0x1AF, 0x1AF, 1, 1); (0x1B1, 0x1B2, 1, 217); (0x1B3, 0x1B5, 2, 1);
  (0x1B7, 0x1B7, 1, 219); (0x1B8, 0x1B8, 1, 1); (0x1BC, 0x1BC, 1, 1);
  (0x1C4, 0x1C4, 1, 2); (0x1C5, 0x1C5, 1, 1); (0x1C7, 0x1C7, 1, 2);
  (0x1C8, 0x1C8, 1, 1); (0x1CA, 0x1CA, 1, 2); (0x1CB, 0x1DB, 2, 1);
  (0x1DE, 0x1EE, 2, 1); (0x1F1, 0x1F1, 1, 2); (0x1F2, 0x1F4, 2, 1);
  (0x1F6, 0x1F6, 1, (-97)); (0x1F7, 0x1F7, 1, (-56)); (0x1F8, 0x21E, 2, 1);
  (0x220, 0x220, 1, (-130)); (0x222, 0x232, 2, 1); (0x23A, 0x23A, 1, 10795);
  (0x23B, 0x23B, 1, 1); (0x23D, 0x23D, 1, (-163)); (0x23E, 0x23E, 1, 10792);
  (0x241, 0x241, 1, 1); (0x243, 0x243, 1, (-195)); (0x244, 0x244, 1, 69);
  (0x245, 0x245, 1, 71); (0x246, 0x24E, 2, 1); (0x370, 0x372, 2, 1);
  (0x376, 0x376, 1, 1); (0x37F, 0x37F, 1, 116); (0x386, 0x386, 1, 38);
  (0x388, 0x38A, 1, 37); (0x38C, 0x38C, 1, 64); (0x38E, 0x38F, 1, 63);
  (0x391, 0x3A1, 1, 32); (0x3A3, 0x3AB, 1, 32); (0x3CF, 0x3CF, 1, 8);
  (0x3D8, 0x3EE, 2, 1); (0x3F4, 0x3F4, 1, (-60)); (0x3F7, 0x3F7, 1, 1);
  (0x3F9, 0x3F9, 1, (-7)); (0x3FA, 0x3FA, 1, 1); (0x3FD, 0x3FF, 1, (-130));
  (0x400, 0x40F, 1, 80); (0x410, 0x42F, 1, 32); (0x460, 0x480, 2, 1);
  (0x48A, 0x4BE, 2, 1); (0x4C0, 0x4C0, 1, 15); (0x4C1, 0x4CD, 2, 1);
  (0x4D0, 0x52E, 2, 1); (0x531, 0x556, 1, 48); (0x10A0, 0x10C5, 1, 7264);
  (0x10C7, 0x10C7, 1, 7264); (0x10CD, 0x10CD, 1, 7264); (0x13A0, 0x13EF, 1, 38864);
  (0x13F0, 0x13F5, 1, 8); (0x1C90, 0x1CBA, 1, (-3008)); (0x1CBD, 0x1CBF, 1, (-3008));
  (0x1E00, 0x1E94, 2, 1); (0x1E9E, 0x1E9E, 1, (-7615)); (0x1EA0, 0x1EFE, 2, 1);
  (0x1F08, 0x1F0F, 1, (-8)); (0x1F18, 0x1F1D, 1, (-8)); (0x1F28, 0x1F2F, 1, (-8));
  (0x1F38, 0x1F3F, 1, (-8)); (0x1F48, 0x1F4D, 1, (-8)); (0x1F59, 0x1F5F, 2, (-8));
  (0x1F68, 0x1F6F, 1, (-8)); (0x1F88, 0x1F8F, 1, (-8)); (0x1F98, 0x1F9F, 1, (-8));
  (0x1FA8, 0x1FAF, 1, (-8)); (0x1FB8, 0x1FB9, 1, (-8)); (0x1FBA, 0x1FBB, 1, (-74));
  (0x1FBC, 0x1FBC, 1, (-9)); (0x1FC8, 0x1FCB, 1, (-86)); (0x1FCC, 0x1FCC, 1, (-9));
  (0x1FD8, 0x1FD9, 1, (-8)); (0x1FDA, 0x1FDB, 1, (-100)); (0x1FE8, 0x1FE9, 1, (-8));
  (0x1FEA, 0x1FEB, 1, (-112)); (0x1FEC, 0x1FEC, 1, (-7)); (0x1FF8, 0x1FF9, 1, (-128));
  (0x1FFA, 0x1FFB, 1, (-126)); (0x1FFC, 0x1FFC, 1, (-9)); (0x2126, 0x2126, 1, (-7517));
  (0x212A, 0x212A, 1, (-8383)); (0x212B, 0x212B, 1, (-8262)); (0x2132, 0x2132, 1, 28);
  (0x2160, 0x216F, 1, 16); (0x2183, 0x2183, 1, 1); (0x24B6, 0x24CF, 1, 26);
  (0x2C00, 0x2C2F, 1, 48); (0x2C60, 0x2C60, 1, 1); (0x2C62, 0x2C62, 1, (-10743));
  (0x2C63, 0x2C63, 1, (-3814)); (0x2C64, 0x2C64, 1, (-10727)); (0x2C67, 0x2C6B, 2, 1);
  (0x2C6D, 0x2C6D, 1, (-10780)); (0x2C6E, 0x2C6E, 1, (-10749)); (0x2C6F, 0x2C6F, 1, (-10783));
  (0x2C70, 0x2C70, 1, (-10782)); (0x2C72, 0x2C72, 1, 1); (0x2C75, 0x2C75, 1, 1);
  (0x2C7E, 0x2C7F, 1, (-10815)); (0x2C80, 0x2CE2, 2, 1); (0x2CEB, 0x2CED, 2, 1);
  (0x2CF2, 0x2CF2, 1, 1); (0xA640, 0xA66C, 2, 1); (0xA680, 0xA69A, 2, 1);
  (0xA722, 0xA72E, 2, 1); (0xA732, 0xA76E, 2, 1); (0xA779, 0xA77B, 2, 1);
  (0xA77D, 0xA77D, 1, (-35332)); (0xA77E, 0xA786, 2, 1); (0xA78B, 0xA78B, 1, 1);
  (0xA78D, 0xA78D, 1, (-42280)); (0xA790, 0xA792, 2, 1); (0xA796, 0xA7A8, 2, 1);
  (0xA7AA, 0xA7AA, 1, (-42308)); (0xA7AB, 0xA7AB, 1, (-42319)); (0xA7AC, 0xA7AC, 1, (-42315));
  (0xA7AD, 0xA7AD, 1, (-42305)); (0xA7AE, 0xA7AE, 1, (-42308)); (0xA7B0, 0xA7B0, 1, (-42258));
  (0xA7B1, 0xA7B1, 1, (-42282)); (0xA7B2, 0xA7B2, 1, (-42261)); (0xA7B3, 0xA7B3, 1, 928);
  (0xA7B4, 0xA7C2, 2, 1); (0xA7C4, 0xA7C4, 1, (-48)); (0xA7C5, 0xA7C5, 1, (-42307));
  (0xA7C6, 0xA7C6, 1, (-35384)); (0xA7C7, 0xA7C9, 2, 1); (0xA7D0, 0xA7D0, 1, 1);
  (0xA7D6, 0xA7D8, 2, 1); (0xA7F5, 0xA7F5, 1, 1); (0xFF21, 0xFF3A, 1, 32);
  (0x10400, 0x10427, 1, 40); (0x104B0, 0x104D3, 1, 40); (0x10570, 0x1057A, 1, 39);
  (0x1057C, 0x1058A, 1, 39); (0x1058C, 0x10592, 1, 39); (0x10594, 0x10595, 1, 39);
  (0x10C80, 0x10CB2, 1, 64); (0x118A0, 0x118BF, 1, 32); (0x16E40, 0x16E5F, 1, 32);
  (0x1E900, 0x1E921, 1, 34)
].

Definition casedTable : list (Z * Z) := [
  (0x41, 0x5A); (0x61, 0x7A); (0xAA, 0xAA); (0xB5, 0xB5); (0xBA, 0xBA);
  (0xC0, 0xD6); (0xD8, 0xF6); (0xF8, 0x1BA); (0x1BC, 0x1BF); (0x1C4, 0x293);
  (0x295, 0x2B8); (0x2C0, 0x2C1); (0x2E0, 0x2E4); (0x345, 0x345); (0x370, 0x373);
  (0x376, 0x377); (0x37A, 0x37D); (0x37F, 0x37F); (0x386, 0x386); (0x388, 0x38A);
  (0x38C, 0x38C); (0x38E, 0x3A1); (0x3A3, 0x3F5); (0x3F7, 0x481); (0x48A, 0x52F);
  (0x531, 0x556); (0x560, 0x588); (0x10A0, 0x10C5); (0x10C7, 0x10C7); (0x10CD, 0x10CD);
  (0x10D0, 0x10FA); (0x10FD, 0x10FF); (0x13A0, 0x13F5); (0x13F8, 0x13FD); (0x1C80, 0x1C88);
  (0x1C90, 0x1CBA); (0x1CBD, 0x1CBF); (0x1D00, 0x1DBF); (0x1E00, 0x1F15); (0x1F18, 0x1F1D);
  (0x1F20, 0x1F45); (0x1F48, 0x1F4D); (0x1F50, 0x1F57); (0x1F59, 0x1F59); (0x1F5B, 0x1F5B);
  (0x1F5D, 0x1F5D); (0x1F5F, 0x1F7D); (0x1F80, 0x1FB4); (0x1FB6, 0x1FBC); (0x1FBE, 0x1FBE);
  (0x1FC2, 0x1FC4); (0x1FC6, 0x1FCC); (0x1FD0, 0x1FD3); (0x1FD6, 0x1FDB); (0x1FE0, 0x1FEC);
  (0x1FF2, 0x1FF4); (0x1FF6, 0x1FFC); (0x2071, 0x2071); (0x207F, 0x207F); (0x2090, 0x209C);
  (0x2102, 0x2102); (0x2107, 0x2107); (0x210A, 0x2113); (0x2115, 0x2115); (0x2119, 0x211D);
  (0x2124, 0x2124); (0x2126, 0x2126); (0x2128, 0x2128); (0x212A, 0x212D); (0x212F, 0x2134);
  (0x2139, 0x2139); (0x213C, 0x213F); (0x2145, 0x2149); (0x214E, 0x214E); (0x2160, 0x217F);
  (0x2183, 0x2184); (0x24B6, 0x24E9); (0x2C00, 0x2CE4); (0x2CEB, 0x2CEE); (0x2CF2, 0x2CF3);
  (0x2D00, 0x2D25); (0x2D27, 0x2D27); (0x2D2D, 0x2D2D); (0xA640, 0xA66D); (0xA680, 0xA69D);
  (0xA722, 0xA787); (0xA78B, 0xA78E); (0xA790, 0xA7CA); (0xA7D0, 0xA7D1); (0xA7D3, 0xA7D3);
  (0xA7D5, 0xA7D9); (0xA7F5, 0xA7F6); (0xA7F8, 0xA7FA); (0xAB30, 0xAB5A); (0xAB5C, 0xAB68);
  (0xAB70, 0xABBF); (0xFB00, 0xFB06); (0xFB13, 0xFB17); (0xFF21, 0xFF3A); (0xFF41, 0xFF5A);
  (0x10400, 0x1044F); (0x104B0, 0x104D3); (0x104D8, 0x104FB); (0x10570, 0x1057A); (0x1057C, 0x1058A);
  (0x1058C, 0x10592); (0x10594, 0x10595); (0x10597, 0x105A1); (0x105A3, 0x105B1); (0x105B3, 0x105B9);
  (0x105BB, 0x105BC); (0x10780, 0x10780); (0x10783, 0x10785); (0x10787, 0x107B0); (0x107B2, 0x107BA);
  (0x10C80, 0x10CB2); (0x10CC0, 0x10CF2); (0x118A0, 0x118DF); (0x16E40, 0x16E7F); (0x1D400, 0x1D454);
  (0x1D456, 0x1D49C); (0x1D49E, 0x1D49F); (0x1D4A2, 0x1D4A2); (0x1D4A5, 0x1D4A6); (0x1D4A9, 0x1D4AC);
  (0x1D4AE, 0x1D4B9); (0x1D4BB, 0x1D4BB); (0x1D4BD, 0x1D4C3); (0x1D4C5, 0x1D505); (0x1D507, 0x1D50A);
  (0x1D50D, 0x1D514); (0x1D516, 0x1D51C); (0x1D51E, 0x1D539); (0x1D53B, 0x1D53E); (0x1D540, 0x1D544);
  (0x1D546, 0x1D546); (0x1D54A, 0x1D550); (0x1D552, 0x1D6A5); (0x1D6A8, 0x1D6C0); (0x1D6C2, 0x1D6DA);
  (0x1D6DC, 0x1D6FA); (0x1D6FC, 0x1D714); (0x1D716, 0x1D734); (0x1D736, 0x1D74E); (0x1D750, 0x1D76E);
  (0x1D770, 0x1D788); (0x1D78A, 0x1D7A8); (0x1D7AA, 0x1D7C2); (0x1D7C4, 0x1D7CB); (0x1DF00, 0x1DF09);
  (0x1DF0B, 0x1DF1E); (0x1E900, 0x1E943); (0x1F130, 0x1F149); (0x1F150, 0x1F169); (0x1F170, 0x1F189)
].

Definition caseIgnorableTable : list (Z * Z) := [
  (0x27, 0x27); (0x2E, 0x2E); (0x3A, 0x3A); (0x5E, 0x5E); (0x60, 0x60);
  (0xA8, 0xA8); (0xAD, 0xAD); (0xAF, 0xAF); (0xB4, 0xB4); (0xB7, 0xB8);
  (0x2B0, 0x36F); (0x374, 0x375); (0x37A, 0x37A); (0x384, 0x385); (0x387, 0x387);
  (0x483, 0x489); (0x559, 0x559); (0x55F, 0x55F); (0x591, 0x5BD); (0x5BF, 0x5BF);
  (0x5C1, 0x5C2); (0x5C4, 0x5C5); (0x5C7, 0x5C7); (0x5F4, 0x5F4); (0x600, 0x605);
  (0x610, 0x61A); (0x61C, 0x61C); (0x640, 0x640); (0x64B, 0x65F); (0x670, 0x670);
  (0x6D6, 0x6DD); (0x6DF, 0x6E8); (0x6EA, 0x6ED); (0x70F, 0x70F); (0x711, 0x711);
  (0x730, 0x74A); (0x7A6, 0x7B0); (0x7EB, 0x7F5); (0x7FA, 0x7FA); (0x7FD, 0x7FD);
  (0x816, 0x82D); (0x859, 0x85B); (0x888, 0x888); (0x890, 0x891); (0x898, 0x89F);
  (0x8C9, 0x902); (0x93A, 0x93A); (0x93C, 0x93C); (0x941, 0x948); (0x94D, 0x94D);
  (0x951, 0x957); (0x962, 0x963); (0x971, 0x971); (0x981, 0x981); (0x9BC, 0x9BC);
  (0x9C1, 0x9C4); (0x9CD, 0x9CD); (0x9E2, 0x9E3); (0x9FE, 0x9FE); (0xA01, 0xA02);
  (0xA3C, 0xA3C); (0xA41, 0xA42); (0xA47, 0xA48); (0xA4B, 0xA4D); (0xA51, 0xA51);
  (0xA70, 0xA71); (0xA75, 0xA75); (0xA81, 0xA82); (0xABC, 0xABC); (0xAC1, 0xAC5);
  (0xAC7, 0xAC8); (0xACD, 0xACD); (0xAE2, 0xAE3); (0xAFA, 0xAFF); (0xB01, 0xB01);
  (0xB3C, 0xB3C); (0xB3F, 0xB3F); (0xB41, 0xB44); (0xB4D, 0xB4D); (0xB55, 0xB56);
  (0xB62, 0xB63); (0xB82, 0xB82); (0xBC0, 0xBC0); (0xBCD, 0xBCD); (0xC00, 0xC00);
  (0xC04, 0xC04); (0xC3C, 0xC3C); (0xC3E, 0xC40); (0xC46, 0xC48); (0xC4A, 0xC4D);
  (0xC55, 0xC56); (0xC62, 0xC63); (0xC81, 0xC81); (0xCBC, 0xCBC); (0xCBF, 0xCBF);
  (0xCC6, 0xCC6); (0xCCC, 0xCCD); (0xCE2, 0xCE3); (0xD00, 0xD01); (0xD3B, 0xD3C);
  (0xD41, 0xD44); (0xD4D, 0xD4D); (0xD62, 0xD63); (0xD81, 0xD81); (0xDCA, 0xDCA);
  (0xDD2, 0xDD4); (0xDD6, 0xDD6); (0xE31, 0xE31); (0xE34, 0xE3A); (0xE46, 0xE4E);
  (0xEB1, 0xEB1); (0xEB4, 0xEBC); (0xEC6, 0xEC6); (0xEC8, 0xECD); (0xF18, 0xF19);
  (0xF35, 0xF35); (0xF37, 0xF37); (0xF39, 0xF39); (0xF71, 0xF7E); (0xF80, 0xF84);
  (0xF86, 0xF87); (0xF8D, 0xF97); (0xF99, 0xFBC); (0xFC6, 0xFC6); (0x102D, 0x1030);
  (0x1032, 0x1037); (0x1039, 0x103A); (0x103D, 0x103E); (0x1058, 0x1059); (0x105E, 0x1060);
  (0x1071, 0x1074); (0x1082, 0x1082); (0x1085, 0x1086); (0x108D, 0x108D); (0x109D, 0x109D);
  (0x10FC, 0x10FC); (0x135D, 0x135F); (0x1712, 0x1714); (0x1732, 0x1733); (0x1752, 0x1753);
  (0x1772, 0x1773); (0x17B4, 0x17B5); (0x17B7, 0x17BD); (0x17C6, 0x17C6); (0x17C9, 0x17D3);
  (0x17D7, 0x17D7); (0x17DD, 0x17DD); (0x180B, 0x180F); (0x1843, 0x1843); (0x1885, 0x1886);
  (0x18A9, 0x18A9); (0x1920, 0x1922); (0x1927, 0x1928); (0x1932, 0x1932); (0x1939, 0x193B);
  (0x1A17, 0x1A18); (0x1A1B, 0x1A1B); (0x1A56, 0x1A56); (0x1A58, 0x1A5E); (0x1A60, 0x1A60);
  (0x1A62, 0x1A62); (0x1A65, 0x1A6C); (0x1A73, 0x1A7C); (0x1A7F, 0x1A7F); (0x1AA7, 0x1AA7);
  (0x1AB0, 0x1ACE); (0x1B00, 0x1B03); (0x1B34, 0x1B34); (0x1B36, 0x1B3A); (0x1B3C, 0x1B3C);
  (0x1B42, 0x1B42); (0x1B6B, 0x1B73); (0x1B80, 0x1B81); (0x1BA2, 0x1BA5); (0x1BA8, 0x1BA9);
  (0x1BAB, 0x1BAD); (0x1BE6, 0x1BE6); (0x1BE8, 0x1BE9); (0x1BED, 0x1BED); (0x1BEF, 0x1BF1);
  (0x1C2C, 0x1C33); (0x1C36, 0x1C37); (0x1C78, 0x1C7D); (0x1CD0, 0x1CD2); (0x1CD4, 0x1CE0);
  (0x1CE2, 0x1CE8); (0x1CED, 0x1CED); (0x1CF4, 0x1CF4); (0x1CF8, 0x1CF9); (0x1D2C, 0x1D6A);
  (0x1D78, 0x1D78); (0x1D9B, 0x1DFF); (0x1FBD, 0x1FBD); (0x1FBF, 0x1FC1); (0x1FCD, 0x1FCF);
  (0x1FDD, 0x1FDF); (0x1FED, 0x1FEF); (0x1FFD, 0x1FFE); (0x200B, 0x200F); (0x2018, 0x2019);
  (0x2024, 0x2024); (0x2027, 0x2027); (0x202A, 0x202E); (0x2060, 0x2064); (0x2066, 0x206F);
  (0x2071, 0x2071); (0x207F, 0x207F); (0x2090, 0x209C); (0x20D0, 0x20F0); (0x2C7C, 0x2C7D);
  (0x2CEF, 0x2CF1); (0x2D6F, 0x2D6F); (0x2D7F, 0x2D7F); (0x2DE0, 0x2DFF); (0x2E2F, 0x2E2F);
  (0x3005, 0x3005); (0x302A, 0x302D); (0x3031, 0x3035); (0x303B, 0x303B); (0x3099, 0x309E);
  (0x30FC, 0x30FE); (0xA015, 0xA015); (0xA4F8, 0xA4FD); (0xA60C, 0xA60C); (0xA66F, 0xA672);
  (0xA674, 0xA67D); (0xA67F, 0xA67F); (0xA69C, 0xA69F); (0xA6F0, 0xA6F1); (0xA700, 0xA721);
  (0xA770, 0xA770); (0xA788, 0xA78A); (0xA7F2, 0xA7F4); (0xA7F8, 0xA7F9); (0xA802, 0xA802);
  (0xA806, 0xA806); (0xA80B, 0xA80B); (0xA825, 0xA826); (0xA82C, 0xA82C); (0xA8C4, 0xA8C5);
  (0xA8E0, 0xA8F1); (0xA8FF, 0xA8FF); (0xA926, 0xA92D); (0xA947, 0xA951); (0xA980, 0xA982);
  (0xA9B3, 0xA9B3); (0xA9B6, 0xA9B9); (0xA9BC, 0xA9BD); (0xA9CF, 0xA9CF); (0xA9E5, 0xA9E6);
  (0xAA29, 0xAA2E); (0xAA31, 0xAA32); (0xAA35, 0xAA36); (0xAA43, 0xAA43); (0xAA4C, 0xAA4C);
  (0xAA70, 0xAA70); (0xAA7C, 0xAA7C); (0xAAB0, 0xAAB0); (0xAAB2, 0xAAB4); (0xAAB7, 0xAAB8);
  (0xAABE, 0xAABF); (0xAAC1, 0xAAC1); (0xAADD, 0xAADD); (0xAAEC, 0xAAED); (0xAAF3, 0xAAF4);
  (0xAAF6, 0xAAF6); (0xAB5B, 0xAB5F); (0xAB69, 0xAB6B); (0xABE5, 0xABE5); (0xABE8, 0xABE8);
  (0xABED, 0xABED); (0xFB1E, 0xFB1E); (0xFBB2, 0xFBC2); (0xFE00, 0xFE0F); (0xFE13, 0xFE13);
  (0xFE20, 0xFE2F); (0xFE52, 0xFE52); (0xFE55, 0xFE55); (0xFEFF, 0xFEFF); (0xFF07, 0xFF07);
  (0xFF0E, 0xFF0E); (0xFF1A, 0xFF1A); (0xFF3E, 0xFF3E); (0xFF40, 0xFF40); (0xFF70, 0xFF70);
  (0xFF9E, 0xFF9F); (0xFFE3, 0xFFE3); (0xFFF9, 0xFFFB); (0x101FD, 0x101FD); (0x102E0, 0x102E0);
  (0x10376, 0x1037A); (0x10780, 0x10785); (0x10787, 0x107B0); (0x107B2, 0x107BA); (0x10A01, 0x10A03);
  (0x10A05, 0x10A06); (0x10A0C, 0x10A0F); (0x10A38, 0x10A3A); (0x10A3F, 0x10A3F); (0x10AE5, 0x10AE6);
  (0x10D24, 0x10D27); (0x10EAB, 0x10EAC); (0x10F46, 0x10F50); (0x10F82, 0x10F85); (0x11001, 0x11001);
  (0x11038, 0x11046); (0x11070, 0x11070); (0x11073, 0x11074); (0x1107F, 0x11081); (0x110B3, 0x110B6);
  (0x110B9, 0x110BA); (0x110BD, 0x110BD); (0x110C2, 0x110C2); (0x110CD, 0x110CD); (0x11100, 0x11102);
  (0x11127, 0x1112B); (0x1112D, 0x11134); (0x11173, 0x11173); (0x11180, 0x11181); (0x111B6, 0x111BE);
  (0x111C9, 0x111CC); (0x111CF, 0x111CF); (0x1122F, 0x11231); (0x11234, 0x11234); (0x11236, 0x11237);
  (0x1123E, 0x1123E); (0x112DF, 0x112DF); (0x112E3, 0x112EA); (0x11300, 0x11301); (0x1133B, 0x1133C);
  (0x11340, 0x11340); (0x11366, 0x1136C); (0x11370, 0x11374); (0x11438, 0x1143F); (0x11442, 0x11444);
  (0x11446, 0x11446); (0x1145E, 0x1145E); (0x114B3, 0x114B8); (0x114BA, 0x114BA); (0x114BF, 0x114C0);
  (0x114C2, 0x114C3); (0x115B2, 0x115B5); (0x115BC, 0x115BD); (0x115BF, 0x115C0); (0x115DC, 0x115DD);
  (0x11633, 0x1163A); (0x1163D, 0x1163D); (0x1163F, 0x11640); (0x116AB, 0x116AB); (0x116AD, 0x116AD);
  (0x116B0, 0x116B5); (0x116B7, 0x116B7); (0x1171D, 0x1171F); (0x11722, 0x11725); (0x11727, 0x1172B);
  (0x1182F, 0x11837); (0x11839, 0x1183A); (0x1193B, 0x1193C); (0x1193E, 0x1193E); (0x11943, 0x11943);
  (0x119D4, 0x119D7); (0x119DA, 0x119DB); (0x119E0, 0x119E0); (0x11A01, 0x11A0A); (0x11A33, 0x11A38);
  (0x11A3B, 0x11A3E); (0x11A47, 0x11A47); (0x11A51, 0x11A56); (0x11A59, 0x11A5B); (0x11A8A, 0x11A96);
  (0x11A98, 0x11A99); (0x11C30, 0x11C36); (0x11C38, 0x11C3D); (0x11C3F, 0x11C3F); (0x11C92, 0x11CA7);
  (0x11CAA, 0x11CB0); (0x11CB2, 0x11CB3); (0x11CB5, 0x11CB6); (0x11D31, 0x11D36); (0x11D3A, 0x11D3A);
  (0x11D3C, 0x11D3D); (0x11D3F, 0x11D45); (0x11D47, 0x11D47); (0x11D90, 0x11D91); (0x11D95, 0x11D95);
  (0x11D97, 0x11D97); (0x11EF3, 0x11EF4); (0x13430, 0x13438); (0x16AF0, 0x16AF4); (0x16B30, 0x16B36);
  (0x16B40, 0x16B43); (0x16F4F, 0x16F4F); (0x16F8F, 0x16F9F); (0x16FE0, 0x16FE1); (0x16FE3, 0x16FE4);
  (0x1AFF0, 0x1AFF3); (0x1AFF5, 0x1AFFB); (0x1AFFD, 0x1AFFE); (0x1BC9D, 0x1BC9E); (0x1BCA0, 0x1BCA3);
  (0x1CF00, 0x1CF2D); (0x1CF30, 0x1CF46); (0x1D167, 0x1D169); (0x1D173, 0x1D182); (0x1D185, 0x1D18B);
  (0x1D1AA, 0x1D1AD); (0x1D242, 0x1D244); (0x1DA00, 0x1DA36); (0x1DA3B, 0x1DA6C); (0x1DA75, 0x1DA75);
  (0x1DA84, 0x1DA84); (0x1DA9B, 0x1DA9F); (0x1DAA1, 0x1DAAF); (0x1E000, 0x1E006); (0x1E008, 0x1E018);
  (0x1E01B, 0x1E021); (0x1E023, 0x1E024); (0x1E026, 0x1E02A); (0x1E130, 0x1E13D); (0x1E2AE, 0x1E2AE);
  (0x1E2EC, 0x1E2EF); (0x1E8D0, 0x1E8D6); (0x1E944, 0x1E94B); (0x1F3FB, 0x1F3FF); (0xE0001, 0xE0001);
  (0xE0020, 0xE007F); (0xE0100, 0xE01EF)
].

Definition inRun (c : Z) (r : Z * Z * Z * Z) : bool :=
  let '(first, last, step, _) := r in
  (first <=? c) && (c <=? last) && ((c - first) mod step =? 0).

Fixpoint simpleLowercase (t : list (Z * Z * Z * Z)) (c : Z) : option Z :=
  match t with
  | [] => None
  | r :: t' => if inRun c r then Some (c + snd r) else simpleLowercase t' c
  end.

Definition inRanges (t : list (Z * Z)) (c : Z) : bool :=
  existsb (fun r => (fst r <=? c) && (c <=? snd r)) t.

Definition isCased (c : Z) : bool := inRanges casedTable c.
Definition isCaseIgnorable (c : Z) : bool := inRanges caseIgnorableTable c.

(** The full lowercase mapping of one code point out of context.  U+0130
    is the one unconditional multi-character entry of SpecialCasing.txt. *)
Definition lowerCodePoint (c : Z) : list Z :=
  if c =? 0x130 then [0x69; 0x307]
  else match simpleLowercase lowercaseTable c with
       | Some c' => [c']
       | None => [c]
       end.

(** Final_Sigma (SpecialCasing.txt): capital sigma is preceded by a cased
    letter, with case-ignorable code points allowed in between, and is not
    followed by one in the same way.  Case-ignorable code points are skipped
    first, as ICU does. *)
Fixpoint skipCaseIgnorable (text : list Z) : list Z :=
  match text with
  | c :: text' => if isCaseIgnorable c then skipCaseIgnorable text' else text
  | [] => []
  end.

Definition reachesCased (text : list Z) : bool :=
  match skipCaseIgnorable text with
  | c :: _ => isCased c
  | [] => false
  end.

Definition isFinalSigma (before after : list Z) : bool :=
  reachesCased before && negb (reachesCased after).

(** [toLowercase before text]: the Default Case Conversion of [text], where
    [before] holds the code points already passed, nearest first. *)
Fixpoint toLowercase (before text : list Z) : list Z :=
  match text with
  | [] => []
  | c :: after =>
      (if c =? 0x3A3
       then [if isFinalSigma before after then 0x3C2 else 0x3C3]
       else lowerCodePoint c)
      ++ toLowercase (c :: before) after
  end.

(** [String.prototype.toLowerCase] (ECMA-262, 22.1.3.28). *)
Definition toLowerCase (s : jsstring) : jsstring :=
  CodePointsToString (toLowercase [] (StringToCodePoints s)).

(** ** The two regular expressions and [trim] *)

(** The class [[.,，。！？!?]] of the first [replace]. *)
Definition isPunctuation (c : Z) : bool :=
  existsb (Z.eqb c) [0x2E; 0x2C; 0xFF0C; 0x3002; 0xFF01; 0xFF1F; 0x21; 0x3F].

(** The class [\s], which is also what [trim] strips: WhiteSpace and
    LineTerminator of ECMA-262. *)
Definition isWhiteSpace (c : Z) : bool :=
  existsb (Z.eqb c)
    [0x09; 0x0A; 0x0B; 0x0C; 0x0D; 0x20; 0xA0; 0x1680; 0x2028; 0x2029;
     0x202F; 0x205F; 0x3000; 0xFEFF]
  || ((0x2000 <=? c) && (c <=? 0x200A)).

(** [text.replace(/[.,，。！？!?]/g, '')]: without the [u] flag the pattern
    is matched code unit by code unit. *)
Definition removePunctuation (s : jsstring) : jsstring :=
  filter (fun c => isPunctuation c = false) s.

(** [text.replace(/\s+/g, ' ')]: every maximal run of white space becomes
    one U+0020.  [inSpaces] tells that the previous code unit was white
    space, so that the run has already been replaced. *)
Fixpoint collapseFrom (inSpaces : bool) (s : jsstring) : jsstring :=
  match s with
  | [] => []
  | c :: s' =>
      if isWhiteSpace c
      then (if inSpaces then [] else [0x20]) ++ collapseFrom true s'
      else c :: collapseFrom false s'
  end.

Definition collapseSpaces (s : jsstring) : jsstring := collapseFrom false s.

Fixpoint trimStart (s : jsstring) : jsstring :=
  match s with
  | c :: s' => if isWhiteSpace c then trimStart s' else s
  | [] => []
  end.

Fixpoint trimEnd (s : jsstring) : jsstring :=
  match s with
  | [] => []
  | c :: s' =>
      match trimEnd s' with
      | [] => if isWhiteSpace c then [] else [c]
      | kept => c :: kept
      end
  end.

(** [String.prototype.trim]. *)
Definition trim (s : jsstring) : jsstring := trimEnd (trimStart s).

End JS.

(* ================================================================== *)
(** * Answer comparison                                                *)
(* ================================================================== *)

(** The local arrow function [normalize] of [compareAnswers]. *)
Definition normalize (text : jsstring) : jsstring :=
  JS.trim (JS.collapseSpaces (JS.removePunctuation (JS.toLowerCase text))).

Definition compareAnswers (userAnswer correctAnswer : jsstring) : bool :=
  bool_decide (normalize userAnswer = normalize correctAnswer).

(* ================================================================== *)
(** * The controller state                                             *)
(* ================================================================== *)

(** Code units of an ASCII literal. *)
Definition units (s : string) : jsstring :=
  map (fun a => Z.of_N (Ascii.N_of_ascii a)) (list_ascii_of_string s).

(** A lesson record as [lessons.json] and [getSampleLessons] give it.
    Optional members are [None] when the member is absent. *)
Module Lesson.
Record t := mk {
  id : Z;
  chinese : jsstring;
  pinyin : jsstring;
  literal : jsstring;
  english : jsstring;
  audio_file : jsstring;
  french : option jsstring;
  french_audio_file : option jsstring;
  source : option jsstring
}.
End Lesson.

(** JavaScript truthiness of an optional string member: absent and empty
    are false. *)
Definition truthy (o : option jsstring) : bool :=
  match o with
  | Some (_ :: _) => true
  | _ => false
  end.

Inductive Variant := Primary | Secondary.

(** An [Audio] element created by [new Audio(src)].  [paused] is the media
    element's attribute of that name: it is true on creation, [play()] makes
    it false, [pause()] and the end of playback make it true again.
    [endedListeners] records the buttons that ['ended'] callbacks registered
    on this element will reset. *)
Record Audio := {
  src : jsstring;
  creator : Variant;
  paused : bool;
  currentTime : Z;
  endedListeners : list Variant
}.

(** An [async] call suspended at one of its two [await]s. [fromPractice]
    tells that [playPracticeAudio] is waiting for it. *)
Inductive Await := AwaitFetch | AwaitPlay.
Record Task := { variant : Variant; awaiting : Await; fromPractice : bool }.

(** What [feedbackArea.innerHTML] holds: one of the three templates, with
    the strings interpolated into it, or nothing. *)
Inductive Feedback :=
  | NoFeedback
  | CorrectFeedback
  | IncorrectFeedback (userAnswer correctAnswer : jsstring)
  | AnswerShown (correctAnswer : jsstring).

Record Button := { textContent : string; disabled : bool; audioPlaying : bool }.

(** The study view as [showLesson] writes it.  [lessonNumber] keeps the
    two interpolated values of the label, [progressText] those of
    "Lesson i of n". *)
Record StudyView := {
  lessonNumber : option jsstring * Z;
  chineseText : jsstring;
  pinyinText : jsstring;
  literalText : jsstring;
  englishText : jsstring;
  frenchText : jsstring;
  frenchRow_shown : bool;
  playFrenchBtn_shown : bool;
  progressText : Z * Z;
  lessonSelect_value : Z;
  prevLessonBtn_disabled : bool;
  nextLessonBtn_disabled : bool
}.

Record PracticeView := {
  practicePinyin_checked : bool;
  practiceAnswer_value : jsstring;
  practiceAnswer_className : string;
  feedbackArea_className : string;
  feedbackArea_innerHTML : Feedback;
  checkAnswerBtn_hidden : bool;
  nextPracticeBtn_hidden : bool;
  audioStatus : string
}.

(** [this.elements], with the notifications appended to the document body
    (newest first). *)
Record Elements := {
  study : StudyView;
  practice : PracticeView;
  studyMode_hidden : bool;
  practiceMode_hidden : bool;
  playAudioBtn : Button;
  playFrenchBtn : Button;
  completedCount : nat;
  totalCount : Z;
  notifications : list string
}.

(** The controller object.  [audios] is the heap of the [Audio] elements
    created so far and [currentAudio] the reference held in
    [this.currentAudio]; [tasks] holds the suspended [async] calls. *)
Record App := {
  lessons : list Lesson.t;
  currentLessonIndex : Z;
  currentLesson : option Lesson.t;
  completedLessons : gset Z;
  currentAudio : option nat;
  audios : list Audio;
  tasks : list Task;
  elements : Elements
}.

(** ** Field updates *)

Definition withElements (f : Elements -> Elements) (app : App) : App :=
  {| lessons := lessons app; currentLessonIndex := currentLessonIndex app;
     currentLesson := currentLesson app; completedLessons := completedLessons app;
     currentAudio := currentAudio app; audios := audios app; tasks := tasks app;
     elements := f (elements app) |}.

Definition withAudios (f : list Audio -> list Audio) (app : App) : App :=
  {| lessons := lessons app; currentLessonIndex := currentLessonIndex app;
     currentLesson := currentLesson app; completedLessons := completedLessons app;
     currentAudio := currentAudio app; audios := f (audios app); tasks := tasks app;
     elements := elements app |}.

Definition withTasks (f : list Task -> list Task) (app : App) : App :=
  {| lessons := lessons app; currentLessonIndex := currentLessonIndex app;
     currentLesson := currentLesson app; completedLessons := completedLessons app;
     currentAudio := currentAudio app; audios := audios app; tasks := f (tasks app);
     elements := elements app |}.

Definition withStudy (f : StudyView -> StudyView) (e : Elements) : Elements :=
  {| study := f (study e); practice := practice e;
     studyMode_hidden := studyMode_hidden e; practiceMode_hidden := practiceMode_hidden e;
     playAudioBtn := playAudioBtn e; playFrenchBtn := playFrenchBtn e;
     completedCount := completedCount e; totalCount := totalCount e;
     notifications := notifications e |}.

Definition withPractice (f : PracticeView -> PracticeView) (e : Elements) : Elements :=
  {| study := study e; practice := f (practice e);
     studyMode_hidden := studyMode_hidden e; practiceMode_hidden := practiceMode_hidden e;
     playAudioBtn := playAudioBtn e; playFrenchBtn := playFrenchBtn e;
     completedCount := completedCount e; totalCount := totalCount e;
     notifications := notifications e |}.

Definition withModes (studyHidden practiceHidden : bool) (e : Elements) : Elements :=
  {| study := study e; practice := practice e;
     studyMode_hidden := studyHidden; practiceMode_hidden := practiceHidden;
     playAudioBtn := playAudioBtn e; playFrenchBtn := playFrenchBtn e;
     completedCount := completedCount e; totalCount := totalCount e;
     notifications := notifications e |}.

Definition withButton (v : Variant) (f : Button -> Button) (e : Elements) : Elements :=
  {| study := study e; practice := practice e;
     studyMode_hidden := studyMode_hidden e; practiceMode_hidden := practiceMode_hidden e;
     playAudioBtn := match v with Primary => f (playAudioBtn e) | Secondary => playAudioBtn e end;
     playFrenchBtn := match v with Primary => playFrenchBtn e | Secondary => f (playFrenchBtn e) end;
     completedCount := completedCount e; totalCount := totalCount e;
     notifications := notifications e |}.

Definition withCompletedCount (n : nat) (e : Elements) : Elements :=
  {| study := study e; practice := practice e;
     studyMode_hidden := studyMode_hidden e; practiceMode_hidden := practiceMode_hidden e;
     playAudioBtn := playAudioBtn e; playFrenchBtn := playFrenchBtn e;
     completedCount := n; totalCount := totalCount e;
     notifications := notifications e |}.

Definition withTotalCount (n : Z) (e : Elements) : Elements :=
  {| study := study e; practice := practice e;
     studyMode_hidden := studyMode_hidden e; practiceMode_hidden := practiceMode_hidden e;
     playAudioBtn := playAudioBtn e; playFrenchBtn := playFrenchBtn e;
     completedCount := completedCount e; totalCount := n;
     notifications := notifications e |}.

Definition withAudioStatus (status : string) (p : PracticeView) : PracticeView :=
  {| practicePinyin_checked := practicePinyin_checked p;
     practiceAnswer_value := practiceAnswer_value p;
     practiceAnswer_className := practiceAnswer_className p;
     feedbackArea_className := feedbackArea_className p;
     feedbackArea_innerHTML := feedbackArea_innerHTML p;
     checkAnswerBtn_hidden := checkAnswerBtn_hidden p;
     nextPracticeBtn_hidden := nextPracticeBtn_hidden p;
     audioStatus := status |}.

(** ** [showNotification] and [updateStats] *)

(** [showNotification(message)] appends a notification element to the
    document body.  The timer that removes it four seconds later is not
    part of the model. *)
Definition showNotification (message : string) (app : App) : App :=
  withElements (fun e =>
    {| study := study e; practice := practice e;
       studyMode_hidden := studyMode_hidden e; practiceMode_hidden := practiceMode_hidden e;
       playAudioBtn := playAudioBtn e; playFrenchBtn := playFrenchBtn e;
       completedCount := completedCount e; totalCount := totalCount e;
       notifications := message :: notifications e |}) app.

Definition updateStats (app : App) : App :=
  withElements (withCompletedCount (size (completedLessons app))) app.

(** ** Navigation *)

(** [showLesson(index)], for an integer [index] (the callers pass [0], the
    value of an option of the selector, or the current index plus or minus
    one).  The progress bar width and the fade-in class are presentation
    and are left out. *)
Definition showLesson (index : Z) (app : App) : App :=
  if (index <? 0) || (index >=? Z.of_nat (length (lessons app))) then app
  else
    match lessons app !! Z.to_nat index with
    | None => app (* not reached: [index] is within the array *)
    | Some lesson =>
        let hasFrench := truthy (Lesson.french lesson) in
        withElements (withStudy (fun s =>
          {| lessonNumber :=
               (if truthy (Lesson.source lesson) then Lesson.source lesson else None,
                Lesson.id lesson);
             chineseText := Lesson.chinese lesson;
             pinyinText := Lesson.pinyin lesson;
             literalText := Lesson.literal lesson;
             englishText := Lesson.english lesson;
             frenchText :=
               (if hasFrench then default [] (Lesson.french lesson) else frenchText s);
             frenchRow_shown := hasFrench;
             playFrenchBtn_shown := hasFrench;
             progressText := (index + 1, Z.of_nat (length (lessons app)));
             lessonSelect_value := index;
             prevLessonBtn_disabled := index =? 0;
             nextLessonBtn_disabled := index =? Z.of_nat (length (lessons app)) - 1 |}))
          {| lessons := lessons app;
             currentLessonIndex := index;
             currentLesson := Some lesson;
             completedLessons := completedLessons app;
             currentAudio := currentAudio app; audios := audios app;
             tasks := tasks app; elements := elements app |}
    end.

Definition previousLesson (app : App) : App :=
  if currentLessonIndex app >? 0
  then showLesson (currentLessonIndex app - 1) app
  else app.

Definition nextLesson (app : App) : App :=
  if currentLessonIndex app <? Z.of_nat (length (lessons app)) - 1
  then showLesson (currentLessonIndex app + 1) app
  else app.

(** ** Practice mode *)

Definition resetPractice (app : App) : App :=
  withElements (withPractice (fun p =>
    {| practicePinyin_checked := practicePinyin_checked p;
       practiceAnswer_value := [];
       practiceAnswer_className := "";
       feedbackArea_className := "feedback-area";
       feedbackArea_innerHTML := NoFeedback;
       checkAnswerBtn_hidden := false;
       nextPracticeBtn_hidden := true;
       audioStatus := "Click to play audio" |})) app.

Definition enterPracticeMode (app : App) : App :=
  resetPractice (withElements (withModes true false) app).

Definition exitPracticeMode (app : App) : App :=
  withElements (withModes false true) app.

Definition showCorrectFeedback (app : App) : App :=
  withElements (withPractice (fun p =>
    {| practicePinyin_checked := practicePinyin_checked p;
       practiceAnswer_value := practiceAnswer_value p;
       practiceAnswer_className := "correct";
       feedbackArea_className := "feedback-area feedback-correct";
       feedbackArea_innerHTML := CorrectFeedback;
       checkAnswerBtn_hidden := true;
       nextPracticeBtn_hidden := false;
       audioStatus := audioStatus p |})) app.

Definition showIncorrectFeedback (userAnswer correctAnswer : jsstring) (app : App) : App :=
  withElements (withPractice (fun p =>
    {| practicePinyin_checked := practicePinyin_checked p;
       practiceAnswer_value := practiceAnswer_value p;
       practiceAnswer_className := "incorrect";
       feedbackArea_className := "feedback-area feedback-incorrect";
       feedbackArea_innerHTML := IncorrectFeedback userAnswer correctAnswer;
       checkAnswerBtn_hidden := checkAnswerBtn_hidden p;
       nextPracticeBtn_hidden := nextPracticeBtn_hidden p;
       audioStatus := audioStatus p |})) app.

(** The expected answer of the selected practice type. *)
Definition expectedAnswer (app : App) (lesson : Lesson.t) : jsstring :=
  if practicePinyin_checked (practice (elements app))
  then Lesson.pinyin lesson
  else Lesson.chinese lesson.

Definition addCompleted (lessonId : Z) (app : App) : App :=
  {| lessons := lessons app; currentLessonIndex := currentLessonIndex app;
     currentLesson := currentLesson app;
     completedLessons := {[ lessonId ]} ∪ completedLessons app;
     currentAudio := currentAudio app; audios := audios app; tasks := tasks app;
     elements := elements app |}.

(** [checkAnswer()].  The result is [None] when the call throws: with
    [currentLesson] still [null], reading its [pinyin] or [chinese] member
    raises a TypeError, before anything has been written. *)
Definition checkAnswer (app : App) : option App :=
  let userAnswer := JS.trim (practiceAnswer_value (practice (elements app))) in
  match userAnswer with
  | [] => Some (showNotification "Please enter your answer first." app)
  | _ :: _ =>
      match currentLesson app with
      | None => None
      | Some lesson =>
          let correctAnswer := expectedAnswer app lesson in
          if compareAnswers userAnswer correctAnswer
          then Some (updateStats (addCompleted (Lesson.id lesson) (showCorrectFeedback app)))
          else Some (showIncorrectFeedback userAnswer correctAnswer app)
      end
  end.

(** [showAnswer()], with the same convention for [None]. *)
Definition showAnswer (app : App) : option App :=
  match currentLesson app with
  | None => None
  | Some lesson =>
      let correctAnswer := expectedAnswer app lesson in
      Some (withElements (withPractice (fun p =>
        {| practicePinyin_checked := practicePinyin_checked p;
           practiceAnswer_value := correctAnswer;
           practiceAnswer_className := "correct";
           feedbackArea_className := "feedback-area feedback-correct";
           feedbackArea_innerHTML := AnswerShown correctAnswer;
           checkAnswerBtn_hidden := true;
           nextPracticeBtn_hidden := false;
           audioStatus := audioStatus p |})) app)
  end.

Definition congratulations : string :=
  "🎉 Congratulations! You've completed all lessons!".

Definition nextPracticeLesson (app : App) : App :=
  if currentLessonIndex app <? Z.of_nat (length (lessons app)) - 1
  then resetPractice (showLesson (currentLessonIndex app + 1) app)
  else exitPracticeMode (showNotification congratulations app).

(** ** Audio playback

    [playAudio] and [playFrenchAudio] are [async]: each runs up to its
    first [await] when called, and resumes later, when the [fetch] and then
    the [play()] promise settle.  Other handlers may run in between.  The
    model splits each function at its [await]s: the [..._start] part runs
    in the calling handler and leaves a [Task]; the two [resume...]
    functions are run by the event loop when a promise settles. *)

(** [this.currentAudio.pause(); this.currentAudio.currentTime = 0]. *)
Definition pauseAndRewind (a : Audio) : Audio :=
  {| src := src a; creator := creator a; paused := true; currentTime := 0;
     endedListeners := endedListeners a |}.

Definition startPlaying (a : Audio) : Audio :=
  {| src := src a; creator := creator a; paused := false;
     currentTime := currentTime a; endedListeners := endedListeners a |}.

Definition endPlaying (a : Audio) : Audio :=
  {| src := src a; creator := creator a; paused := true;
     currentTime := currentTime a; endedListeners := endedListeners a |}.

Definition setCurrentTime (t : Z) (a : Audio) : Audio :=
  {| src := src a; creator := creator a; paused := paused a;
     currentTime := t; endedListeners := endedListeners a |}.

Definition addEndedListener (v : Variant) (a : Audio) : Audio :=
  {| src := src a; creator := creator a; paused := paused a;
     currentTime := currentTime a; endedListeners := endedListeners a ++ [v] |}.

(** The guarded stop at the head of both [try] blocks. *)
Definition stopCurrentAudio (app : App) : App :=
  match currentAudio app with
  | Some i => withAudios (alter pauseAndRewind i) app
  | None => app
  end.

(** [this.currentAudio = new Audio(audioFile)]. *)
Definition newAudio (v : Variant) (audioFile : jsstring) (app : App) : App :=
  {| lessons := lessons app; currentLessonIndex := currentLessonIndex app;
     currentLesson := currentLesson app; completedLessons := completedLessons app;
     currentAudio := Some (length (audios app));
     audios := audios app ++
       [ {| src := audioFile; creator := v; paused := true; currentTime := 0;
            endedListeners := [] |} ];
     tasks := tasks app; elements := elements app |}.

Definition loadingButton (b : Button) : Button :=
  {| textContent := "Loading..."; disabled := true; audioPlaying := true |}.

Definition setTextContent (text : string) (b : Button) : Button :=
  {| textContent := text; disabled := disabled b; audioPlaying := audioPlaying b |}.

Definition idleLabel (v : Variant) : string :=
  match v with Primary => "Play Chinese" | Secondary => "Play French" end.

Definition idleButton (v : Variant) (b : Button) : Button :=
  {| textContent := idleLabel v; disabled := false; audioPlaying := false |}.

Definition errorButton (v : Variant) (b : Button) : Button :=
  {| textContent := match v with Primary => "Audio Error" | Secondary => "French Audio Error" end;
     disabled := false; audioPlaying := false |}.

Definition audioRoot : jsstring := units "../audio/".

Definition suspend (v : Variant) (practice : bool) (app : App) : App :=
  withTasks (fun ts =>
    ts ++ [ {| variant := v; awaiting := AwaitFetch; fromPractice := practice |} ]) app.

(** [playAudio()] up to [await fetch(audioFile, { method: 'HEAD' })]. *)
Definition playAudio_start (practice : bool) (app : App) : App :=
  match currentLesson app with
  | None => app
  | Some lesson =>
      let app1 := stopCurrentAudio app in
      let app2 := newAudio Primary (audioRoot ++ Lesson.audio_file lesson) app1 in
      let app3 := withElements (withButton Primary loadingButton) app2 in
      suspend Primary practice app3
  end.

(** [playFrenchAudio()] up to its [await fetch]. *)
Definition playFrenchAudio_start (app : App) : App :=
  match currentLesson app with
  | None => showNotification "No French audio available for this lesson." app
  | Some lesson =>
      if truthy (Lesson.french_audio_file lesson) then
        let app1 := stopCurrentAudio app in
        let app2 :=
          newAudio Secondary
            (audioRoot ++ default [] (Lesson.french_audio_file lesson)) app1 in
        let app3 := withElements (withButton Secondary loadingButton) app2 in
        suspend Secondary false app3
      else showNotification "No French audio available for this lesson." app
  end.

Definition audioPlayed : string := "Audio played. Now write what you heard.".

(** [playPracticeAudio()]: the status line changes again once [playAudio]
    has completed, which is at once when there is no current lesson. *)
Definition playPracticeAudio_start (app : App) : App :=
  let app1 := withElements (withPractice (withAudioStatus "Playing audio...")) app in
  match currentLesson app1 with
  | None => withElements (withPractice (withAudioStatus audioPlayed)) app1
  | Some _ => playAudio_start true app1
  end.

(** [handleAudioError(errorMessage)], and the [catch] block of
    [playFrenchAudio]; the delayed reset of the label is not modelled. *)
Definition handleAudioError (errorMessage : string) (app : App) : App :=
  showNotification
    ("Audio Error: " ++ errorMessage ++ ". Check browser console for details.")
    (withElements (withButton Primary (errorButton Primary)) app).

Definition catchFrenchError (errorMessage : string) (app : App) : App :=
  showNotification ("French Audio Error: " ++ errorMessage)
    (withElements (withButton Secondary (errorButton Secondary)) app).

Definition catchError (v : Variant) (errorMessage : string) (app : App) : App :=
  match v with
  | Primary => handleAudioError errorMessage app
  | Secondary => catchFrenchError errorMessage app
  end.

(** The end of an [async] call: the task is gone, and a waiting
    [playPracticeAudio] writes its status line. *)
Definition complete (k : nat) (t : Task) (app : App) : App :=
  let app1 := withTasks (delete k) app in
  if fromPractice t
  then withElements (withPractice (withAudioStatus audioPlayed)) app1
  else app1.

Inductive FetchOutcome :=
  | ResponseOk
  | ResponseNotOk (status : string)
  | FetchFailed (message : string).

Inductive PlayOutcome :=
  | PlayFulfilled
  | PlayRejected (message : string).

Definition notFoundMessage (v : Variant) (status : string) : string :=
  match v with
  | Primary => "Audio file not found: " ++ status
  | Secondary => "French audio file not found: " ++ status
  end.

(** [this.currentAudio.play()]: it is the element referenced by
    [this.currentAudio] when the call resumes that starts. *)
Definition playCurrentAudio (app : App) : App :=
  match currentAudio app with
  | Some i => withAudios (alter startPlaying i) app
  | None => app
  end.

(** The call suspended as task [k] resumes after its [fetch]. *)
Definition resumeAfterFetch (k : nat) (outcome : FetchOutcome) (app : App) : App :=
  match tasks app !! k with
  | Some t =>
      match awaiting t, outcome with
      | AwaitFetch, ResponseOk =>
          let app1 :=
            withElements (withButton (variant t) (setTextContent "Playing...")) app in
          let app2 := playCurrentAudio app1 in
          withTasks (alter (fun _ =>
            {| variant := variant t; awaiting := AwaitPlay;
               fromPractice := fromPractice t |}) k) app2
      | AwaitFetch, ResponseNotOk status =>
          complete k t (catchError (variant t) (notFoundMessage (variant t) status) app)
      | AwaitFetch, FetchFailed message =>
          complete k t (catchError (variant t) message app)
      | AwaitPlay, _ => app
      end
  | None => app
  end.

(** The call suspended as task [k] resumes after [await play()]. *)
Definition resumeAfterPlay (k : nat) (outcome : PlayOutcome) (app : App) : App :=
  match tasks app !! k with
  | Some t =>
      match awaiting t, outcome with
      | AwaitPlay, PlayFulfilled =>
          let app1 :=
            match currentAudio app with
            | Some i => withAudios (alter (addEndedListener (variant t)) i) app
            | None => app
            end in
          complete k t app1
      | AwaitPlay, PlayRejected message =>
          complete k t (catchError (variant t) message app)
      | AwaitFetch, _ => app
      end
  | None => app
  end.

(** Playback of element [i] reaches its end: the element is paused again
    and its ['ended'] listeners run. *)
Definition audioEnded (i : nat) (app : App) : App :=
  match audios app !! i with
  | Some a =>
      if paused a then app
      else
        fold_left (fun acc v => withElements (withButton v (idleButton v)) acc)
          (endedListeners a) (withAudios (alter endPlaying i) app)
  | None => app
  end.

(** Playback of element [i] advances to position [t]. *)
Definition audioTimeUpdate (i : nat) (t : Z) (app : App) : App :=
  match audios app !! i with
  | Some a => if paused a then app else withAudios (alter (setCurrentTime t) i) app
  | None => app
  end.

(** The ['error'] listener that [playAudio] registers on its element. *)
Definition audioErrorEvent (i : nat) (message : string) (app : App) : App :=
  match audios app !! i with
  | Some a =>
      match creator a with
      | Primary => handleAudioError ("Audio failed to load: " ++ message) app
      | Secondary => app
      end
  | None => app
  end.

(** ** Start-up *)

Definition getSampleLessons : list Lesson.t :=
  [ Lesson.mk 1
      (* 我叫James，我是英国人。 *)
      [0x6211; 0x53EB; 0x4A; 0x61; 0x6D; 0x65; 0x73; 0xFF0C; 0x6211; 0x662F;
       0x82F1; 0x56FD; 0x4EBA; 0x3002]
      (* Wǒ jiào James, wǒ shì Yīngguó rén. *)
      [0x57; 0x1D2; 0x20; 0x6A; 0x69; 0xE0; 0x6F; 0x20; 0x4A; 0x61; 0x6D; 0x65;
       0x73; 0x2C; 0x20; 0x77; 0x1D2; 0x20; 0x73; 0x68; 0xEC; 0x20; 0x59;
       0x12B; 0x6E; 0x67; 0x67; 0x75; 0xF3; 0x20; 0x72; 0xE9; 0x6E; 0x2E]
      (units "I called James, I am England person.")
      (units "My name is James, I am British.")
      (units "lesson_01.mp3") None None None;
    Lesson.mk 2
      (* 我是坐飞机来的上海。 *)
      [0x6211; 0x662F; 0x5750; 0x98DE; 0x673A; 0x6765; 0x7684; 0x4E0A; 0x6D77;
       0x3002]
      (* Wǒ shì zuò fēijī lái de Shànghǎi. *)
      [0x57; 0x1D2; 0x20; 0x73; 0x68; 0xEC; 0x20; 0x7A; 0x75; 0xF2; 0x20; 0x66;
       0x113; 0x69; 0x6A; 0x12B; 0x20; 0x6C; 0xE1; 0x69; 0x20; 0x64; 0x65;
       0x20; 0x53; 0x68; 0xE0; 0x6E; 0x67; 0x68; 0x1CE; 0x69; 0x2E]
      (units "I am sit airplane come [particle] Shanghai.")
      (units "I came to Shanghai by airplane.")
      (units "lesson_02.mp3") None None None;
    Lesson.mk 3
      (* 我从今年二月开始在上海工作。 *)
      [0x6211; 0x4ECE; 0x4ECA; 0x5E74; 0x4E8C; 0x6708; 0x5F00; 0x59CB; 0x5728;
       0x4E0A; 0x6D77; 0x5DE5; 0x4F5C; 0x3002]
      (* Wǒ cóng jīnnián èryuè kāishǐ zài Shànghǎi gōngzuò. *)
      [0x57; 0x1D2; 0x20; 0x63; 0xF3; 0x6E; 0x67; 0x20; 0x6A; 0x12B; 0x6E;
       0x6E; 0x69; 0xE1; 0x6E; 0x20; 0xE8; 0x72; 0x79; 0x75; 0xE8; 0x20; 0x6B;
       0x101; 0x69; 0x73; 0x68; 0x1D0; 0x20; 0x7A; 0xE0; 0x69; 0x20; 0x53;
       0x68; 0xE0; 0x6E; 0x67; 0x68; 0x1CE; 0x69; 0x20; 0x67; 0x14D; 0x6E;
       0x67; 0x7A; 0x75; 0xF2; 0x2E]
      (units "I from this-year February start at Shanghai work.")
      (units "I started working in Shanghai in February this year.")
      (units "lesson_03.mp3") None None None ].

(** The document fetched from [../data/lessons.json]. *)
Record LessonData := { total_lessons : Z; data_lessons : list Lesson.t }.

(** The constructor, over the elements [dom] of the page as loaded. *)
Definition construct (dom : Elements) : App :=
  {| lessons := []; currentLessonIndex := 0; currentLesson := None;
     completedLessons := ∅; currentAudio := None; audios := []; tasks := [];
     elements := dom |}.

Definition setLessons (ls : list Lesson.t) (total : Z) (app : App) : App :=
  withElements (withTotalCount total)
    {| lessons := ls; currentLessonIndex := currentLessonIndex app;
       currentLesson := currentLesson app; completedLessons := completedLessons app;
       currentAudio := currentAudio app; audios := audios app; tasks := tasks app;
       elements := elements app |}.

(** [loadLessons()]; [fetched] is [None] when the document could not be
    fetched or parsed, and the sample lessons are used. *)
Definition loadLessons (fetched : option LessonData) (app : App) : App :=
  match fetched with
  | Some data => setLessons (data_lessons data) (total_lessons data) app
  | None => setLessons getSampleLessons (Z.of_nat (length getSampleLessons)) app
  end.

(** [new ChineseLearningApp()] once [initialize()] has run: the handlers
    are registered only then, so this is the state the first event finds.
    Filling the options of the selector is presentation and left out. *)
Definition initialize (dom : Elements) (fetched : option LessonData) : App :=
  updateStats (showLesson 0 (loadLessons fetched (construct dom))).

(** ** Events

    One constructor per listener of [setupEventListeners], plus the user
    editing the answer box and the platform events that resume or end a
    playback. *)

Inductive Key := ArrowLeft | ArrowRight | SpaceKey | KeyP | Escape | OtherKey.

Inductive Event :=
  | ClickPlayAudio
  | ClickRepeatAudio
  | ClickPlayFrench
  | ClickStartPractice
  | ClickPrevLesson
  | ClickNextLesson
  | ChangeLessonSelect (selectedIndex : Z)
  | ClickPracticePlay
  | ClickCheckAnswer
  | ClickShowAnswer
  | ClickNextPractice
  | ClickBackToStudy
  | InputAnswer (text : jsstring)
  | PressEnterInAnswer
  | ChangePracticeType (toPinyin : bool)
  | KeyDown (inTextField : bool) (key : Key)
  | FetchSettled (task : nat) (outcome : FetchOutcome)
  | PlaySettled (task : nat) (outcome : PlayOutcome)
  | AudioEnded (element : nat)
  | AudioTimeUpdate (element : nat) (time : Z)
  | AudioError (element : nat) (message : string).

Definition setAnswer (text : jsstring) (p : PracticeView) : PracticeView :=
  {| practicePinyin_checked := practicePinyin_checked p;
     practiceAnswer_value := text;
     practiceAnswer_className := practiceAnswer_className p;
     feedbackArea_className := feedbackArea_className p;
     feedbackArea_innerHTML := feedbackArea_innerHTML p;
     checkAnswerBtn_hidden := checkAnswerBtn_hidden p;
     nextPracticeBtn_hidden := nextPracticeBtn_hidden p;
     audioStatus := audioStatus p |}.

Definition setPracticeType (toPinyin : bool) (p : PracticeView) : PracticeView :=
  {| practicePinyin_checked := toPinyin;
     practiceAnswer_value := practiceAnswer_value p;
     practiceAnswer_className := practiceAnswer_className p;
     feedbackArea_className := feedbackArea_className p;
     feedbackArea_innerHTML := feedbackArea_innerHTML p;
     checkAnswerBtn_hidden := checkAnswerBtn_hidden p;
     nextPracticeBtn_hidden := nextPracticeBtn_hidden p;
     audioStatus := audioStatus p |}.

(** [handleKeyboard(e)]. *)
Definition handleKeyboard (inTextField : bool) (key : Key) (app : App) : App :=
  if inTextField then app
  else match key with
       | ArrowLeft => previousLesson app
       | ArrowRight => nextLesson app
       | SpaceKey => playAudio_start false app
       | KeyP => enterPracticeMode app
       | Escape => exitPracticeMode app
       | OtherKey => app
       end.

(** The effect of one event.  A handler that throws leaves the state as
    it was: the two that can throw do so before their first write. *)
Definition handle (ev : Event) (app : App) : App :=
  match ev with
  | ClickPlayAudio | ClickRepeatAudio => playAudio_start false app
  | ClickPlayFrench => playFrenchAudio_start app
  | ClickStartPractice => enterPracticeMode app
  | ClickPrevLesson => previousLesson app
  | ClickNextLesson => nextLesson app
  | ChangeLessonSelect selectedIndex => showLesson selectedIndex app
  | ClickPracticePlay => playPracticeAudio_start app
  | ClickCheckAnswer | PressEnterInAnswer => default app (checkAnswer app)
  | ClickShowAnswer => default app (showAnswer app)
  | ClickNextPractice => nextPracticeLesson app
  | ClickBackToStudy => exitPracticeMode app
  | InputAnswer text => withElements (withPractice (setAnswer text)) app
  | ChangePracticeType toPinyin =>
      resetPractice (withElements (withPractice (setPracticeType toPinyin)) app)
  | KeyDown inTextField key => handleKeyboard inTextField key app
  | FetchSettled k outcome => resumeAfterFetch k outcome app
  | PlaySettled k outcome => resumeAfterPlay k outcome app
  | AudioEnded i => audioEnded i app
  | AudioTimeUpdate i t => audioTimeUpdate i t app
  | AudioError i message => audioErrorEvent i message app
  end.

(** The state after a sequence of events, oldest first. *)
Definition run (evs : list Event) (app : App) : App :=
  fold_left (fun acc ev => handle ev acc) evs app.

(** ** A concrete page

    The markup of the page is not part of the controller; [emptyPage] is a
    page whose elements are all empty, on which the controller can be run. *)
Definition emptyPage : Elements :=
  {| study :=
       {| lessonNumber := (None, 0); chineseText := []; pinyinText := [];
          literalText := []; englishText := []; frenchText := [];
          frenchRow_shown := false; playFrenchBtn_shown := false;
          progressText := (0, 0); lessonSelect_value := 0;
          prevLessonBtn_disabled := false; nextLessonBtn_disabled := false |};
     practice :=
       {| practicePinyin_checked := true; practiceAnswer_value := [];
          practiceAnswer_className := ""; feedbackArea_className := "feedback-area";
          feedbackArea_innerHTML := NoFeedback; checkAnswerBtn_hidden := false;
          nextPracticeBtn_hidden := true; audioStatus := "Click to play audio" |};
     studyMode_hidden := false; practiceMode_hidden := true;
     playAudioBtn := {| textContent := "Play Chinese"; disabled := false; audioPlaying := false |};
     playFrenchBtn := {| textContent := "Play French"; disabled := false; audioPlaying := false |};
     completedCount := 0; totalCount := 0; notifications := [] |}.

(** The controller started on [emptyPage] when [lessons.json] cannot be
    fetched: the three sample lessons, the first one shown. *)
Definition sampleApp : App := initialize emptyPage None.

(** The second sample lesson. *)
Definition secondSample : Lesson.t :=
  Lesson.mk 2
    [0x6211; 0x662F; 0x5750; 0x98DE; 0x673A; 0x6765; 0x7684; 0x4E0A; 0x6D77;
     0x3002]
    [0x57; 0x1D2; 0x20; 0x73; 0x68; 0xEC; 0x20; 0x7A; 0x75; 0xF2; 0x20; 0x66;
     0x113; 0x69; 0x6A; 0x12B; 0x20; 0x6C; 0xE1; 0x69; 0x20; 0x64; 0x65;
     0x20; 0x53; 0x68; 0xE0; 0x6E; 0x67; 0x68; 0x1CE; 0x69; 0x2E]
    (units "I am sit airplane come [particle] Shanghai.")
    (units "I came to Shanghai by airplane.")
    (units "lesson_02.mp3") None None None.


(* ================================================================== *)
(** * Properties of states and strings used in the statements          *)
(* ================================================================== *)

Import JS.

(** ** Navigation *)

(** The index of the last lesson, [this.lessons.length - 1]. *)
Definition lastIndex (a : App) : Z := Z.of_nat (length (lessons a)) - 1.

(** The invariant of the cursor once lessons are loaded. *)
Definition indexInRange (a : App) : Prop :=
  0 <= currentLessonIndex a <= lastIndex a.

(** The lessons and the position of the cursor in them. *)
Definition cursor (app : App) : list Lesson.t * Z :=
  (lessons app, currentLessonIndex app).

(** ** Practice and progress *)

(** What the user typed, as [checkAnswer] reads it. *)
Definition typedAnswer (app : App) : jsstring :=
  JS.trim (practiceAnswer_value (practice (elements app))).

(** The completed set together with the number shown for it. *)
Definition progress (app : App) : gset Z * nat :=
  (completedLessons app, completedCount (elements app)).

(** The counter shows the size of the completed set. *)
Definition counterMatches (app : App) : Prop :=
  completedCount (elements app) = size (completedLessons app).

(** ** Playback *)

(** What playback depends on: the reference held and the elements. *)
Definition playback (app : App) : option nat * list Audio :=
  (currentAudio app, audios app).

(** An element plays while its [paused] attribute is false. *)
Definition playing (a : Audio) : Prop := paused a = false.

(** The number of elements playing. *)
Definition activeCount (app : App) : nat :=
  length (filter playing (audios app)).

(** Only the element that [this.currentAudio] refers to can be playing. *)
Definition onlyCurrentPlays (app : App) : Prop :=
  ∀ j a, audios app !! j = Some a → playing a → currentAudio app = Some j.

(** The element created by a play request for [file]. *)
Definition created (v : Variant) (file : jsstring) : Audio :=
  {| src := audioRoot ++ file; creator := v; paused := true; currentTime := 0;
     endedListeners := [] |}.

(** ** Code points *)

(** A scalar value: a code point that is not a surrogate. *)
Definition isScalar (c : Z) : bool :=
  (0 <=? c) && (c <=? 0x10FFFF) && negb (isSurrogate c).

(** The code points of a run. *)
Definition runPoints (r : Z * Z * Z * Z) : list Z :=
  let '(first, last, step, _) := r in
  map (fun k => first + step * Z.of_nat k)
      (seq 0 (S (Z.to_nat ((last - first) / step)))).

(** A code point that lower-casing leaves alone, also in context. *)
Definition isLowerFixed (c : Z) : bool :=
  negb (c =? 0x3A3) && negb (c =? 0x130)
  && match simpleLowercase lowercaseTable c with Some _ => false | None => true end.

(** A scalar value that is not mapped again. *)
Definition isSettled (c : Z) : bool := isScalar c && isLowerFixed c.

(** The check run over a table: the runs have positive steps, and the
    image of every listed code point is [good]. *)
Definition checkTable (good : Z → bool) (t : list (Z * Z * Z * Z)) : bool :=
  forallb (fun r =>
    (0 <? r.1.2) && forallb (fun c => good (c + r.2)) (runPoints r)) t.

(** A well-formed string, by its shape: single units that are scalar
    values, and surrogate pairs ([JS.isWellFormed] as a property). *)
Inductive WellFormed : jsstring → Prop :=
  | wf_nil : WellFormed []
  | wf_unit (c : Z) (s : jsstring) :
      isScalar c = true → c <= 0xFFFF → WellFormed s → WellFormed (c :: s)
  | wf_pair (h l : Z) (s : jsstring) :
      isLeadingSurrogate h = true → isTrailingSurrogate l = true →
      WellFormed s → WellFormed (h :: l :: s).

(** Plain text: well formed and without capital sigma, the one letter
    whose lower case depends on what stands around it. *)
Definition isPlain (s : jsstring) : bool :=
  isWellFormed s && forallb (fun c => negb (c =? 0x3A3)) s.

(** [isPlain] as a property. *)
Definition Plain (s : jsstring) : Prop := WellFormed s ∧ 0x3A3 ∉ s.

(** ** White space and the tidied form *)

Definition allWhiteSpace (s : jsstring) : Prop :=
  Forall (fun c => isWhiteSpace c = true) s.

(** No run of white space is left in [s]: every white-space code unit is
    a single U+0020, and none comes first when [inSpaces] is set. *)
Fixpoint tidyFrom (inSpaces : bool) (s : jsstring) : bool :=
  match s with
  | [] => true
  | c :: s' =>
      if isWhiteSpace c then negb inSpaces && (c =? 0x20) && tidyFrom true s'
      else tidyFrom false s'
  end.

(** [s] does not begin with white space. *)
Definition startsClean (s : jsstring) : Prop :=
  match s with
  | c :: _ => isWhiteSpace c = false
  | [] => True
  end.

(** The pipeline after lower-casing. *)
Definition tidy (s : jsstring) : jsstring :=
  trim (collapseSpaces (removePunctuation s)).


(** ** Concrete states and strings *)

(** The sample app in practice mode on its second lesson, with [text] in
    the answer box. *)
Definition practising (text : jsstring) : App :=
  withElements (withPractice (setAnswer text))
    (enterPracticeMode (nextLesson sampleApp)).

(** "wo shi zuo feiji lai de shanghai", typed with a leading space. *)
Definition withoutDiacritics : jsstring :=
  0x20 :: units "wo shi zuo feiji lai de shanghai".

(** "Wǒ shì zuò fēijī lái de Shànghǎi" in lower case, without the full
    stop: a correct answer to the second sample lesson. *)
Definition lowerCasePinyin : jsstring :=
  [0x77; 0x1D2; 0x20; 0x73; 0x68; 0xEC; 0x20; 0x7A; 0x75; 0xF2; 0x20; 0x66;
   0x113; 0x69; 0x6A; 0x12B; 0x20; 0x6C; 0xE1; 0x69; 0x20; 0x64; 0x65;
   0x20; 0x73; 0x68; 0xE0; 0x6E; 0x67; 0x68; 0x1CE; 0x69].

(** The first sample lesson playing: its button pressed and the check of
    the file passed. *)
Definition firstPlaying : App :=
  run [ClickPlayAudio; FetchSettled 0 ResponseOk] sampleApp.

(** A lesson that has a French recording. *)
Definition frenchLesson : Lesson.t :=
  Lesson.mk 7 [0x505C; 0x8F66] (units "ting che") (units "stop vehicle")
    (units "parking") (units "lesson_07.mp3")
    (Some (units "stationnement")) (Some (units "lesson_07_fr.mp3")) None.

Definition frenchPlaying : App :=
  run [ClickPlayAudio; FetchSettled 0 ResponseOk]
    (initialize emptyPage (Some {| total_lessons := 1; data_lessons := [frenchLesson] |})).

(** ** The options of the lesson selector *)

(** An [option] element of the drop-down: its [value], and the three
    values interpolated into its text
    ("[source] Lesson id: preview"). *)
Record SelectOption := {
  option_value : Z;
  option_source : option jsstring;
  option_id : Z;
  option_preview : jsstring
}.

(** [lesson.chinese.length > 20 ? lesson.chinese.substring(0, 20) + '...'
    : lesson.chinese], counted in code units as [length] and [substring]
    count. *)
Definition chinesePreview (chinese : jsstring) : jsstring :=
  if (20 <? length chinese)%nat then take 20 chinese ++ units "..." else chinese.

(** [populateLessonSelector()], as a function from the lessons and the
    options the drop-down holds to the options it holds afterwards.  With
    no lessons the function returns before it clears the drop-down. *)
Definition populateLessonSelector (ls : list Lesson.t) (options : list SelectOption)
  : list SelectOption :=
  match ls with
  | [] => options
  | _ :: _ =>
      imap (fun index lesson =>
        {| option_value := Z.of_nat index;
           option_source :=
             if truthy (Lesson.source lesson) then Lesson.source lesson else None;
           option_id := Lesson.id lesson;
           option_preview := chinesePreview (Lesson.chinese lesson) |}) ls
  end.

(** ** Further properties of states *)

(** The lessons, the cursor and the lesson it is on. *)
Definition position (app : App) : list Lesson.t * Z * option Lesson.t :=
  (lessons app, currentLessonIndex app, currentLesson app).

(** The current lesson is the one stored at the cursor. *)
Definition onLesson (app : App) : Prop :=
  indexInRange app
  ∧ currentLesson app = lessons app !! Z.to_nat (currentLessonIndex app).

(** The study view shows [lesson] at the cursor of [app]. *)
Definition studyShows (app : App) (lesson : Lesson.t) : Prop :=
  let s := study (elements app) in
  lessonNumber s
  = (if truthy (Lesson.source lesson) then Lesson.source lesson else None,
     Lesson.id lesson)
  ∧ chineseText s = Lesson.chinese lesson
  ∧ pinyinText s = Lesson.pinyin lesson
  ∧ literalText s = Lesson.literal lesson
  ∧ englishText s = Lesson.english lesson
  ∧ frenchRow_shown s = truthy (Lesson.french lesson)
  ∧ playFrenchBtn_shown s = truthy (Lesson.french lesson)
  ∧ (truthy (Lesson.french lesson) = true → Some (frenchText s) = Lesson.french lesson)
  ∧ progressText s = (currentLessonIndex app + 1, Z.of_nat (length (lessons app)))
  ∧ lessonSelect_value s = currentLessonIndex app
  ∧ prevLessonBtn_disabled s = (currentLessonIndex app =? 0)
  ∧ nextLessonBtn_disabled s = (currentLessonIndex app =? lastIndex app).

(** The study view is in step with the current lesson, if there is one. *)
Definition studyInStep (app : App) : Prop :=
  ∀ lesson, currentLesson app = Some lesson → studyShows app lesson.

(** Which of the two views are hidden. *)
Definition modes (app : App) : bool * bool :=
  (studyMode_hidden (elements app), practiceMode_hidden (elements app)).

(** The practice form as [resetPractice] leaves it, for a practice type. *)
Definition blankForm (pinyinChecked : bool) : PracticeView :=
  {| practicePinyin_checked := pinyinChecked;
     practiceAnswer_value := [];
     practiceAnswer_className := "";
     feedbackArea_className := "feedback-area";
     feedbackArea_innerHTML := NoFeedback;
     checkAnswerBtn_hidden := false;
     nextPracticeBtn_hidden := true;
     audioStatus := "Click to play audio" |}.

(** What of the practice form the user's work consists of: everything
    but the status line of the audio. *)
Definition formContent (app : App) : bool * jsstring * string * string * Feedback * bool * bool :=
  let p := practice (elements app) in
  (practicePinyin_checked p, practiceAnswer_value p, practiceAnswer_className p,
   feedbackArea_className p, feedbackArea_innerHTML p, checkAnswerBtn_hidden p,
   nextPracticeBtn_hidden p).


(** The source of an element lies under the audio root. *)
Definition underAudioRoot (a : Audio) : Prop :=
  ∃ file, src a = audioRoot ++ file.

(** No lesson of the list has a French recording. *)
Definition withoutFrenchAudio (ls : list Lesson.t) : Prop :=
  Forall (fun lesson => truthy (Lesson.french_audio_file lesson) = false) ls.

(** An element created by [playAudio], with listeners of [playAudio]. *)
Definition primaryElement (a : Audio) : Prop :=
  creator a = Primary ∧ Forall (fun v => v = Primary) (endedListeners a).

(** Nothing of the French playback exists: no element, listener or task
    of the secondary variant. *)
Definition onlyPrimary (app : App) : Prop :=
  Forall primaryElement (audios app)
  ∧ Forall (fun t => variant t = Primary) (tasks app).

(** A code unit that is punctuation of the set or white space. *)
Definition isFiller (c : Z) : bool := isPunctuation c || isWhiteSpace c.

(** The state of a controller that loaded an empty list of lessons on the
    page [dom]: nothing selected, nothing completed, nothing played, the
    study view as the page had it. *)
Definition idleOn (dom : Elements) (app : App) : Prop :=
  position app = ([], 0, None)
  ∧ playback app = (None, [])
  ∧ tasks app = []
  ∧ progress app = (∅, 0%nat)
  ∧ study (elements app) = study dom.

(** The current lesson and the completed ids come from the lessons. *)
Definition fromLessons (app : App) : Prop :=
  (∀ lesson, currentLesson app = Some lesson → lesson ∈ lessons app)
  ∧ (∀ id, id ∈ completedLessons app →
       ∃ lesson, lesson ∈ lessons app ∧ Lesson.id lesson = id).









(** The study view with another text in the cell of the French
    translation. *)
Definition withFrenchText (text : jsstring) (s : StudyView) : StudyView :=
  {| lessonNumber := lessonNumber s; chineseText := chineseText s;
     pinyinText := pinyinText s; literalText := literalText s;
     englishText := englishText s; frenchText := text;
     frenchRow_shown := frenchRow_shown s;
     playFrenchBtn_shown := playFrenchBtn_shown s;
     progressText := progressText s; lessonSelect_value := lessonSelect_value s;
     prevLessonBtn_disabled := prevLessonBtn_disabled s;
     nextLessonBtn_disabled := nextLessonBtn_disabled s |}.

(** The events of playback: a play request, a promise of a suspended
    call settling, and the events of an audio element. *)
Definition isPlaybackEvent (ev : Event) : bool :=
  match ev with
  | ClickPlayAudio | ClickRepeatAudio | ClickPlayFrench | ClickPracticePlay
  | KeyDown false SpaceKey
  | FetchSettled _ _ | PlaySettled _ _
  | AudioEnded _ | AudioTimeUpdate _ _ | AudioError _ _ => true
  | _ => false
  end.

(** The events that move the cursor in the study view. *)
Definition isNavigationEvent (ev : Event) : bool :=
  match ev with
  | ClickPrevLesson | ClickNextLesson | ChangeLessonSelect _
  | KeyDown false ArrowLeft | KeyDown false ArrowRight => true
  | _ => false
  end.

(** The label, the enabled state and the playing mark of the two play
    buttons.  Whether the French one is displayed is part of the study
    view ([playFrenchBtn_shown]). *)
Definition playButtons (app : App) : Button * Button :=
  (playAudioBtn (elements app), playFrenchBtn (elements app)).

(** The sample app in practice mode on its first lesson with an answer
    typed and found wrong. *)
Definition wrongAnswer : App :=
  run [ClickStartPractice; InputAnswer (units "ni hao"); ClickCheckAnswer] sampleApp.

(** ** A selection that is not a number

    The listener of the drop-down passes [parseInt(e.target.value)] to
    [showLesson].  The options that [populateLessonSelector] writes have
    the indices as values, so with lessons loaded the argument is an
    integer, as [ChangeLessonSelect] has it.  With no lessons the function
    leaves the options of the page, and [parseInt] of a value that does
    not start with digits is NaN.  Every comparison with NaN is false, so
    NaN passes the guard of [showLesson]: the index becomes NaN,
    [currentLesson] becomes [lessons[NaN]], which is undefined, and reading
    its [source] throws before anything is displayed. *)

(** The value of [this.currentLessonIndex]. *)
Inductive LessonIndex := Number (index : Z) | NaN.

(** The controller together with the knowledge that its index is NaN;
    [currentLessonIndex] of [controller] is the index while it is a
    number. *)
Record Session := { controller : App; indexIsNaN : bool }.

Definition lessonIndex (s : Session) : LessonIndex :=
  if indexIsNaN s then NaN else Number (currentLessonIndex (controller s)).

(** [this.currentLesson = this.lessons[NaN]]: undefined, which every
    handler treats as it treats [null]. *)
Definition forgetLesson (app : App) : App :=
  {| lessons := lessons app; currentLessonIndex := currentLessonIndex app;
     currentLesson := None; completedLessons := completedLessons app;
     currentAudio := currentAudio app; audios := audios app; tasks := tasks app;
     elements := elements app |}.

(** [showLesson(NaN)]. *)
Definition showLessonNaN (s : Session) : Session :=
  {| controller := forgetLesson (controller s); indexIsNaN := true |}.

(** An event of the controller, or the choice of an option whose value is
    not a number. *)
Inductive SessionEvent :=
  | Numbered (ev : Event)
  | ChangeLessonSelectNaN.

(** An event handled while the index is NaN.  [NaN > 0] and
    [NaN < this.lessons.length - 1] are false: [previousLesson] and
    [nextLesson] do nothing and [nextPracticeLesson] takes its [else]
    branch.  [showLesson] of an integer inside the lessons makes the index
    a number again.  The other handlers do not read the index. *)
Definition handleAtNaN (ev : Event) (app : App) : Session :=
  match ev with
  | ClickPrevLesson | ClickNextLesson
  | KeyDown false ArrowLeft | KeyDown false ArrowRight =>
      {| controller := app; indexIsNaN := true |}
  | ClickNextPractice =>
      {| controller := exitPracticeMode (showNotification congratulations app);
         indexIsNaN := true |}
  | ChangeLessonSelect index =>
      if (index <? 0) || (index >=? Z.of_nat (length (lessons app)))
      then {| controller := app; indexIsNaN := true |}
      else {| controller := showLesson index app; indexIsNaN := false |}
  | _ => {| controller := handle ev app; indexIsNaN := true |}
  end.

Definition handleSession (ev : SessionEvent) (s : Session) : Session :=
  match ev with
  | ChangeLessonSelectNaN => showLessonNaN s
  | Numbered ev =>
      if indexIsNaN s then handleAtNaN ev (controller s)
      else {| controller := handle ev (controller s); indexIsNaN := false |}
  end.

Definition runSession (evs : list SessionEvent) (s : Session) : Session :=
  fold_left (fun acc ev => handleSession ev acc) evs s.

(** The session that [initialize()] starts. *)
Definition startSession (dom : Elements) (fetched : option LessonData) : Session :=
  {| controller := initialize dom fetched; indexIsNaN := false |}.

Definition isNaNSelection (ev : SessionEvent) : bool :=
  match ev with
  | ChangeLessonSelectNaN => true
  | Numbered _ => false
  end.

(** The sample page with a document of two lessons, the first with a
    French translation and recording, the second without. *)
Definition mixedApp : App :=
  initialize emptyPage
    (Some {| total_lessons := 2; data_lessons := [frenchLesson; secondSample] |}).

(* ================================================================== *)
(** * Navigation: [showLesson], [nextLesson], [previousLesson]         *)
(* ================================================================== *)

Section Navigation.

Variable app : App.





Lemma showLesson_outside (index : Z) :
  ¬ (0 <= index <= lastIndex app) → showLesson index app = app.
Proof.
  unfold showLesson, lastIndex. intros Hout.
  destruct (index <? 0) eqn:Hneg; [done|].
  destruct (index >=? Z.of_nat (length (lessons app))) eqn:Hge; [done|].
  exfalso. apply Hout. lia.
Qed.

Lemma showLesson_inside (index : Z) :
  0 <= index <= lastIndex app →
  ∃ lesson,
    lessons app !! Z.to_nat index = Some lesson
    ∧ currentLessonIndex (showLesson index app) = index
    ∧ currentLesson (showLesson index app) = Some lesson
    ∧ lessons (showLesson index app) = lessons app
    ∧ completedLessons (showLesson index app) = completedLessons app.
Proof.
  unfold showLesson, lastIndex. intros Hin.
  destruct (index <? 0) eqn:Hneg; [lia|].
  destruct (index >=? Z.of_nat (length (lessons app))) eqn:Hge; [lia|].
  destruct (lookup_lt_is_Some_2 (lessons app) (Z.to_nat index)) as [lesson Hl]; [lia|].
  exists lesson. rewrite Hl. simpl. done.
Qed.

Lemma showLesson_lessons (index : Z) : lessons (showLesson index app) = lessons app.
Proof. unfold showLesson. repeat case_match; done. Qed.

Lemma showLesson_keeps_range (index : Z) :
  indexInRange app → indexInRange (showLesson index app).
Proof.
  intros Hinv. destruct (decide (0 <= index <= lastIndex app)) as [Hin|Hout].
  - destruct (showLesson_inside index Hin) as (l & _ & Hi & _ & Hls & _).
    unfold indexInRange, lastIndex in *. rewrite Hi, Hls. done.
  - by rewrite showLesson_outside.
Qed.

End Navigation.

(** C1.  [showLesson(index)] with [index] within [[0, length - 1]] makes
    [index] the current index and the lesson stored at that position the
    current lesson; with [index] outside that interval it changes nothing
    at all. *)
Theorem showLesson_goTo (app : App) (index : Z) :
  (0 <= index <= lastIndex app →
     ∃ lesson,
       lessons app !! Z.to_nat index = Some lesson
       ∧ currentLessonIndex (showLesson index app) = index
       ∧ currentLesson (showLesson index app) = Some lesson)
  ∧ (¬ (0 <= index <= lastIndex app) → showLesson index app = app).
Proof.
  split.
  - intros Hin. destruct (showLesson_inside app index Hin) as (l & ? & ? & ? & _).
    by exists l.
  - apply showLesson_outside.
Qed.

Lemma showLesson_goTo_witness :
  (∃ lesson,
     lessons sampleApp !! Z.to_nat 1 = Some lesson
     ∧ currentLessonIndex (showLesson 1 sampleApp) = 1
     ∧ currentLesson (showLesson 1 sampleApp) = Some lesson)
  ∧ showLesson 3 sampleApp = sampleApp.
Proof.
  split.
  - apply (proj1 (showLesson_goTo sampleApp 1)). vm_compute. split; discriminate.
  - apply (proj2 (showLesson_goTo sampleApp 3)). vm_compute. intros [_ H]. by apply H.
Defined.

(* ================================================================== *)
(** * Handlers that leave a part of the state alone                    *)
(* ================================================================== *)

Ltac unfold_handlers :=
  unfold handleKeyboard, nextPracticeLesson, previousLesson, nextLesson,
    enterPracticeMode, exitPracticeMode, resetPractice, playPracticeAudio_start,
    playAudio_start, playFrenchAudio_start, resumeAfterFetch, resumeAfterPlay,
    audioTimeUpdate, audioErrorEvent, complete, catchError, handleAudioError,
    catchFrenchError, suspend, newAudio, stopCurrentAudio, playCurrentAudio,
    showNotification, showLesson, showAnswer, showCorrectFeedback,
    showIncorrectFeedback, updateStats, addCompleted.

Ltac frame := intros; unfold_handlers; repeat case_match; reflexivity.

Lemma resetButtons_frame (vs : list Variant) (app : App) :
  let app' :=
    fold_left (fun acc v => withElements (withButton v (idleButton v)) acc) vs app in
  progress app' = progress app ∧ playback app' = playback app.
Proof.
  revert app. induction vs as [|v vs IH]; intros app; simpl; [done|].
  destruct (IH (withElements (withButton v (idleButton v)) app)) as [-> ->]. done.
Qed.

Lemma run_snoc (evs : list Event) (ev : Event) (app : App) :
  run (evs ++ [ev]) app = handle ev (run evs app).
Proof. unfold run. by rewrite fold_left_app. Qed.


(** ** The cursor stays inside the lessons *)

Lemma indexInRange_frame (app app' : App) :
  cursor app' = cursor app → indexInRange app → indexInRange app'.
Proof.
  unfold cursor, indexInRange, lastIndex. intros Heq Hin.
  injection Heq as -> ->. done.
Qed.

Lemma previousLesson_keeps_range (app : App) :
  indexInRange app → indexInRange (previousLesson app).
Proof.
  intros Hin. unfold previousLesson.
  destruct (currentLessonIndex app >? 0); [by apply showLesson_keeps_range|done].
Qed.

Lemma nextLesson_keeps_range (app : App) :
  indexInRange app → indexInRange (nextLesson app).
Proof.
  intros Hin. unfold nextLesson.
  destruct (currentLessonIndex app <? _); [by apply showLesson_keeps_range|done].
Qed.

Lemma nextPracticeLesson_keeps_range (app : App) :
  indexInRange app → indexInRange (nextPracticeLesson app).
Proof.
  intros Hin. unfold nextPracticeLesson.
  destruct (currentLessonIndex app <? _).
  - apply (indexInRange_frame (showLesson (currentLessonIndex app + 1) app));
      [done|by apply showLesson_keeps_range].
  - by apply (indexInRange_frame app).
Qed.

Lemma handle_keeps_range (ev : Event) (app : App) :
  indexInRange app → indexInRange (handle ev app).
Proof.
  intros Hin.
  destruct ev; simpl;
    try (by apply previousLesson_keeps_range);
    try (by apply nextLesson_keeps_range);
    try (by apply showLesson_keeps_range);
    try (by apply nextPracticeLesson_keeps_range);
    try (apply (indexInRange_frame app); [by frame|exact Hin]).
  - destruct (checkAnswer app) as [app'|] eqn:Hc; [|done].
    apply (indexInRange_frame app); [|exact Hin].
    unfold checkAnswer in Hc. repeat case_match; by simplify_eq.
  - destruct (checkAnswer app) as [app'|] eqn:Hc; [|done].
    apply (indexInRange_frame app); [|exact Hin].
    unfold checkAnswer in Hc. repeat case_match; by simplify_eq.
  - destruct inTextField; [done|].
    destruct key; simpl; try done;
      try (by apply previousLesson_keeps_range);
      try (by apply nextLesson_keeps_range);
      (apply (indexInRange_frame app); [by frame|exact Hin]).
  - unfold audioEnded. repeat case_match; try done.
    apply (indexInRange_frame (withAudios (alter endPlaying element) app)); [|done].
    generalize (withAudios (alter endPlaying element) app). clear.
    induction (endedListeners a) as [|v vs IH]; intros acc; simpl; [done|].
    by rewrite IH.
Qed.

Lemma initialize_lessons (dom : Elements) (fetched : option LessonData) :
  lessons (initialize dom fetched)
  = match fetched with Some data => data_lessons data | None => getSampleLessons end.
Proof.
  unfold initialize. simpl. rewrite showLesson_lessons. by destruct fetched.
Qed.

Lemma initialize_indexInRange (dom : Elements) (fetched : option LessonData) :
  lessons (initialize dom fetched) ≠ [] → indexInRange (initialize dom fetched).
Proof.
  intros Hne. unfold initialize in *. simpl in Hne. rewrite showLesson_lessons in Hne.
  apply (indexInRange_frame (showLesson 0 (loadLessons fetched (construct dom)))); [done|].
  set (app := loadLessons fetched (construct dom)) in *.
  destruct (showLesson_inside app 0) as (l & _ & Hi & _ & Hl & _).
  - unfold lastIndex. destruct (lessons app); [done|]. simpl length. lia.
  - unfold indexInRange, lastIndex. rewrite Hi, Hl.
    destruct (lessons app); [done|]. simpl length. lia.
Qed.

(** Once lessons are loaded the cursor is on one of them, whatever
    events follow. *)
Lemma run_indexInRange (dom : Elements) (fetched : option LessonData) (evs : list Event) :
  lessons (initialize dom fetched) ≠ [] →
  indexInRange (run evs (initialize dom fetched)).
Proof.
  intros Hne. induction evs as [|ev evs IH] using rev_ind.
  - by apply initialize_indexInRange.
  - rewrite run_snoc. by apply handle_keeps_range.
Qed.



Section NextPrevious.

Variable app : App.
Hypothesis inRange : indexInRange app.

Lemma nextLesson_step :
  currentLessonIndex app < lastIndex app →
  nextLesson app = showLesson (currentLessonIndex app + 1) app
  ∧ currentLessonIndex (nextLesson app) = currentLessonIndex app + 1
  ∧ currentLesson (nextLesson app)
    = lessons app !! Z.to_nat (currentLessonIndex app + 1).
Proof using inRange.
  intros Hlt. unfold nextLesson. fold (lastIndex app).
  destruct (Z.ltb_spec (currentLessonIndex app) (lastIndex app)); [|lia].
  destruct (showLesson_inside app (currentLessonIndex app + 1)) as (l & Hl & Hi & Hc & _).
  { red in inRange. lia. }
  by rewrite Hi, Hc, Hl.
Qed.

Lemma nextLesson_last :
  currentLessonIndex app = lastIndex app → nextLesson app = app.
Proof using Type.
  intros Heq. unfold nextLesson. fold (lastIndex app).
  destruct (Z.ltb_spec (currentLessonIndex app) (lastIndex app)); [lia|done].
Qed.

Lemma previousLesson_step :
  0 < currentLessonIndex app →
  previousLesson app = showLesson (currentLessonIndex app - 1) app
  ∧ currentLessonIndex (previousLesson app) = currentLessonIndex app - 1
  ∧ currentLesson (previousLesson app)
    = lessons app !! Z.to_nat (currentLessonIndex app - 1).
Proof using inRange.
  intros Hgt. unfold previousLesson.
  destruct (Z.gtb_spec (currentLessonIndex app) 0); [|lia].
  destruct (showLesson_inside app (currentLessonIndex app - 1)) as (l & Hl & Hi & Hc & _).
  { red in inRange. lia. }
  by rewrite Hi, Hc, Hl.
Qed.

Lemma previousLesson_first :
  currentLessonIndex app = 0 → previousLesson app = app.
Proof using Type.
  intros Heq. unfold previousLesson.
  destruct (Z.gtb_spec (currentLessonIndex app) 0); [lia|done].
Qed.

End NextPrevious.

(** The scenario of the three sample lessons: from the first lesson two
    [nextLesson()] reach the lesson with id 3, where the next button is
    disabled, and a third call changes nothing. *)
Lemma sample_next_scenario (dom : Elements) :
  let app0 := initialize dom None in
  let app2 := nextLesson (nextLesson app0) in
  currentLessonIndex app0 = 0
  ∧ Lesson.id <$> currentLesson app0 = Some 1
  ∧ currentLessonIndex app2 = 2
  ∧ Lesson.id <$> currentLesson app2 = Some 3
  ∧ nextLessonBtn_disabled (study (elements app2)) = true
  ∧ nextLesson app2 = app2.
Proof. cbv zeta. split_and!; vm_compute; reflexivity. Qed.

(** C2.  With the cursor inside the lessons (where [run_indexInRange]
    shows it to be in every state the controller reaches with lessons
    loaded), [nextLesson()] moves it one lesson forward unless it is on the
    last lesson, and [previousLesson()] one lesson back unless it is on the
    first; at those two ends the call changes nothing, so the cursor never
    wraps around.  On the three sample lessons, two calls of [nextLesson()]
    from the first lesson show the lesson with id 3, with the next button
    disabled, and a third call leaves it there. *)
Theorem next_previous_clamped (app : App) :
  indexInRange app →
  (currentLessonIndex app < lastIndex app →
     currentLessonIndex (nextLesson app) = currentLessonIndex app + 1)
  ∧ (currentLessonIndex app = lastIndex app → nextLesson app = app)
  ∧ (0 < currentLessonIndex app →
     currentLessonIndex (previousLesson app) = currentLessonIndex app - 1)
  ∧ (currentLessonIndex app = 0 → previousLesson app = app)
  ∧ (∀ dom : Elements,
       let app0 := initialize dom None in
       let app2 := nextLesson (nextLesson app0) in
       currentLessonIndex app0 = 0
       ∧ Lesson.id <$> currentLesson app2 = Some 3
       ∧ nextLessonBtn_disabled (study (elements app2)) = true
       ∧ nextLesson app2 = app2).
Proof.
  intros Hin. split_and!.
  - intros H. by destruct (nextLesson_step app Hin H) as (_ & ? & _).
  - apply nextLesson_last.
  - intros H. by destruct (previousLesson_step app Hin H) as (_ & ? & _).
  - apply previousLesson_first.
  - intros dom. destruct (sample_next_scenario dom) as (? & _ & _ & ? & ? & ?). done.
Qed.

Lemma next_previous_clamped_witness :
  currentLessonIndex (nextLesson sampleApp) = 1
  ∧ previousLesson sampleApp = sampleApp
  ∧ nextLesson (showLesson 2 sampleApp) = showLesson 2 sampleApp
  ∧ currentLessonIndex (previousLesson (showLesson 2 sampleApp)) = 1.
Proof.
  assert (H0 : indexInRange sampleApp) by (vm_compute; split; discriminate).
  assert (H2 : indexInRange (showLesson 2 sampleApp)) by (vm_compute; split; discriminate).
  destruct (next_previous_clamped sampleApp H0) as (Hn & _ & _ & Hp & _).
  destruct (next_previous_clamped (showLesson 2 sampleApp) H2) as (_ & Hn2 & Hp2 & _).
  split; [|split; [|split]].
  - apply Hn. vm_compute. reflexivity.
  - apply Hp. reflexivity.
  - apply Hn2. reflexivity.
  - apply Hp2. vm_compute. reflexivity.
Defined.

(* ================================================================== *)
(** * Practice mode: [checkAnswer], [showAnswer], [nextPracticeLesson] *)
(* ================================================================== *)



(** C4.  When the answer box is empty once trimmed, [checkAnswer()] only
    shows the notification asking for an answer: it returns before the
    expected answer is even read (so also with no current lesson), and
    every part of the state other than the list of notifications is as
    before, the completed set, the cursor and the feedback among them. *)
Theorem checkAnswer_empty_input (app : App) :
  typedAnswer app = [] →
  ∃ app',
    checkAnswer app = Some app'
    ∧ notifications (elements app')
      = "Please enter your answer first."%string :: notifications (elements app)
    ∧ completedLessons app' = completedLessons app
    ∧ completedCount (elements app') = completedCount (elements app)
    ∧ currentLessonIndex app' = currentLessonIndex app
    ∧ currentLesson app' = currentLesson app
    ∧ lessons app' = lessons app
    ∧ practice (elements app') = practice (elements app)
    ∧ study (elements app') = study (elements app)
    ∧ studyMode_hidden (elements app') = studyMode_hidden (elements app)
    ∧ practiceMode_hidden (elements app') = practiceMode_hidden (elements app)
    ∧ (currentAudio app', audios app', tasks app')
      = (currentAudio app, audios app, tasks app).
Proof.
  unfold typedAnswer, checkAnswer. intros ->.
  eexists. split; [reflexivity|]. simpl. done.
Qed.

Lemma checkAnswer_empty_input_witness :
  ∃ app',
    checkAnswer sampleApp = Some app'
    ∧ notifications (elements app')
      = "Please enter your answer first."%string :: notifications (elements sampleApp)
    ∧ completedLessons app' = completedLessons sampleApp
    ∧ completedCount (elements app') = completedCount (elements sampleApp)
    ∧ currentLessonIndex app' = currentLessonIndex sampleApp
    ∧ currentLesson app' = currentLesson sampleApp
    ∧ lessons app' = lessons sampleApp
    ∧ practice (elements app') = practice (elements sampleApp)
    ∧ study (elements app') = study (elements sampleApp)
    ∧ studyMode_hidden (elements app') = studyMode_hidden (elements sampleApp)
    ∧ practiceMode_hidden (elements app') = practiceMode_hidden (elements sampleApp)
    ∧ (currentAudio app', audios app', tasks app')
      = (currentAudio sampleApp, audios sampleApp, tasks sampleApp).
Proof. apply (checkAnswer_empty_input sampleApp). reflexivity. Defined.

(** An answer box holding only white space is rejected in the same way. *)
Example checkAnswer_blank_input :
  let app := withElements (withPractice (setAnswer [0x20; 0x09; 0x3000])) sampleApp in
  checkAnswer app = Some (showNotification "Please enter your answer first." app).
Proof. reflexivity. Qed.

Section Checking.

Variable app : App.
Variable lesson : Lesson.t.
Hypothesis current : currentLesson app = Some lesson.

Lemma checkAnswer_correct :
  typedAnswer app ≠ [] →
  compareAnswers (typedAnswer app) (expectedAnswer app lesson) = true →
  checkAnswer app
  = Some (updateStats (addCompleted (Lesson.id lesson) (showCorrectFeedback app))).
Proof using current.
  unfold typedAnswer, checkAnswer. intros Hne Hcmp. rewrite current.
  destruct (JS.trim _) eqn:Ht; [done|]. by rewrite Hcmp.
Qed.

Lemma checkAnswer_incorrect :
  typedAnswer app ≠ [] →
  compareAnswers (typedAnswer app) (expectedAnswer app lesson) = false →
  checkAnswer app
  = Some (showIncorrectFeedback (typedAnswer app) (expectedAnswer app lesson) app).
Proof using current.
  unfold typedAnswer, checkAnswer. intros Hne Hcmp. rewrite current.
  destruct (JS.trim _) eqn:Ht; [done|]. by rewrite Hcmp.
Qed.

End Checking.

(** C7.  When the answer is not empty and its normal form differs from
    that of the expected answer, [checkAnswer()] puts the incorrect-answer
    template in the feedback area with the answer as typed (trimmed, not
    normalized) next to the expected answer; the completed set and its
    counter are untouched, and so is the check button, which therefore
    stays available for another try. *)
Theorem checkAnswer_incorrect_feedback (app : App) (lesson : Lesson.t) :
  currentLesson app = Some lesson →
  typedAnswer app ≠ [] →
  compareAnswers (typedAnswer app) (expectedAnswer app lesson) = false →
  ∃ app',
    checkAnswer app = Some app'
    ∧ feedbackArea_innerHTML (practice (elements app'))
      = IncorrectFeedback (typedAnswer app) (expectedAnswer app lesson)
    ∧ feedbackArea_className (practice (elements app'))
      = "feedback-area feedback-incorrect"%string
    ∧ completedLessons app' = completedLessons app
    ∧ completedCount (elements app') = completedCount (elements app)
    ∧ checkAnswerBtn_hidden (practice (elements app'))
      = checkAnswerBtn_hidden (practice (elements app))
    ∧ practiceAnswer_value (practice (elements app'))
      = practiceAnswer_value (practice (elements app)).
Proof.
  intros Hcur Hne Hcmp. eexists. split.
  - by apply checkAnswer_incorrect.
  - simpl. done.
Qed.





Lemma checkAnswer_incorrect_feedback_witness :
  ∃ app',
    checkAnswer (practising withoutDiacritics) = Some app'
    ∧ feedbackArea_innerHTML (practice (elements app'))
      = IncorrectFeedback (units "wo shi zuo feiji lai de shanghai")
          [0x57; 0x1D2; 0x20; 0x73; 0x68; 0xEC; 0x20; 0x7A; 0x75; 0xF2; 0x20; 0x66;
           0x113; 0x69; 0x6A; 0x12B; 0x20; 0x6C; 0xE1; 0x69; 0x20; 0x64; 0x65;
           0x20; 0x53; 0x68; 0xE0; 0x6E; 0x67; 0x68; 0x1CE; 0x69; 0x2E]
    ∧ feedbackArea_className (practice (elements app'))
      = "feedback-area feedback-incorrect"%string
    ∧ completedLessons app' = ∅
    ∧ completedCount (elements app') = 0%nat
    ∧ checkAnswerBtn_hidden (practice (elements app')) = false
    ∧ practiceAnswer_value (practice (elements app')) = withoutDiacritics.
Proof.
  apply (checkAnswer_incorrect_feedback (practising withoutDiacritics) secondSample).
  - vm_compute. reflexivity.
  - vm_compute. discriminate.
  - vm_compute. reflexivity.
Defined.

(** C6, where it fails.  [showAnswer()] does not disable checking: it
    hides the check button, but the Enter key of the answer box runs
    [checkAnswer] whether or not the button is shown.  On the second
    sample lesson, Enter pressed after [showAnswer()] finds the expected
    answer in the box, shows the feedback of a correct answer and records
    the lesson as completed. *)
Lemma showAnswer_checking_not_disabled :
  let revealed := run [ClickShowAnswer] (practising []) in
  showAnswer (practising []) = Some revealed
  ∧ checkAnswerBtn_hidden (practice (elements revealed)) = true
  ∧ completedLessons revealed = ∅
  ∧ handle PressEnterInAnswer revealed ≠ revealed
  ∧ feedbackArea_innerHTML (practice (elements (handle PressEnterInAnswer revealed)))
    = CorrectFeedback
  ∧ completedLessons (handle PressEnterInAnswer revealed) = {[ 2 ]}
  ∧ completedCount (elements (handle PressEnterInAnswer revealed)) = 1%nat.
Proof.
  cbv zeta. split_and!; try (vm_compute; reflexivity).
  intros Heq.
  assert (H : completedLessons (handle PressEnterInAnswer (run [ClickShowAnswer] (practising [])))
              = completedLessons (run [ClickShowAnswer] (practising [])))
    by (by rewrite Heq).
  revert H. apply (bool_decide_unpack _). vm_compute. exact I.
Qed.

(** C6, as amended.  Whatever the lesson and the practice type,
    [showAnswer()] writes the expected answer of that type (the pinyin when
    the pinyin radio is checked, the characters otherwise) into the answer
    box and shows the answer-shown template, which is not the template of
    a correct answer although it carries the same two class names; it
    hides the check button and shows the button that advances.  What the
    answer box held plays no part: nothing is compared.  Neither the
    completed set nor its counter changes.  Checking is not disabled:
    Enter in the answer box still runs [checkAnswer()], on the answer
    just written. *)
Theorem showAnswer_reveals (app : App) (lesson : Lesson.t) :
  currentLesson app = Some lesson →
  ∃ app',
    showAnswer app = Some app'
    ∧ expectedAnswer app lesson
      = (if practicePinyin_checked (practice (elements app))
         then Lesson.pinyin lesson else Lesson.chinese lesson)
    ∧ practiceAnswer_value (practice (elements app')) = expectedAnswer app lesson
    ∧ feedbackArea_innerHTML (practice (elements app'))
      = AnswerShown (expectedAnswer app lesson)
    ∧ feedbackArea_innerHTML (practice (elements app'))
      ≠ feedbackArea_innerHTML (practice (elements (showCorrectFeedback app)))
    ∧ practiceAnswer_className (practice (elements app'))
      = practiceAnswer_className (practice (elements (showCorrectFeedback app)))
    ∧ feedbackArea_className (practice (elements app'))
      = feedbackArea_className (practice (elements (showCorrectFeedback app)))
    ∧ checkAnswerBtn_hidden (practice (elements app')) = true
    ∧ nextPracticeBtn_hidden (practice (elements app')) = false
    ∧ completedLessons app' = completedLessons app
    ∧ completedCount (elements app') = completedCount (elements app)
    ∧ (∀ text : jsstring,
         showAnswer (withElements (withPractice (setAnswer text)) app) = Some app')
    ∧ handle PressEnterInAnswer app' = default app' (checkAnswer app')
    ∧ checkAnswer app'
      = match JS.trim (expectedAnswer app lesson) with
        | [] => Some (showNotification "Please enter your answer first." app')
        | _ :: _ =>
            if compareAnswers (JS.trim (expectedAnswer app lesson))
                 (expectedAnswer app lesson)
            then Some (updateStats
                         (addCompleted (Lesson.id lesson) (showCorrectFeedback app')))
            else Some (showIncorrectFeedback (JS.trim (expectedAnswer app lesson))
                         (expectedAnswer app lesson) app')
        end.
Proof.
  intros Hcur. unfold showAnswer. rewrite Hcur.
  eexists. split; [reflexivity|]. simpl. split_and!; try done.
  - intros text. by rewrite Hcur.
  - unfold checkAnswer. simpl. rewrite Hcur.
    by destruct (JS.trim (expectedAnswer app lesson)).
Qed.

Lemma showAnswer_reveals_witness :
  ∃ app',
    showAnswer (practising withoutDiacritics) = Some app'
    ∧ practiceAnswer_value (practice (elements app'))
      = [0x57; 0x1D2; 0x20; 0x73; 0x68; 0xEC; 0x20; 0x7A; 0x75; 0xF2; 0x20; 0x66;
         0x113; 0x69; 0x6A; 0x12B; 0x20; 0x6C; 0xE1; 0x69; 0x20; 0x64; 0x65;
         0x20; 0x53; 0x68; 0xE0; 0x6E; 0x67; 0x68; 0x1CE; 0x69; 0x2E]
    ∧ checkAnswerBtn_hidden (practice (elements app')) = true
    ∧ nextPracticeBtn_hidden (practice (elements app')) = false
    ∧ completedLessons app' = ∅
    ∧ completedLessons (handle PressEnterInAnswer app') = {[ 2 ]}.
Proof.
  assert (Hcur : currentLesson (practising withoutDiacritics) = Some secondSample)
    by (vm_compute; reflexivity).
  destruct (showAnswer_reveals (practising withoutDiacritics) secondSample Hcur)
    as (app' & Hs & _ & Hv & _ & _ & _ & _ & Hc & Hn & Hd & _ & _ & He & Hk).
  exists app'. split_and!; [exact Hs | exact Hv | exact Hc | exact Hn | exact Hd |].
  assert (Hshown : showAnswer (practising withoutDiacritics)
                   = Some (run [ClickShowAnswer] (practising withoutDiacritics)))
    by (vm_compute; reflexivity).
  assert (Heq : app' = run [ClickShowAnswer] (practising withoutDiacritics)).
  { apply (inj Some). rewrite <- Hs. exact Hshown. }
  rewrite He, Hk, Heq. vm_compute. reflexivity.
Defined.



(* ================================================================== *)
(** * Progress: the set of completed lessons and its counter           *)
(* ================================================================== *)





Lemma checkAnswer_progress (app app' : App) :
  checkAnswer app = Some app' →
  progress app' = progress app
  ∨ ∃ lesson,
      currentLesson app = Some lesson
      ∧ completedLessons app' = {[ Lesson.id lesson ]} ∪ completedLessons app
      ∧ completedCount (elements app') = size (completedLessons app').
Proof.
  unfold checkAnswer. intros H. repeat case_match; simplify_eq; try by left.
  right. eexists. split; [done|]. done.
Qed.

Lemma checkAnswer_playback (app app' : App) :
  checkAnswer app = Some app' → playback app' = playback app.
Proof. unfold checkAnswer. intros H. repeat case_match; by simplify_eq. Qed.

Lemma showAnswer_frame (app app' : App) :
  showAnswer app = Some app' →
  progress app' = progress app ∧ playback app' = playback app.
Proof. unfold showAnswer. intros H. repeat case_match; by simplify_eq. Qed.

(** Every event other than a check leaves the completed set and the
    counter as they are. *)
Lemma handle_progress (ev : Event) (app : App) :
  ev ≠ ClickCheckAnswer → ev ≠ PressEnterInAnswer →
  progress (handle ev app) = progress app.
Proof.
  intros H1 H2. destruct ev; simpl; try done; try (by frame).
  unfold audioEnded. repeat case_match; try done.
  by destruct (resetButtons_frame (endedListeners a) (withAudios (alter endPlaying element) app)).
Qed.

Lemma handle_check_progress (app : App) :
  progress (default app (checkAnswer app)) = progress app
  ∨ ∃ lesson,
      currentLesson app = Some lesson
      ∧ completedLessons (default app (checkAnswer app))
        = {[ Lesson.id lesson ]} ∪ completedLessons app
      ∧ completedCount (elements (default app (checkAnswer app)))
        = size (completedLessons (default app (checkAnswer app))).
Proof.
  destruct (checkAnswer app) as [app'|] eqn:Hc; simpl; [|by left].
  by apply checkAnswer_progress.
Qed.

Lemma handle_progress_cases (ev : Event) (app : App) :
  progress (handle ev app) = progress app
  ∨ ∃ lesson,
      currentLesson app = Some lesson
      ∧ completedLessons (handle ev app) = {[ Lesson.id lesson ]} ∪ completedLessons app
      ∧ completedCount (elements (handle ev app))
        = size (completedLessons (handle ev app)).
Proof.
  destruct ev; try (left; by apply handle_progress); apply handle_check_progress.
Qed.

Lemma handle_completed_grows (ev : Event) (app : App) :
  completedLessons app ⊆ completedLessons (handle ev app).
Proof.
  destruct (handle_progress_cases ev app) as [Hp|(l & _ & -> & _)].
  - injection Hp as -> _. done.
  - set_solver.
Qed.



Lemma handle_counter (ev : Event) (app : App) :
  counterMatches app → counterMatches (handle ev app).
Proof.
  unfold counterMatches. intros Hinv.
  destruct (handle_progress_cases ev app) as [Hp|(l & _ & _ & Hc)]; [|done].
  injection Hp as -> ->. done.
Qed.

Lemma run_completed_grows (evs : list Event) (app : App) :
  completedLessons app ⊆ completedLessons (run evs app).
Proof.
  induction evs as [|ev evs IH] using rev_ind; [done|].
  rewrite run_snoc. etrans; [exact IH|apply handle_completed_grows].
Qed.

Lemma initialize_counter (dom : Elements) (fetched : option LessonData) :
  counterMatches (initialize dom fetched).
Proof. unfold counterMatches, initialize, updateStats. simpl. done. Qed.

Lemma run_counter (evs : list Event) (app : App) :
  counterMatches app → counterMatches (run evs app).
Proof.
  intros Hinv. induction evs as [|ev evs IH] using rev_ind; [done|].
  rewrite run_snoc. by apply handle_counter.
Qed.

(** C5.  [completedLessons] is a set of lesson ids.  A correct check adds
    the id of the current lesson; when the id is already there the size
    stays as it was, so answering correctly again is not counted twice.
    No event handler removes an id: over every event, and hence over every
    sequence of events, the set only grows.  From start-up on, the number
    shown in [completedCount] is the size of the set. *)
Theorem completedLessons_set_semantics :
  (∀ (app : App) (lesson : Lesson.t),
     currentLesson app = Some lesson →
     typedAnswer app ≠ [] →
     compareAnswers (typedAnswer app) (expectedAnswer app lesson) = true →
     ∃ app',
       checkAnswer app = Some app'
       ∧ completedLessons app' = {[ Lesson.id lesson ]} ∪ completedLessons app
       ∧ (Lesson.id lesson ∈ completedLessons app →
          completedLessons app' = completedLessons app
          ∧ size (completedLessons app') = size (completedLessons app))
       ∧ (Lesson.id lesson ∉ completedLessons app →
          size (completedLessons app') = S (size (completedLessons app))))
  ∧ (∀ (ev : Event) (app : App),
       completedLessons app ⊆ completedLessons (handle ev app))
  ∧ (∀ (evs : list Event) (app : App),
       completedLessons app ⊆ completedLessons (run evs app))
  ∧ (∀ (dom : Elements) (fetched : option LessonData) (evs : list Event),
       completedCount (elements (run evs (initialize dom fetched)))
       = size (completedLessons (run evs (initialize dom fetched)))).
Proof.
  split_and!.
  - intros app lesson Hcur Hne Hcmp. eexists. split; [by apply checkAnswer_correct|].
    simpl. split_and!; [done| |].
    + intros Hin.
      assert (Heq : {[Lesson.id lesson]} ∪ completedLessons app = completedLessons app)
        by (by apply subseteq_union_1_L, singleton_subseteq_l).
      by rewrite Heq.
    + intros Hnin. rewrite size_union by set_solver. by rewrite size_singleton.
  - apply handle_completed_grows.
  - apply run_completed_grows.
  - intros dom fetched evs. apply run_counter, initialize_counter.
Qed.



Lemma completedLessons_set_semantics_witness :
  let once := run [ClickCheckAnswer] (practising lowerCasePinyin) in
  (∃ app', checkAnswer (practising lowerCasePinyin) = Some app'
           ∧ size (completedLessons app') = 1%nat)
  ∧ (∃ app', checkAnswer once = Some app'
             ∧ size (completedLessons app') = size (completedLessons once))
  ∧ completedLessons once ⊆ completedLessons (run [PressEnterInAnswer] once)
  ∧ completedCount (elements (run [ClickCheckAnswer; PressEnterInAnswer] sampleApp))
    = size (completedLessons (run [ClickCheckAnswer; PressEnterInAnswer] sampleApp)).
Proof.
  intros once.
  destruct completedLessons_set_semantics as (Hadd & _ & Hrun & Hcount).
  split_and!.
  - destruct (Hadd (practising lowerCasePinyin) secondSample)
      as (app' & Hc & _ & _ & Hnew);
      [vm_compute; reflexivity | vm_compute; discriminate | vm_compute; reflexivity |].
    exists app'. split; [exact Hc|]. apply Hnew. vm_compute. set_solver.
  - destruct (Hadd once secondSample) as (app' & Hc & _ & Hold & _);
      [vm_compute; reflexivity | vm_compute; discriminate | vm_compute; reflexivity |].
    exists app'. split; [exact Hc|]. apply Hold. vm_compute. set_solver.
  - exact (Hrun [PressEnterInAnswer] once).
  - exact (Hcount emptyPage None [ClickCheckAnswer; PressEnterInAnswer]).
Defined.

(* ================================================================== *)
(** * Playback: at most one element plays                              *)
(* ================================================================== *)







Lemma onlyCurrentPlays_frame (app app' : App) :
  playback app' = playback app → onlyCurrentPlays app → onlyCurrentPlays app'.
Proof.
  unfold playback, onlyCurrentPlays. intros Heq Hinv.
  injection Heq as -> ->. done.
Qed.

Lemma stopCurrentAudio_all_paused (app : App) :
  onlyCurrentPlays app →
  ∀ j a, audios (stopCurrentAudio app) !! j = Some a → paused a = true.
Proof.
  unfold stopCurrentAudio. intros Hinv j a.
  destruct (currentAudio app) as [i|] eqn:Hcur; simpl.
  - rewrite list_lookup_alter. case_decide as Hij.
    + subst j. destruct (audios app !! i); simpl; [|done]. by intros [= <-].
    + intros Hj. destruct (paused a) eqn:Hp; [done|].
      specialize (Hinv j a Hj Hp). congruence.
  - intros Hj. destruct (paused a) eqn:Hp; [done|].
    specialize (Hinv j a Hj Hp). congruence.
Qed.

Lemma newAudio_onlyCurrentPlays (v : Variant) (file : jsstring) (app : App) :
  (∀ j a, audios app !! j = Some a → paused a = true) →
  onlyCurrentPlays (newAudio v file app).
Proof.
  unfold onlyCurrentPlays, playing. simpl. intros Hall j a Hj Hp.
  apply lookup_app_Some in Hj as [Hj|[_ Hj]].
  - specialize (Hall j a Hj). congruence.
  - destruct (j - length (audios app))%nat; simpl in Hj; [|done].
    injection Hj as <-. done.
Qed.

Lemma playAudio_start_onlyCurrentPlays (practice : bool) (app : App) :
  onlyCurrentPlays app → onlyCurrentPlays (playAudio_start practice app).
Proof.
  intros Hinv. unfold playAudio_start. destruct (currentLesson app); [|done].
  eapply onlyCurrentPlays_frame; [|apply newAudio_onlyCurrentPlays,
    (stopCurrentAudio_all_paused app Hinv)]. reflexivity.
Qed.

Lemma playFrenchAudio_start_onlyCurrentPlays (app : App) :
  onlyCurrentPlays app → onlyCurrentPlays (playFrenchAudio_start app).
Proof.
  intros Hinv. unfold playFrenchAudio_start.
  destruct (currentLesson app) as [l|]; [|done].
  destruct (truthy (Lesson.french_audio_file l)); [|done].
  eapply onlyCurrentPlays_frame; [|apply newAudio_onlyCurrentPlays,
    (stopCurrentAudio_all_paused app Hinv)]. reflexivity.
Qed.

(** Altering one element in a way that does not start it. *)
Lemma alter_onlyCurrentPlays (f : Audio → Audio) (i : nat) (app : App) :
  (∀ a, playing (f a) → playing a) →
  onlyCurrentPlays app → onlyCurrentPlays (withAudios (alter f i) app).
Proof.
  unfold onlyCurrentPlays. simpl. intros Hf Hinv j a.
  rewrite list_lookup_alter. case_decide as Hij; [|apply Hinv].
  subst j. destruct (audios app !! i) as [b|] eqn:Hb; simpl; [|done].
  intros [= <-] Hp. apply (Hinv i b Hb), Hf, Hp.
Qed.

Lemma playCurrentAudio_onlyCurrentPlays (app : App) :
  onlyCurrentPlays app → onlyCurrentPlays (playCurrentAudio app).
Proof.
  unfold playCurrentAudio. intros Hinv.
  destruct (currentAudio app) as [i|] eqn:Hcur; [|done].
  intros j a. simpl. rewrite list_lookup_alter.
  case_decide as Hij; [by subst j|apply Hinv].
Qed.

Lemma resumeAfterFetch_onlyCurrentPlays (k : nat) (o : FetchOutcome) (app : App) :
  onlyCurrentPlays app → onlyCurrentPlays (resumeAfterFetch k o app).
Proof.
  intros Hinv. unfold resumeAfterFetch.
  destruct (tasks app !! k) as [t|]; [|done].
  destruct (awaiting t), o; try done.
  - eapply onlyCurrentPlays_frame;
      [|apply (playCurrentAudio_onlyCurrentPlays
                 (withElements (withButton (variant t) (setTextContent "Playing...")) app)),
          (onlyCurrentPlays_frame app); [reflexivity|exact Hinv]].
    reflexivity.
  - eapply onlyCurrentPlays_frame; [|exact Hinv]. by frame.
  - eapply onlyCurrentPlays_frame; [|exact Hinv]. by frame.
Qed.

Lemma resumeAfterPlay_onlyCurrentPlays (k : nat) (o : PlayOutcome) (app : App) :
  onlyCurrentPlays app → onlyCurrentPlays (resumeAfterPlay k o app).
Proof.
  intros Hinv. unfold resumeAfterPlay.
  destruct (tasks app !! k) as [t|]; [|done].
  destruct (awaiting t), o; try done.
  - destruct (currentAudio app) as [i|] eqn:Hcur.
    + eapply onlyCurrentPlays_frame;
        [|apply (alter_onlyCurrentPlays (addEndedListener (variant t)) i app);
            [by intros a|exact Hinv]].
      by frame.
    + eapply onlyCurrentPlays_frame; [|exact Hinv]. unfold complete, playback.
      destruct (fromPractice t); simpl; by rewrite Hcur.
  - eapply onlyCurrentPlays_frame; [|exact Hinv]. by frame.
Qed.

Lemma audioEnded_onlyCurrentPlays (i : nat) (app : App) :
  onlyCurrentPlays app → onlyCurrentPlays (audioEnded i app).
Proof.
  intros Hinv. unfold audioEnded.
  destruct (audios app !! i) as [a|]; [|done]. destruct (paused a); [done|].
  eapply onlyCurrentPlays_frame;
    [apply resetButtons_frame|apply alter_onlyCurrentPlays; [|exact Hinv]].
  by intros b.
Qed.

Lemma audioTimeUpdate_onlyCurrentPlays (i : nat) (t : Z) (app : App) :
  onlyCurrentPlays app → onlyCurrentPlays (audioTimeUpdate i t app).
Proof.
  intros Hinv. unfold audioTimeUpdate.
  destruct (audios app !! i) as [a|]; [|done]. destruct (paused a); [done|].
  apply alter_onlyCurrentPlays; [by intros b|exact Hinv].
Qed.

Lemma handle_onlyCurrentPlays (ev : Event) (app : App) :
  onlyCurrentPlays app → onlyCurrentPlays (handle ev app).
Proof.
  intros Hinv.
  destruct ev; simpl;
    try (by apply playAudio_start_onlyCurrentPlays);
    try (by apply playFrenchAudio_start_onlyCurrentPlays);
    try (by apply resumeAfterFetch_onlyCurrentPlays);
    try (by apply resumeAfterPlay_onlyCurrentPlays);
    try (by apply audioEnded_onlyCurrentPlays);
    try (by apply audioTimeUpdate_onlyCurrentPlays);
    try (apply (onlyCurrentPlays_frame app); [by frame|exact Hinv]).
  - unfold playPracticeAudio_start. simpl. destruct (currentLesson app) eqn:Hc.
    + by apply playAudio_start_onlyCurrentPlays, (onlyCurrentPlays_frame app).
    + by apply (onlyCurrentPlays_frame app).
  - destruct (checkAnswer app) as [app'|] eqn:Hc; [|done].
    eapply onlyCurrentPlays_frame; [by eapply checkAnswer_playback|done].
  - destruct (checkAnswer app) as [app'|] eqn:Hc; [|done].
    eapply onlyCurrentPlays_frame; [by eapply checkAnswer_playback|done].
  - destruct inTextField; [done|].
    destruct key; simpl; try done;
      try (by apply playAudio_start_onlyCurrentPlays);
      (apply (onlyCurrentPlays_frame app); [by frame|exact Hinv]).
Qed.

Lemma run_onlyCurrentPlays (evs : list Event) (app : App) :
  onlyCurrentPlays app → onlyCurrentPlays (run evs app).
Proof.
  intros Hinv. induction evs as [|ev evs IH] using rev_ind; [done|].
  rewrite run_snoc. by apply handle_onlyCurrentPlays.
Qed.

Lemma initialize_onlyCurrentPlays (dom : Elements) (fetched : option LessonData) :
  onlyCurrentPlays (initialize dom fetched).
Proof.
  apply (onlyCurrentPlays_frame (construct dom)).
  - unfold initialize, loadLessons. destruct fetched; by frame.
  - intros j a Hj. done.
Qed.

(** When all playing elements sit at one index, at most one plays. *)
Lemma at_most_one_playing (l : list Audio) :
  (∀ i j a b, l !! i = Some a → l !! j = Some b → playing a → playing b → i = j) →
  (length (filter playing l) ≤ 1)%nat.
Proof.
  induction l as [|a l IH]; intros Huniq; [simpl; lia|].
  rewrite filter_cons. destruct (decide (playing a)) as [Ha|Ha].
  - assert (Hnone : filter playing l = []).
    { destruct (filter playing l) as [|b k] eqn:Hf; [done|].
      assert (Hb : b ∈ filter playing l) by (rewrite Hf; left).
      apply list_elem_of_filter in Hb as [Hpb Hb].
      apply list_elem_of_lookup in Hb as [j Hj].
      specialize (Huniq 0%nat (S j) a b eq_refl Hj Ha Hpb). done. }
    rewrite Hnone. simpl. lia.
  - apply IH. intros i j b c Hi Hj Hb Hc.
    specialize (Huniq (S i) (S j) b c Hi Hj Hb Hc). lia.
Qed.

Lemma onlyCurrentPlays_count (app : App) :
  onlyCurrentPlays app → (activeCount app ≤ 1)%nat.
Proof.
  intros Hinv. apply at_most_one_playing. intros i j a b Hi Hj Ha Hb.
  pose proof (Hinv i a Hi Ha) as Hci. pose proof (Hinv j b Hj Hb) as Hcj. congruence.
Qed.

(** The synchronous part of a play request on a state that holds a
    playback handle. *)
Lemma start_stops_previous (v : Variant) (file : jsstring) (app : App) (i : nat) (a : Audio) :
  currentAudio app = Some i → audios app !! i = Some a →
  let app' := newAudio v file (stopCurrentAudio app) in
  audios app' !! i = Some (pauseAndRewind a)
  ∧ currentAudio app' = Some (length (audios app))
  ∧ audios app' !! length (audios app)
    = Some {| src := file; creator := v; paused := true; currentTime := 0;
              endedListeners := [] |}.
Proof.
  intros Hcur Ha. unfold stopCurrentAudio. rewrite Hcur. simpl.
  rewrite length_alter. split_and!; [|done|].
  - rewrite lookup_app_l by (rewrite length_alter; by eapply lookup_lt_Some).
    by rewrite list_lookup_alter_eq, Ha.
  - rewrite lookup_app_r by (by rewrite length_alter).
    rewrite length_alter, Nat.sub_diag. done.
Qed.

Lemma resume_starts_current (v : Variant) (practice : bool) (app : App) (n : nat) (new : Audio) :
  currentAudio app = Some n → audios app !! n = Some new →
  let app' := resumeAfterFetch (length (tasks app)) ResponseOk (suspend v practice app) in
  audios app' !! n = Some (startPlaying new)
  ∧ (∀ j, j ≠ n → audios app' !! j = audios app !! j)
  ∧ currentAudio app' = Some n.
Proof.
  intros Hcur Hnew. unfold resumeAfterFetch, suspend. simpl.
  rewrite lookup_app_r by done. rewrite Nat.sub_diag. simpl.
  unfold playCurrentAudio. simpl. rewrite Hcur. simpl. split_and!; [|intros j Hj|done].
  - by rewrite list_lookup_alter_eq, Hnew.
  - by rewrite list_lookup_alter_ne.
Qed.

Section StartWhilePlaying.

Variable app : App.
Variable lesson : Lesson.t.
Variable i : nat.
Variable a : Audio.
Hypothesis current : currentLesson app = Some lesson.
Hypothesis held : currentAudio app = Some i.
Hypothesis stored : audios app !! i = Some a.



Lemma playAudio_start_stops (practice : bool) :
  let app' := playAudio_start practice app in
  audios app' !! i = Some (pauseAndRewind a)
  ∧ currentAudio app' = Some (length (audios app))
  ∧ audios app' !! length (audios app)
    = Some (created Primary (Lesson.audio_file lesson))
  ∧ length (audios app') = S (length (audios app)).
Proof using current held stored.
  unfold playAudio_start. rewrite current. simpl.
  destruct (start_stops_previous Primary (audioRoot ++ Lesson.audio_file lesson)
              app i a held stored) as (H1 & H2 & H3).
  split_and!; [exact H1|exact H2|exact H3|].
  unfold stopCurrentAudio. rewrite held. simpl.
  rewrite length_app, length_alter. simpl. lia.
Qed.

Lemma playAudio_resume_plays (practice : bool) :
  let app' :=
    resumeAfterFetch (length (tasks app)) ResponseOk (playAudio_start practice app) in
  audios app' !! i = Some (pauseAndRewind a)
  ∧ audios app' !! length (audios app)
    = Some (startPlaying (created Primary (Lesson.audio_file lesson)))
  ∧ currentAudio app' = Some (length (audios app)).
Proof using current held stored.
  destruct (playAudio_start_stops practice) as (H1 & H2 & H3 & _).
  unfold playAudio_start in *. rewrite current in *. simpl in H1, H2, H3.
  set (app2 := withElements (withButton Primary loadingButton)
                 (newAudio Primary (audioRoot ++ Lesson.audio_file lesson)
                    (stopCurrentAudio app))) in *.
  assert (Ht : length (tasks app) = length (tasks app2)).
  { unfold app2, stopCurrentAudio. rewrite held. done. }
  cbv zeta. rewrite Ht.
  destruct (resume_starts_current Primary practice app2 (length (audios app))
              (created Primary (Lesson.audio_file lesson)) H2 H3) as (R1 & R2 & R3).
  split_and!; [|exact R1|exact R3].
  rewrite R2; [exact H1|]. pose proof (lookup_lt_Some _ _ _ stored). lia.
Qed.

Variable file : jsstring.
Hypothesis french : Lesson.french_audio_file lesson = Some file.
Hypothesis nonempty : file ≠ [].

Lemma playFrenchAudio_start_stops :
  let app' := playFrenchAudio_start app in
  audios app' !! i = Some (pauseAndRewind a)
  ∧ currentAudio app' = Some (length (audios app))
  ∧ audios app' !! length (audios app) = Some (created Secondary file)
  ∧ length (audios app') = S (length (audios app)).
Proof using current held stored french nonempty.
  unfold playFrenchAudio_start. rewrite current, french.
  destruct file as [|c file'] eqn:Hf; [done|]. simpl.
  destruct (start_stops_previous Secondary (audioRoot ++ c :: file')
              app i a held stored) as (H1 & H2 & H3).
  split_and!; [exact H1|exact H2|exact H3|].
  unfold stopCurrentAudio. rewrite held. simpl.
  rewrite length_app, length_alter. simpl. lia.
Qed.

Lemma playFrenchAudio_resume_plays :
  let app' :=
    resumeAfterFetch (length (tasks app)) ResponseOk (playFrenchAudio_start app) in
  audios app' !! i = Some (pauseAndRewind a)
  ∧ audios app' !! length (audios app) = Some (startPlaying (created Secondary file))
  ∧ currentAudio app' = Some (length (audios app)).
Proof using current held stored french nonempty.
  destruct playFrenchAudio_start_stops as (H1 & H2 & H3 & _).
  unfold playFrenchAudio_start in *. rewrite current, french in *.
  destruct file as [|c file'] eqn:Hf; [done|]. simpl in H1, H2, H3.
  set (app2 := withElements (withButton Secondary loadingButton)
                 (newAudio Secondary (audioRoot ++ c :: file')
                    (stopCurrentAudio app))) in *.
  assert (Ht : length (tasks app) = length (tasks app2)).
  { unfold app2, stopCurrentAudio. rewrite held. done. }
  cbv zeta. simpl. fold app2. rewrite Ht.
  destruct (resume_starts_current Secondary false app2 (length (audios app))
              (created Secondary (c :: file')) H2 H3) as (R1 & R2 & R3).
  split_and!; [|exact R1|exact R3].
  rewrite R2; [exact H1|]. pose proof (lookup_lt_Some _ _ _ stored). lia.
Qed.

End StartWhilePlaying.

(** C8.  A play request ([playAudio] or [playFrenchAudio]) made while
    [this.currentAudio] holds an element first pauses and rewinds that
    element, then creates the new element, paused, and makes it the
    current one; when the request, of either kind, resumes after its
    [fetch], it is the new element that starts, the previous one staying
    paused.  Whatever events follow start-up, in whatever order the
    suspended requests resume, only the element that [this.currentAudio]
    refers to can be playing, so never two at once. *)
Theorem one_playback_at_a_time :
  (∀ (app : App) (lesson : Lesson.t) (i : nat) (a : Audio) (practice : bool),
     currentLesson app = Some lesson →
     currentAudio app = Some i →
     audios app !! i = Some a →
     let started := playAudio_start practice app in
     let resumed := resumeAfterFetch (length (tasks app)) ResponseOk started in
     audios started !! i = Some (pauseAndRewind a)
     ∧ paused (pauseAndRewind a) = true
     ∧ currentTime (pauseAndRewind a) = 0
     ∧ currentAudio started = Some (length (audios app))
     ∧ audios started !! length (audios app)
       = Some (created Primary (Lesson.audio_file lesson))
     ∧ audios resumed !! i = Some (pauseAndRewind a)
     ∧ audios resumed !! length (audios app)
       = Some (startPlaying (created Primary (Lesson.audio_file lesson))))
  ∧ (∀ (app : App) (lesson : Lesson.t) (i : nat) (a : Audio) (file : jsstring),
       currentLesson app = Some lesson →
       currentAudio app = Some i →
       audios app !! i = Some a →
       Lesson.french_audio_file lesson = Some file →
       file ≠ [] →
       let started := playFrenchAudio_start app in
       let resumed := resumeAfterFetch (length (tasks app)) ResponseOk started in
       audios started !! i = Some (pauseAndRewind a)
       ∧ currentAudio started = Some (length (audios app))
       ∧ audios started !! length (audios app) = Some (created Secondary file)
       ∧ audios resumed !! i = Some (pauseAndRewind a)
       ∧ audios resumed !! length (audios app)
         = Some (startPlaying (created Secondary file))
       ∧ paused (startPlaying (created Secondary file)) = false
       ∧ currentAudio resumed = Some (length (audios app)))
  ∧ (∀ (dom : Elements) (fetched : option LessonData) (evs : list Event),
       let app := run evs (initialize dom fetched) in
       (activeCount app ≤ 1)%nat
       ∧ (∀ j b, audios app !! j = Some b → playing b → currentAudio app = Some j)
       ∧ (∀ j k b c, audios app !! j = Some b → audios app !! k = Some c →
                     playing b → playing c → j = k)).
Proof.
  split_and!.
  - intros app lesson i a practice Hcur Hh He.
    destruct (playAudio_start_stops app lesson i a Hcur Hh He practice) as (H1 & H2 & H3 & _).
    destruct (playAudio_resume_plays app lesson i a Hcur Hh He practice) as (R1 & R2 & _).
    cbv zeta. split_and!; done.
  - intros app lesson i a file Hcur Hh He Hf Hne.
    destruct (playFrenchAudio_start_stops app lesson i a Hcur Hh He file Hf Hne)
      as (H1 & H2 & H3 & _).
    destruct (playFrenchAudio_resume_plays app lesson i a Hcur Hh He file Hf Hne)
      as (R1 & R2 & R3).
    cbv zeta. split_and!; done.
  - intros dom fetched evs.
    assert (Hinv : onlyCurrentPlays (run evs (initialize dom fetched)))
      by apply run_onlyCurrentPlays, initialize_onlyCurrentPlays.
    cbv zeta. split_and!.
    + by apply onlyCurrentPlays_count.
    + exact Hinv.
    + intros j k b c Hj Hk Hb Hc.
      pose proof (Hinv j b Hj Hb). pose proof (Hinv k c Hk Hc). congruence.
Qed.







Lemma one_playback_at_a_time_witness :
  (paused <$> audios firstPlaying !! 0%nat = Some false
   ∧ paused <$> audios (playAudio_start false firstPlaying) !! 0%nat = Some true
   ∧ currentAudio (playAudio_start false firstPlaying) = Some 1%nat
   ∧ paused <$> audios (run [ClickRepeatAudio; FetchSettled 1 ResponseOk] firstPlaying) !! 1%nat
     = Some false
   ∧ activeCount (run [ClickRepeatAudio; FetchSettled 1 ResponseOk] firstPlaying) = 1%nat)
  ∧ (paused <$> audios (playFrenchAudio_start frenchPlaying) !! 0%nat = Some true
     ∧ currentAudio (playFrenchAudio_start frenchPlaying) = Some 1%nat
     ∧ audios (run [ClickPlayFrench; FetchSettled 1 ResponseOk] frenchPlaying) !! 1%nat
       = Some (startPlaying (created Secondary (units "lesson_07_fr.mp3")))
     ∧ paused <$> audios (run [ClickPlayFrench; FetchSettled 1 ResponseOk] frenchPlaying) !! 0%nat
       = Some true
     ∧ activeCount (run [ClickPlayFrench; FetchSettled 1 ResponseOk] frenchPlaying) = 1%nat).
Proof.
  destruct one_playback_at_a_time as (Hplay & Hfrench & _).
  split.
  - destruct (Hplay firstPlaying
                (Lesson.mk 1
                   [0x6211; 0x53EB; 0x4A; 0x61; 0x6D; 0x65; 0x73; 0xFF0C; 0x6211; 0x662F;
                    0x82F1; 0x56FD; 0x4EBA; 0x3002]
                   [0x57; 0x1D2; 0x20; 0x6A; 0x69; 0xE0; 0x6F; 0x20; 0x4A; 0x61; 0x6D; 0x65;
                    0x73; 0x2C; 0x20; 0x77; 0x1D2; 0x20; 0x73; 0x68; 0xEC; 0x20; 0x59;
                    0x12B; 0x6E; 0x67; 0x67; 0x75; 0xF3; 0x20; 0x72; 0xE9; 0x6E; 0x2E]
                   (units "I called James, I am England person.")
                   (units "My name is James, I am British.")
                   (units "lesson_01.mp3") None None None)
                0%nat
                (startPlaying (created Primary (units "lesson_01.mp3")))
                false)
      as (H1 & _ & _ & H2 & _ & _ & H3);
      [vm_compute; reflexivity | vm_compute; reflexivity | vm_compute; reflexivity |].
    split_and!.
    + vm_compute. reflexivity.
    + rewrite H1. reflexivity.
    + exact H2.
    + vm_compute. reflexivity.
    + vm_compute. reflexivity.
  - destruct (Hfrench frenchPlaying frenchLesson 0%nat
                (startPlaying (created Primary (units "lesson_07.mp3")))
                (units "lesson_07_fr.mp3"))
      as (H1 & H2 & _ & R1 & R2 & _);
      [vm_compute; reflexivity | vm_compute; reflexivity | vm_compute; reflexivity
      | reflexivity | discriminate |].
    assert (Hrun : run [ClickPlayFrench; FetchSettled 1 ResponseOk] frenchPlaying
                   = resumeAfterFetch (length (tasks frenchPlaying)) ResponseOk
                       (playFrenchAudio_start frenchPlaying))
      by (vm_compute; reflexivity).
    split_and!.
    + rewrite H1. reflexivity.
    + exact H2.
    + rewrite Hrun. exact R2.
    + rewrite Hrun, R1. reflexivity.
    + vm_compute. reflexivity.
Defined.

(* ================================================================== *)
(** * Strings: well-formed text and the case tables                    *)
(* ================================================================== *)


(** ** Character classes *)

Ltac class_cases H :=
  unfold isWhiteSpace, isPunctuation in H; simpl existsb in H;
  repeat (apply orb_prop in H; destruct H as [H|H]);
  try discriminate;
  try (apply andb_prop in H; destruct H as [? ?]).

Lemma isPunctuation_cases (c : Z) :
  isPunctuation c = true →
  c ∈ [0x2E; 0x2C; 0xFF0C; 0x3002; 0xFF01; 0xFF1F; 0x21; 0x3F].
Proof.
  intros H. class_cases H; apply Z.eqb_eq in H; subst c; set_solver.
Qed.

Lemma isWhiteSpace_cases (c : Z) :
  isWhiteSpace c = true →
  c ∈ [0x09; 0x0A; 0x0B; 0x0C; 0x0D; 0x20; 0xA0; 0x1680; 0x2028; 0x2029;
       0x202F; 0x205F; 0x3000; 0xFEFF; 0x2000; 0x2001; 0x2002; 0x2003;
       0x2004; 0x2005; 0x2006; 0x2007; 0x2008; 0x2009; 0x200A].
Proof.
  intros H. class_cases H; try (apply Z.eqb_eq in H; subst c; set_solver).
  assert (Hc : c = 0x2000 ∨ c = 0x2001 ∨ c = 0x2002 ∨ c = 0x2003 ∨ c = 0x2004
               ∨ c = 0x2005 ∨ c = 0x2006 ∨ c = 0x2007 ∨ c = 0x2008 ∨ c = 0x2009
               ∨ c = 0x200A) by lia.
  repeat (destruct Hc as [->|Hc]; [set_solver|]). subst c. set_solver.
Qed.



Lemma isScalar_spec (c : Z) :
  isScalar c = true ↔ (0 <= c < 0xD800 ∨ 0xDFFF < c <= 0x10FFFF).
Proof. unfold isScalar, isSurrogate. split; intros H; [|apply andb_true_iff]; lia. Qed.

Lemma isLeadingSurrogate_spec (c : Z) :
  isLeadingSurrogate c = true ↔ 0xD800 <= c <= 0xDBFF.
Proof. unfold isLeadingSurrogate. lia. Qed.

Lemma isTrailingSurrogate_spec (c : Z) :
  isTrailingSurrogate c = true ↔ 0xDC00 <= c <= 0xDFFF.
Proof. unfold isTrailingSurrogate. lia. Qed.

Lemma isPunctuation_scalar (c : Z) :
  isPunctuation c = true → isScalar c = true ∧ c <= 0xFFFF.
Proof.
  intros H%isPunctuation_cases. rewrite isScalar_spec.
  repeat (apply elem_of_cons in H as [->|H]; [lia|]). by apply elem_of_nil in H.
Qed.

Lemma isWhiteSpace_scalar (c : Z) :
  isWhiteSpace c = true → isScalar c = true ∧ c <= 0xFFFF.
Proof.
  intros H%isWhiteSpace_cases. rewrite isScalar_spec.
  repeat (apply elem_of_cons in H as [->|H]; [lia|]). by apply elem_of_nil in H.
Qed.

Lemma isWhiteSpace_not_punctuation (c : Z) :
  isWhiteSpace c = true → isPunctuation c = false.
Proof.
  intros H%isWhiteSpace_cases.
  repeat (apply elem_of_cons in H as [->|H]; [reflexivity|]). by apply elem_of_nil in H.
Qed.

(** Surrogates and supplementary code points are in neither class. *)
Lemma not_scalar_unit_classes (c : Z) :
  ¬ (isScalar c = true ∧ c <= 0xFFFF) →
  isPunctuation c = false ∧ isWhiteSpace c = false.
Proof.
  intros Hc. split.
  - destruct (isPunctuation c) eqn:H; [|done]. by apply isPunctuation_scalar in H.
  - destruct (isWhiteSpace c) eqn:H; [|done]. by apply isWhiteSpace_scalar in H.
Qed.

(** ** The lowercase table *)



Lemma inRun_runPoints (c : Z) (r : Z * Z * Z * Z) :
  0 < r.1.2 → inRun c r = true → c ∈ runPoints r.
Proof.
  destruct r as [[[first last] step] delta]. unfold runPoints, inRun. cbn [fst snd].
  intros Hstep Hin.
  apply andb_prop in Hin as [Hin Hmod]. apply andb_prop in Hin as [Hlo Hhi].
  apply Z.eqb_eq in Hmod. apply Z.leb_le in Hlo, Hhi.
  apply list_elem_of_In, in_map_iff.
  exists (Z.to_nat ((c - first) / step)). split.
  - rewrite Z2Nat.id by (apply Z.div_pos; lia).
    pose proof (Z.div_mod (c - first) step ltac:(lia)). lia.
  - apply in_seq. split; [lia|].
    assert ((c - first) / step <= (last - first) / step) by (apply Z.div_le_mono; lia).
    assert (0 <= (c - first) / step) by (apply Z.div_pos; lia).
    lia.
Qed.

Lemma simpleLowercase_Some (t : list (Z * Z * Z * Z)) (c c' : Z) :
  simpleLowercase t c = Some c' →
  ∃ r, r ∈ t ∧ inRun c r = true ∧ c' = c + r.2.
Proof.
  induction t as [|r t IH]; simpl; [done|].
  destruct (inRun c r) eqn:Hin.
  - intros [= <-]. exists r. split_and!; [left|done|done].
  - intros H. destruct (IH H) as (r' & ? & ? & ?). exists r'. split_and!; [by right|done|done].
Qed.



Lemma isLowerFixed_spec (c : Z) :
  isLowerFixed c = true → c ≠ 0x3A3 ∧ lowerCodePoint c = [c].
Proof.
  unfold isLowerFixed, lowerCodePoint. intros H.
  apply andb_prop in H as [H H3]. apply andb_prop in H as [H1 H2].
  apply negb_true_iff, Z.eqb_neq in H1, H2. split; [done|].
  destruct (Z.eqb_spec c 0x130); [done|].
  by destruct (simpleLowercase lowercaseTable c).
Qed.



Lemma simpleLowercase_checked (good : Z → bool) (t : list (Z * Z * Z * Z)) (c c' : Z) :
  checkTable good t = true → simpleLowercase t c = Some c' → good c' = true.
Proof.
  unfold checkTable. intros Hall (r & Hr & Hin & ->)%simpleLowercase_Some.
  rewrite forallb_forall in Hall. apply list_elem_of_In in Hr.
  specialize (Hall r Hr). apply andb_prop in Hall as [Hstep Hall].
  apply Z.ltb_lt in Hstep. rewrite forallb_forall in Hall.
  apply Hall, list_elem_of_In. by apply inRun_runPoints.
Qed.



Lemma lowercaseTable_checked : checkTable isSettled lowercaseTable = true.
Proof. vm_compute. reflexivity. Qed.

(** Lower-casing a scalar value gives scalar values that stay as they
    are when lower-cased again. *)
Lemma lowerCodePoint_image (c : Z) :
  isScalar c = true → c ≠ 0x3A3 →
  Forall (fun c' => isSettled c' = true) (lowerCodePoint c).
Proof.
  intros Hs Hsigma. unfold lowerCodePoint.
  destruct (Z.eqb_spec c 0x130) as [->|Hdot].
  - repeat constructor.
  - destruct (simpleLowercase lowercaseTable c) as [c'|] eqn:Hl.
    + constructor; [|constructor].
      exact (simpleLowercase_checked isSettled lowercaseTable c c' lowercaseTable_checked Hl).
    + constructor; [|constructor]. unfold isSettled, isLowerFixed. rewrite Hs, Hl.
      simpl. rewrite andb_true_r. apply andb_true_iff.
      split; apply negb_true_iff, Z.eqb_neq; done.
Qed.

Lemma isSettled_spec (c : Z) :
  isSettled c = true → isScalar c = true ∧ c ≠ 0x3A3 ∧ lowerCodePoint c = [c].
Proof.
  unfold isSettled. intros [Hs Hf]%andb_prop. split; [done|].
  by apply isLowerFixed_spec.
Qed.


Lemma whiteSpace_settled (c : Z) : isWhiteSpace c = true → isSettled c = true.
Proof.
  intros H%isWhiteSpace_cases.
  repeat (apply elem_of_cons in H as [->|H]; [vm_compute; reflexivity|]).
  by apply elem_of_nil in H.
Qed.

(** ** Well-formed strings and their code points *)



Lemma isWellFormed_bounded (n : nat) (s : jsstring) :
  (length s ≤ n)%nat → isWellFormed s = true → WellFormed s.
Proof.
  revert s. induction n as [|n IH]; intros [|c s] Hlen Hwf;
    try apply wf_nil; simpl in Hlen; try lia.
  simpl in Hwf. destruct (isLeadingSurrogate c) eqn:Hlead.
  - destruct s as [|l s]; [done|]. apply andb_prop in Hwf as [Hl Hwf].
    apply wf_pair; [done|done|]. apply IH; [simpl in Hlen; lia|done].
  - apply andb_prop in Hwf as [Hc Hwf]. apply andb_prop in Hc as [Hu Ht].
    apply negb_true_iff in Ht. unfold isCodeUnit in Hu.
    unfold isLeadingSurrogate in Hlead. unfold isTrailingSurrogate in Ht.
    apply wf_unit; [apply isScalar_spec; lia|lia|]. apply IH; [lia|done].
Qed.

Lemma isWellFormed_spec (s : jsstring) : isWellFormed s = true → WellFormed s.
Proof. by apply (isWellFormed_bounded (length s)). Qed.

Lemma WellFormed_app (a b : jsstring) : WellFormed a → WellFormed b → WellFormed (a ++ b).
Proof.
  induction 1; intros Hb; simpl; [done|apply wf_unit; auto|apply wf_pair; auto].
Qed.

Lemma decode_unit (c : Z) (s : jsstring) :
  isLeadingSurrogate c = false →
  StringToCodePoints (c :: s) = c :: StringToCodePoints s.
Proof. intros H. destruct s; simpl; by rewrite ?H. Qed.

Lemma decode_pair (h l : Z) (s : jsstring) :
  isLeadingSurrogate h = true → isTrailingSurrogate l = true →
  StringToCodePoints (h :: l :: s)
  = UTF16SurrogatePairToCodePoint h l :: StringToCodePoints s.
Proof. intros Hh Hl. simpl. by rewrite Hh, Hl. Qed.

Lemma scalar_not_leading (c : Z) : isScalar c = true → isLeadingSurrogate c = false.
Proof. rewrite isScalar_spec. unfold isLeadingSurrogate. lia. Qed.

Lemma decode_app (a b : jsstring) :
  WellFormed a →
  StringToCodePoints (a ++ b) = StringToCodePoints a ++ StringToCodePoints b.
Proof.
  induction 1 as [|c s Hc Hu Hs IH|h l s Hh Hl Hs IH]; [done| |].
  - rewrite <- app_comm_cons.
    rewrite (decode_unit c (s ++ b)), (decode_unit c s), IH;
      [done|by apply scalar_not_leading..].
  - rewrite <- !app_comm_cons.
    rewrite (decode_pair h l (s ++ b)), (decode_pair h l s), IH; done.
Qed.

Lemma pair_scalar (h l : Z) :
  isLeadingSurrogate h = true → isTrailingSurrogate l = true →
  isScalar (UTF16SurrogatePairToCodePoint h l) = true
  ∧ 0xFFFF < UTF16SurrogatePairToCodePoint h l.
Proof.
  rewrite isLeadingSurrogate_spec, isTrailingSurrogate_spec, isScalar_spec.
  unfold UTF16SurrogatePairToCodePoint. lia.
Qed.

Lemma decode_scalar (s : jsstring) :
  WellFormed s → Forall (fun c => isScalar c = true) (StringToCodePoints s).
Proof.
  induction 1 as [|c s Hc Hu Hs IH|h l s Hh Hl Hs IH]; [constructor| |].
  - rewrite decode_unit by (by apply scalar_not_leading). by constructor.
  - rewrite decode_pair by done. constructor; [|done]. by apply pair_scalar.
Qed.

(** The code units of a scalar value: itself, or a surrogate pair that
    reads back as it. *)
Lemma encode_cases (c : Z) :
  isScalar c = true →
  (c <= 0xFFFF ∧ UTF16EncodeCodePoint c = [c])
  ∨ ∃ h l,
      isLeadingSurrogate h = true ∧ isTrailingSurrogate l = true
      ∧ UTF16EncodeCodePoint c = [h; l]
      ∧ UTF16SurrogatePairToCodePoint h l = c ∧ 0xFFFF < c.
Proof.
  rewrite isScalar_spec. intros Hc. unfold UTF16EncodeCodePoint.
  destruct (Z.leb_spec c 0xFFFF) as [Hle|Hgt]; [by left|right].
  eexists _, _. split_and!; [| |reflexivity| |done].
  - apply isLeadingSurrogate_spec. Z.div_mod_to_equations. lia.
  - apply isTrailingSurrogate_spec. Z.div_mod_to_equations. lia.
  - unfold UTF16SurrogatePairToCodePoint. Z.div_mod_to_equations. lia.
Qed.

Lemma encode_pair (h l : Z) :
  isLeadingSurrogate h = true → isTrailingSurrogate l = true →
  UTF16EncodeCodePoint (UTF16SurrogatePairToCodePoint h l) = [h; l].
Proof.
  rewrite isLeadingSurrogate_spec, isTrailingSurrogate_spec. intros Hh Hl.
  unfold UTF16EncodeCodePoint, UTF16SurrogatePairToCodePoint.
  destruct (Z.leb_spec ((h - 0xD800) * 0x400 + (l - 0xDC00) + 0x10000) 0xFFFF); [lia|].
  f_equal; [|f_equal]; Z.div_mod_to_equations; lia.
Qed.

Lemma encode_decode (s : jsstring) :
  WellFormed s → CodePointsToString (StringToCodePoints s) = s.
Proof.
  induction 1 as [|c s Hc Hu Hs IH|h l s Hh Hl Hs IH]; [done| |].
  - rewrite decode_unit by (by apply scalar_not_leading).
    unfold CodePointsToString in *. simpl. rewrite IH.
    unfold UTF16EncodeCodePoint. by destruct (Z.leb_spec c 0xFFFF); [|lia].
  - rewrite decode_pair by done. unfold CodePointsToString in *. simpl.
    by rewrite IH, encode_pair.
Qed.

Lemma decode_encode (text : list Z) :
  Forall (fun c => isScalar c = true) text →
  StringToCodePoints (CodePointsToString text) = text.
Proof.
  unfold CodePointsToString.
  induction 1 as [|c text Hc Htext IH]; [done|]. simpl.
  destruct (encode_cases c Hc) as [[Hu ->]|(h & l & Hh & Hl & -> & Hcp & _)].
  - change ([c] ++ flat_map UTF16EncodeCodePoint text)
      with (c :: flat_map UTF16EncodeCodePoint text).
    rewrite decode_unit by (by apply scalar_not_leading). by rewrite IH.
  - change ([h; l] ++ flat_map UTF16EncodeCodePoint text)
      with (h :: l :: flat_map UTF16EncodeCodePoint text).
    rewrite decode_pair by done. by rewrite IH, Hcp.
Qed.

Lemma encode_WellFormed (text : list Z) :
  Forall (fun c => isScalar c = true) text → WellFormed (CodePointsToString text).
Proof.
  unfold CodePointsToString.
  induction 1 as [|c text Hc Htext IH]; [constructor|]. simpl.
  destruct (encode_cases c Hc) as [[Hu ->]|(h & l & Hh & Hl & -> & _)].
  - by apply wf_unit.
  - by apply wf_pair.
Qed.

Lemma encode_app (a b : list Z) :
  CodePointsToString (a ++ b) = CodePointsToString a ++ CodePointsToString b.
Proof. unfold CodePointsToString. apply flat_map_app. Qed.

(** ** The replacements and [trim], code unit by code unit *)

Lemma surrogate_classes (c : Z) :
  isLeadingSurrogate c = true ∨ isTrailingSurrogate c = true →
  isPunctuation c = false ∧ isWhiteSpace c = false.
Proof.
  rewrite isLeadingSurrogate_spec, isTrailingSurrogate_spec. intros Hc.
  apply not_scalar_unit_classes. rewrite isScalar_spec. lia.
Qed.

Lemma supplementary_classes (c : Z) :
  0xFFFF < c → isPunctuation c = false ∧ isWhiteSpace c = false.
Proof. intros Hc. apply not_scalar_unit_classes. lia. Qed.

Lemma removePunctuation_cons (c : Z) (s : jsstring) :
  removePunctuation (c :: s)
  = if isPunctuation c then removePunctuation s else c :: removePunctuation s.
Proof.
  unfold removePunctuation. rewrite filter_cons.
  destruct (isPunctuation c); by case_decide.
Qed.

Lemma removePunctuation_app (a b : jsstring) :
  removePunctuation (a ++ b) = removePunctuation a ++ removePunctuation b.
Proof. apply filter_app. Qed.

Lemma trimEnd_cons_kept (c : Z) (s : jsstring) :
  isWhiteSpace c = false → trimEnd (c :: s) = c :: trimEnd s.
Proof. intros Hc. simpl. rewrite Hc. by destruct (trimEnd s). Qed.

Section Predicates.

Variable P : Z → Prop.

Lemma Forall_removePunctuation (s : jsstring) :
  Forall P s → Forall P (removePunctuation s).
Proof using Type.
  induction 1 as [|c s Hc Hs IH]; [constructor|].
  rewrite removePunctuation_cons. destruct (isPunctuation c); [done|by constructor].
Qed.

Lemma Forall_collapseFrom (inSpaces : bool) (s : jsstring) :
  P 0x20 → Forall P s → Forall P (collapseFrom inSpaces s).
Proof using Type.
  intros Hsp Hs. revert inSpaces.
  induction Hs as [|c s Hc Hs IH]; intros inSpaces; simpl; [constructor|].
  destruct (isWhiteSpace c); [|by constructor].
  destruct inSpaces; simpl; [done|by constructor].
Qed.

Lemma Forall_trimStart (s : jsstring) : Forall P s → Forall P (trimStart s).
Proof using Type.
  induction 1 as [|c s Hc Hs IH]; simpl; [constructor|].
  destruct (isWhiteSpace c); [done|by constructor].
Qed.

Lemma Forall_trimEnd (s : jsstring) : Forall P s → Forall P (trimEnd s).
Proof using Type.
  induction 1 as [|c s Hc Hs IH]; simpl; [constructor|].
  destruct (trimEnd s) as [|k ks].
  - destruct (isWhiteSpace c); [constructor|by constructor].
  - by constructor.
Qed.

Lemma Forall_trim (s : jsstring) : Forall P s → Forall P (trim s).
Proof using Type. intros Hs. by apply Forall_trimEnd, Forall_trimStart. Qed.

End Predicates.

(** The three steps commute with the encoding of scalar values: no
    surrogate is punctuation or white space. *)
Section Encoded.

Implicit Types text : list Z.

Let scalars text := Forall (fun c => isScalar c = true) text.

Lemma encode_cons_unit (c : Z) text :
  c <= 0xFFFF → CodePointsToString (c :: text) = c :: CodePointsToString text.
Proof.
  intros Hc. unfold CodePointsToString. simpl. unfold UTF16EncodeCodePoint.
  by destruct (Z.leb_spec c 0xFFFF); [|lia].
Qed.

Lemma encode_cons_cases (c : Z) :
  isScalar c = true →
  (c <= 0xFFFF
   ∧ ∀ text, CodePointsToString (c :: text) = c :: CodePointsToString text)
  ∨ ∃ h l,
      isWhiteSpace h = false ∧ isWhiteSpace l = false
      ∧ isPunctuation h = false ∧ isPunctuation l = false
      ∧ isWhiteSpace c = false ∧ isPunctuation c = false
      ∧ ∀ text, CodePointsToString (c :: text) = h :: l :: CodePointsToString text.
Proof.
  intros Hc. destruct (encode_cases c Hc) as [[Hu He]|(h & l & Hh & Hl & He & _ & Hsup)].
  - left. split; [done|]. intros text. by apply encode_cons_unit.
  - right. exists h, l.
    destruct (surrogate_classes h (or_introl Hh)) as [? ?].
    destruct (surrogate_classes l (or_intror Hl)) as [? ?].
    destruct (supplementary_classes c Hsup) as [? ?].
    split_and!; try done. intros text. unfold CodePointsToString. simpl. by rewrite He.
Qed.

Lemma removePunctuation_encode text :
  scalars text →
  removePunctuation (CodePointsToString text)
  = CodePointsToString (removePunctuation text).
Proof.
  induction 1 as [|c text Hc Htext IH]; [done|].
  destruct (encode_cons_cases c Hc)
    as [[Hu He]|(h & l & _ & _ & Hh & Hl & _ & Hp & He)].
  - rewrite He, !removePunctuation_cons. destruct (isPunctuation c); [done|].
    by rewrite He, IH.
  - by rewrite He, !removePunctuation_cons, Hh, Hl, Hp, He, IH.
Qed.

Lemma collapseFrom_cons (inSpaces : bool) (c : Z) (s : jsstring) :
  collapseFrom inSpaces (c :: s)
  = if isWhiteSpace c
    then (if inSpaces then collapseFrom true s else 0x20 :: collapseFrom true s)
    else c :: collapseFrom false s.
Proof. simpl. by destruct (isWhiteSpace c), inSpaces. Qed.

Lemma trimStart_cons (c : Z) (s : jsstring) :
  trimStart (c :: s) = if isWhiteSpace c then trimStart s else c :: s.
Proof. reflexivity. Qed.

Lemma collapseFrom_encode (inSpaces : bool) text :
  scalars text →
  collapseFrom inSpaces (CodePointsToString text)
  = CodePointsToString (collapseFrom inSpaces text).
Proof.
  intros Htext. revert inSpaces.
  induction Htext as [|c text Hc Htext IH]; intros inSpaces; [done|].
  destruct (encode_cons_cases c Hc)
    as [[Hu He]|(h & l & Hh & Hl & _ & _ & Hw & _ & He)].
  - rewrite He, !collapseFrom_cons. destruct (isWhiteSpace c).
    + destruct inSpaces; [by rewrite IH|]. by rewrite encode_cons_unit, IH.
    + by rewrite He, IH.
  - by rewrite He, !collapseFrom_cons, Hh, Hl, Hw, He, IH.
Qed.

Lemma trimStart_encode text :
  scalars text →
  trimStart (CodePointsToString text) = CodePointsToString (trimStart text).
Proof.
  induction 1 as [|c text Hc Htext IH]; [done|].
  destruct (encode_cons_cases c Hc)
    as [[Hu He]|(h & l & Hh & Hl & _ & _ & Hw & _ & He)].
  - rewrite He, !trimStart_cons. destruct (isWhiteSpace c); [done|by rewrite He].
  - by rewrite He, !trimStart_cons, Hh, Hw, He.
Qed.

Lemma encode_nil text :
  scalars text → CodePointsToString text = [] → text = [].
Proof.
  intros [|c text' Hc _]; [done|].
  destruct (encode_cons_cases c Hc) as [[_ He]|(h & l & _ & _ & _ & _ & _ & _ & He)];
    by rewrite He.
Qed.

Lemma trimEnd_encode text :
  scalars text →
  trimEnd (CodePointsToString text) = CodePointsToString (trimEnd text).
Proof.
  induction 1 as [|c text Hc Htext IH]; [done|].
  destruct (encode_cons_cases c Hc)
    as [[Hu He]|(h & l & Hh & Hl & _ & _ & Hw & _ & He)].
  - rewrite He. cbn [trimEnd]. rewrite IH.
    destruct (trimEnd text) as [|k ks] eqn:Hk.
    + change (CodePointsToString []) with (@nil Z).
      destruct (isWhiteSpace c); [done|by rewrite He].
    + assert (Hne : CodePointsToString (k :: ks) ≠ []).
      { intros Hnil. apply encode_nil in Hnil; [done|].
        rewrite <- Hk. by apply Forall_trimEnd. }
      rewrite He. by destruct (CodePointsToString (k :: ks)).
  - rewrite He, !trimEnd_cons_kept, IH by done. by rewrite He.
Qed.

Lemma trim_encode text :
  scalars text → trim (CodePointsToString text) = CodePointsToString (trim text).
Proof.
  intros Htext. unfold trim. rewrite trimStart_encode by done.
  apply trimEnd_encode. by apply Forall_trimStart.
Qed.

End Encoded.

(** ** What the three steps leave behind *)





Lemma removePunctuation_clean (s : jsstring) :
  Forall (fun c => isPunctuation c = false) (removePunctuation s).
Proof.
  induction s as [|c s IH]; [constructor|]. rewrite removePunctuation_cons.
  destruct (isPunctuation c) eqn:Hc; [done|by constructor].
Qed.

Lemma removePunctuation_id (s : jsstring) :
  Forall (fun c => isPunctuation c = false) s → removePunctuation s = s.
Proof.
  induction 1 as [|c s Hc Hs IH]; [done|].
  by rewrite removePunctuation_cons, Hc, IH.
Qed.

Lemma collapseFrom_tidy (inSpaces : bool) (s : jsstring) :
  tidyFrom inSpaces (collapseFrom inSpaces s) = true.
Proof.
  revert inSpaces. induction s as [|c s IH]; intros inSpaces; [done|].
  rewrite collapseFrom_cons. destruct (isWhiteSpace c) eqn:Hc.
  - destruct inSpaces; [done|]. simpl. by rewrite IH.
  - simpl. by rewrite Hc.
Qed.

Lemma tidyFrom_id (inSpaces : bool) (s : jsstring) :
  tidyFrom inSpaces s = true → collapseFrom inSpaces s = s.
Proof.
  revert inSpaces. induction s as [|c s IH]; intros inSpaces; [done|].
  rewrite collapseFrom_cons. simpl. destruct (isWhiteSpace c).
  - intros [[Hf Hc]%andb_prop Hs]%andb_prop.
    apply negb_true_iff in Hf. apply Z.eqb_eq in Hc. subst. by rewrite IH.
  - intros Hs. by rewrite IH.
Qed.

Lemma tidyFrom_weaken (inSpaces : bool) (s : jsstring) :
  tidyFrom inSpaces s = true → tidyFrom false s = true.
Proof.
  destruct s as [|c s]; [done|]. simpl. destruct (isWhiteSpace c); [|done].
  intros [[_ Hc]%andb_prop Hs]%andb_prop. by rewrite Hc, Hs.
Qed.

Lemma tidyFrom_trimStart (inSpaces : bool) (s : jsstring) :
  tidyFrom inSpaces s = true → tidyFrom false (trimStart s) = true.
Proof.
  revert inSpaces. induction s as [|c s IH]; intros inSpaces; [done|].
  rewrite trimStart_cons. simpl. destruct (isWhiteSpace c) eqn:Hc.
  - intros [_ Hs]%andb_prop. by apply (IH true).
  - intros Hs. simpl. by rewrite Hc.
Qed.

Lemma tidyFrom_trimEnd (inSpaces : bool) (s : jsstring) :
  tidyFrom inSpaces s = true → tidyFrom inSpaces (trimEnd s) = true.
Proof.
  revert inSpaces. induction s as [|c s IH]; intros inSpaces; [done|].
  cbn [trimEnd tidyFrom]. destruct (isWhiteSpace c) eqn:Hc.
  - intros [Hfc Hs]%andb_prop. apply IH in Hs.
    destruct (trimEnd s) as [|k ks]; [done|].
    cbn [tidyFrom] in *. by rewrite Hc, Hfc, Hs.
  - intros Hs. apply IH in Hs.
    destruct (trimEnd s) as [|k ks]; cbn [tidyFrom] in *; by rewrite Hc.
Qed.

Lemma trimStart_clean (s : jsstring) : startsClean (trimStart s).
Proof.
  induction s as [|c s IH]; [done|]. rewrite trimStart_cons.
  by destruct (isWhiteSpace c) eqn:Hc.
Qed.

Lemma startsClean_trimStart (s : jsstring) : startsClean s → trimStart s = s.
Proof. destruct s as [|c s]; [done|]. simpl. by intros ->. Qed.

Lemma startsClean_trimEnd (s : jsstring) : startsClean s → startsClean (trimEnd s).
Proof.
  destruct s as [|c s]; [done|]. simpl. intros Hc. rewrite Hc.
  by destruct (trimEnd s).
Qed.

Lemma trimEnd_idempotent (s : jsstring) : trimEnd (trimEnd s) = trimEnd s.
Proof.
  induction s as [|c s IH]; [done|]. cbn [trimEnd].
  destruct (trimEnd s) as [|k ks] eqn:Hk.
  - destruct (isWhiteSpace c) eqn:Hc; [done|]. simpl. by rewrite Hc.
  - cbn [trimEnd] in *. rewrite IH. done.
Qed.

Lemma trim_idempotent (s : jsstring) : trim (trim s) = trim s.
Proof.
  unfold trim. rewrite (startsClean_trimStart (trimEnd (trimStart s))).
  - apply trimEnd_idempotent.
  - apply startsClean_trimEnd, trimStart_clean.
Qed.



Lemma tidy_idempotent (s : jsstring) : tidy (tidy s) = tidy s.
Proof.
  unfold tidy at 1.
  assert (Hp : removePunctuation (tidy s) = tidy s).
  { apply removePunctuation_id. unfold tidy.
    apply Forall_trim, Forall_collapseFrom; [done|apply removePunctuation_clean]. }
  assert (Hc : collapseSpaces (tidy s) = tidy s).
  { apply tidyFrom_id. unfold tidy, trim.
    apply tidyFrom_trimEnd, (tidyFrom_trimStart false), collapseFrom_tidy. }
  rewrite Hp, Hc. unfold tidy. apply trim_idempotent.
Qed.

Lemma tidy_encode (text : list Z) :
  Forall (fun c => isScalar c = true) text →
  tidy (CodePointsToString text) = CodePointsToString (tidy text).
Proof.
  intros Htext. unfold tidy, collapseSpaces.
  rewrite removePunctuation_encode by done.
  rewrite collapseFrom_encode by (by apply Forall_removePunctuation).
  apply trim_encode.
  by apply Forall_collapseFrom, Forall_removePunctuation.
Qed.

Lemma Forall_tidy (P : Z → Prop) (s : jsstring) :
  P 0x20 → Forall P s → Forall P (tidy s).
Proof.
  intros Hsp Hs. unfold tidy, collapseSpaces.
  by apply Forall_trim, Forall_collapseFrom, Forall_removePunctuation.
Qed.

(** ** Lower-casing *)

Lemma settled_scalar (text : list Z) :
  Forall (fun c => isSettled c = true) text → Forall (fun c => isScalar c = true) text.
Proof.
  intros Htext. eapply Forall_impl; [exact Htext|].
  intros c Hc. by apply isSettled_spec in Hc as [? _].
Qed.

Lemma toLowercase_settled (before text : list Z) :
  Forall (fun c => isScalar c = true) text →
  Forall (fun c => isSettled c = true) (toLowercase before text).
Proof.
  intros Htext. revert before.
  induction Htext as [|c text Hc Htext IH]; intros before; [constructor|].
  cbn [toLowercase]. apply Forall_app. split; [|apply IH].
  destruct (Z.eqb_spec c 0x3A3) as [->|Hsigma].
  - destruct (isFinalSigma before text); by repeat constructor.
  - by apply lowerCodePoint_image.
Qed.

Lemma toLowercase_fixed (before text : list Z) :
  Forall (fun c => isSettled c = true) text → toLowercase before text = text.
Proof.
  intros Htext. revert before.
  induction Htext as [|c text Hc Htext IH]; intros before; [done|].
  cbn [toLowercase]. apply isSettled_spec in Hc as (_ & Hsigma & ->).
  destruct (Z.eqb_spec c 0x3A3); [done|]. by rewrite IH.
Qed.

Lemma toLowercase_plain (before text : list Z) :
  0x3A3 ∉ text → toLowercase before text = flat_map lowerCodePoint text.
Proof.
  revert before. induction text as [|c text IH]; intros before Hsigma; [done|].
  cbn [toLowercase flat_map]. apply not_elem_of_cons in Hsigma as [Hc Hsigma].
  destruct (Z.eqb_spec c 0x3A3); [done|]. by rewrite IH.
Qed.

(** The normal form of a well-formed string is the encoding of settled
    code points, tidied. *)
Lemma normalize_WellFormed (s : jsstring) :
  WellFormed s →
  ∃ text,
    Forall (fun c => isSettled c = true) text
    ∧ normalize s = CodePointsToString (tidy text).
Proof.
  intros Hs. exists (toLowercase [] (StringToCodePoints s)).
  assert (Hl : Forall (fun c => isSettled c = true)
                 (toLowercase [] (StringToCodePoints s)))
    by (by apply toLowercase_settled, decode_scalar).
  split; [done|]. unfold normalize, toLowerCase.
  apply tidy_encode. by apply settled_scalar.
Qed.

Lemma normalize_settled (text : list Z) :
  Forall (fun c => isSettled c = true) text →
  normalize (CodePointsToString text) = CodePointsToString (tidy text).
Proof.
  intros Htext. unfold normalize, toLowerCase.
  rewrite decode_encode by (by apply settled_scalar).
  rewrite toLowercase_fixed by done.
  apply tidy_encode. by apply settled_scalar.
Qed.

(** ** Plain text: well formed and without capital sigma

    On such text [toLowerCase] works code point by code point, whatever
    stands around. *)







Lemma isPlain_spec (s : jsstring) : isPlain s = true → Plain s.
Proof.
  unfold isPlain. intros [Hwf Hs]%andb_prop. split; [by apply isWellFormed_spec|].
  rewrite forallb_forall in Hs. intros Hin%list_elem_of_In.
  specialize (Hs _ Hin). by rewrite Z.eqb_refl in Hs.
Qed.

Lemma Plain_app (a b : jsstring) : Plain a → Plain b → Plain (a ++ b).
Proof.
  intros [Ha Hsa] [Hb Hsb]. split; [by apply WellFormed_app|].
  intros [?|?]%elem_of_app; done.
Qed.

Lemma decode_without_sigma (s : jsstring) :
  WellFormed s → 0x3A3 ∉ s → 0x3A3 ∉ StringToCodePoints s.
Proof.
  induction 1 as [|c s Hc Hu Hs IH|h l s Hh Hl Hs IH]; [done| |].
  - rewrite decode_unit by (by apply scalar_not_leading).
    intros [Hne Hin]%not_elem_of_cons. apply not_elem_of_cons. auto.
  - rewrite decode_pair by done.
    intros [_ [_ Hin]%not_elem_of_cons]%not_elem_of_cons.
    apply not_elem_of_cons. split; [|auto].
    destruct (pair_scalar h l Hh Hl) as [_ Hsup]. lia.
Qed.

Lemma toLowerCase_plain (s : jsstring) :
  WellFormed s → 0x3A3 ∉ s →
  toLowerCase s = CodePointsToString (flat_map lowerCodePoint (StringToCodePoints s)).
Proof.
  intros Hwf Hs. unfold toLowerCase.
  by rewrite toLowercase_plain by (by apply decode_without_sigma).
Qed.

Lemma toLowerCase_app (a b : jsstring) :
  Plain a → Plain b → toLowerCase (a ++ b) = toLowerCase a ++ toLowerCase b.
Proof.
  intros [Ha Hsa] [Hb Hsb].
  rewrite (toLowerCase_plain (a ++ b)) by (by apply Plain_app).
  rewrite (toLowerCase_plain a), (toLowerCase_plain b) by done.
  by rewrite decode_app, flat_map_app, encode_app.
Qed.

Lemma toLowerCase_settled_unit (c : Z) :
  isSettled c = true → c <= 0xFFFF → toLowerCase [c] = [c].
Proof.
  intros (Hs & Hsigma & Hl)%isSettled_spec Hu. unfold toLowerCase. simpl.
  destruct (Z.eqb_spec c 0x3A3); [done|]. rewrite Hl. simpl.
  unfold CodePointsToString, UTF16EncodeCodePoint. simpl.
  by destruct (Z.leb_spec c 0xFFFF); [|lia].
Qed.

Lemma unit_Plain (c : Z) : isSettled c = true → c <= 0xFFFF → Plain [c].
Proof.
  intros (Hs & Hsigma & _)%isSettled_spec Hu. split.
  - apply wf_unit; [done|done|apply wf_nil].
  - intros Hin%list_elem_of_singleton. congruence.
Qed.

Lemma allWhiteSpace_Plain (w : jsstring) : allWhiteSpace w → Plain w.
Proof.
  induction 1 as [|c w Hc Hw IH]; [split; [apply wf_nil|apply not_elem_of_nil]|].
  apply (Plain_app [c] w); [|done].
  apply unit_Plain; [by apply whiteSpace_settled|by apply isWhiteSpace_scalar].
Qed.

Lemma toLowerCase_allWhiteSpace (w : jsstring) : allWhiteSpace w → toLowerCase w = w.
Proof.
  induction 1 as [|c w Hc Hw IH]; [done|].
  assert (Hu := proj2 (isWhiteSpace_scalar c Hc)).
  assert (Hs := whiteSpace_settled c Hc).
  change (c :: w) with ([c] ++ w).
  rewrite toLowerCase_app, IH, toLowerCase_settled_unit;
    [done|done|done|by apply unit_Plain|by apply allWhiteSpace_Plain].
Qed.

Lemma removePunctuation_allWhiteSpace (w : jsstring) :
  allWhiteSpace w → removePunctuation w = w.
Proof.
  intros Hw. apply removePunctuation_id. eapply Forall_impl; [exact Hw|].
  intros c. apply isWhiteSpace_not_punctuation.
Qed.

(** ** Runs of white space *)

Lemma collapseFrom_app (inSpaces : bool) (a b : jsstring) :
  collapseFrom inSpaces (a ++ b)
  = collapseFrom inSpaces a
    ++ collapseFrom (fold_left (fun _ c => isWhiteSpace c) a inSpaces) b.
Proof.
  revert inSpaces. induction a as [|c a IH]; intros inSpaces; [done|].
  rewrite <- app_comm_cons, !collapseFrom_cons. simpl fold_left.
  destruct (isWhiteSpace c); [destruct inSpaces|]; by rewrite IH.
Qed.

Lemma collapseFrom_inside_run (w b : jsstring) :
  allWhiteSpace w → collapseFrom true (w ++ b) = collapseFrom true b.
Proof.
  induction 1 as [|c w Hc Hw IH]; [done|].
  by rewrite <- app_comm_cons, collapseFrom_cons, Hc.
Qed.

Lemma collapseFrom_run (inSpaces : bool) (w b : jsstring) :
  allWhiteSpace w → w ≠ [] →
  collapseFrom inSpaces (w ++ b)
  = (if inSpaces then [] else [0x20]) ++ collapseFrom true b.
Proof.
  intros Hw Hne. destruct Hw as [|c w Hc Hw]; [done|].
  rewrite <- app_comm_cons, collapseFrom_cons, Hc, collapseFrom_inside_run by done.
  by destruct inSpaces.
Qed.

Lemma collapseFrom_allWhiteSpace (inSpaces : bool) (w : jsstring) :
  allWhiteSpace w → allWhiteSpace (collapseFrom inSpaces w).
Proof.
  intros Hw. apply Forall_collapseFrom; [reflexivity|done].
Qed.

Lemma trimStart_collapseFrom (inSpaces : bool) (s : jsstring) :
  trimStart (collapseFrom inSpaces s) = trimStart (collapseFrom true s).
Proof.
  destruct s as [|c s]; [done|]. rewrite !collapseFrom_cons.
  destruct (isWhiteSpace c) eqn:Hc; [|done]. by destruct inSpaces.
Qed.

Lemma trimStart_allWhiteSpace (w s : jsstring) :
  allWhiteSpace w → trimStart (w ++ s) = trimStart s.
Proof.
  induction 1 as [|c w Hc Hw IH]; [done|].
  by rewrite <- app_comm_cons, trimStart_cons, Hc.
Qed.

Lemma trimEnd_allWhiteSpace (s w : jsstring) :
  allWhiteSpace w → trimEnd (s ++ w) = trimEnd s.
Proof.
  intros Hw. induction s as [|c s IH].
  - simpl. induction Hw as [|c w Hc Hw IH]; [done|].
    cbn [trimEnd]. by rewrite IH, Hc.
  - rewrite <- app_comm_cons. cbn [trimEnd]. by rewrite IH.
Qed.

Lemma trim_allWhiteSpace_end (s w : jsstring) :
  allWhiteSpace w → trim (s ++ w) = trim s.
Proof.
  intros Hw. unfold trim. induction s as [|c s IH].
  - simpl. rewrite <- (app_nil_r w), trimStart_allWhiteSpace by done. done.
  - rewrite <- app_comm_cons, !trimStart_cons.
    destruct (isWhiteSpace c); [done|].
    by rewrite app_comm_cons, trimEnd_allWhiteSpace.
Qed.

(** White space around the text does not reach the tidied form, and a
    run inside it counts as one. *)
Lemma tidy_surrounded (w s w' : jsstring) :
  allWhiteSpace w → allWhiteSpace w' → tidy (w ++ s ++ w') = tidy s.
Proof.
  intros Hw Hw'. unfold tidy, collapseSpaces.
  rewrite !removePunctuation_app.
  rewrite (removePunctuation_allWhiteSpace w), (removePunctuation_allWhiteSpace w') by done.
  set (t := removePunctuation s).
  rewrite app_assoc, collapseFrom_app.
  rewrite trim_allWhiteSpace_end by (by apply collapseFrom_allWhiteSpace).
  unfold trim. f_equal.
  destruct (decide (w = [])) as [->|Hne]; [done|].
  rewrite collapseFrom_run by done.
  change ([0x20] ++ collapseFrom true t) with (0x20 :: collapseFrom true t).
  rewrite trimStart_cons. simpl isWhiteSpace. cbv iota.
  by rewrite (trimStart_collapseFrom false t).
Qed.



(* ================================================================== *)
(** * Answer comparison: [normalize] and [compareAnswers]              *)
(* ================================================================== *)



Lemma compareAnswers_spec (u c : jsstring) :
  compareAnswers u c = true ↔ normalize u = normalize c.
Proof. unfold compareAnswers. apply bool_decide_eq_true. Qed.



Ltac plain :=
  repeat first
    [ assumption
    | apply Plain_app
    | apply allWhiteSpace_Plain; assumption
    | apply unit_Plain; assumption ].

Section PlainText.

Variables a b : jsstring.
Hypothesis plain_a : Plain a.
Hypothesis plain_b : Plain b.




Lemma normalize_surrounded (w w' : jsstring) :
  allWhiteSpace w → allWhiteSpace w' →
  normalize (w ++ a ++ w') = normalize a.
Proof using plain_a.
  intros Hw Hw'. unfold normalize.
  rewrite !toLowerCase_app by plain.
  rewrite (toLowerCase_allWhiteSpace w), (toLowerCase_allWhiteSpace w') by done.
  by apply tidy_surrounded.
Qed.

End PlainText.



Example compareAnswers_with_diacritics :
  compareAnswers lowerCasePinyin (Lesson.pinyin secondSample) = true.
Proof. vm_compute. reflexivity. Qed.

(** Every lesson's own fields compare equal to themselves. *)
Lemma compareAnswers_reflexive (s : jsstring) : compareAnswers s s = true.
Proof. by apply compareAnswers_spec. Qed.




(** C9, where it fails.  U+D801 "." U+DC00 normalizes to the surrogate
    pair of U+10400, a capital letter that the first pass saw as two
    unpaired surrogates; normalizing again lower-cases it to U+10428. *)
Lemma normalize_not_idempotent :
  normalize [0xD801; 0x2E; 0xDC00] = [0xD801; 0xDC00]
  ∧ normalize (normalize [0xD801; 0x2E; 0xDC00]) = [0xD801; 0xDC28]
  ∧ normalize (normalize [0xD801; 0x2E; 0xDC00]) ≠ normalize [0xD801; 0x2E; 0xDC00].
Proof. vm_compute. split_and!; [reflexivity|reflexivity|discriminate]. Qed.

(** C9, amended.  On every well-formed string, one without unpaired
    surrogates, [normalize] is idempotent. *)
Theorem normalize_idempotent (x : jsstring) :
  isWellFormed x = true → normalize (normalize x) = normalize x.
Proof.
  intros Hx%isWellFormed_spec.
  (* the first pass leaves the encoding of settled code points, tidied *)
  destruct (normalize_WellFormed x Hx) as (text & Htext & Hnorm).
  rewrite Hnorm.
  (* on which the second pass changes no letter ... *)
  rewrite normalize_settled by (by apply Forall_tidy).
  (* ... and finds nothing more to remove *)
  by rewrite tidy_idempotent.
Qed.

Lemma normalize_idempotent_witness :
  normalize (normalize (Lesson.pinyin secondSample))
  = normalize (Lesson.pinyin secondSample).
Proof. apply normalize_idempotent. vm_compute. reflexivity. Defined.

(* ================================================================== *)
(** * Further properties: what every handler keeps                     *)
(* ================================================================== *)

(** ** The shapes of the two handlers that branch *)

Lemma checkAnswer_cases (app app' : App) :
  checkAnswer app = Some app' →
  app' = showNotification "Please enter your answer first." app
  ∨ ∃ lesson,
      currentLesson app = Some lesson
      ∧ (app' = updateStats (addCompleted (Lesson.id lesson) (showCorrectFeedback app))
         ∨ app' = showIncorrectFeedback (typedAnswer app) (expectedAnswer app lesson) app).
Proof.
  unfold checkAnswer, typedAnswer. intros H.
  destruct (trim _) as [|c u]; [left; by simplify_eq|].
  destruct (currentLesson app) as [lesson|]; [|done].
  right. exists lesson. split; [done|].
  destruct (compareAnswers _ _); simplify_eq; auto.
Qed.

(** The ['ended'] listeners change the two play buttons and nothing else. *)
Lemma resetButtons_buttons (vs : list Variant) (app : App) :
  ∃ b1 b2,
    fold_left (fun acc v => withElements (withButton v (idleButton v)) acc) vs app
    = withElements (fun e =>
        withButton Secondary (fun _ => b2) (withButton Primary (fun _ => b1) e)) app.
Proof.
  revert app. induction vs as [|v vs IH]; intros app.
  - exists (playAudioBtn (elements app)), (playFrenchBtn (elements app)).
    by destruct app as [? ? ? ? ? ? ? []].
  - simpl. destruct (IH (withElements (withButton v (idleButton v)) app)) as (b1 & b2 & ->).
    destruct v; eexists _, _; reflexivity.
Qed.

Lemma audioEnded_cases (i : nat) (app : App) :
  audioEnded i app = app
  ∨ ∃ b1 b2,
      audioEnded i app
      = withElements (fun e =>
          withButton Secondary (fun _ => b2) (withButton Primary (fun _ => b1) e))
          (withAudios (alter endPlaying i) app).
Proof.
  unfold audioEnded. destruct (audios app !! i) as [a|]; [|by left].
  destruct (paused a); [by left|right]. apply resetButtons_buttons.
Qed.

(** ** The lesson under the cursor *)

Lemma onLesson_frame (app app' : App) :
  position app' = position app → onLesson app → onLesson app'.
Proof.
  unfold position, onLesson, indexInRange, lastIndex. intros Heq Hin.
  injection Heq as -> -> ->. done.
Qed.

Lemma showLesson_onLesson (index : Z) (app : App) :
  onLesson app → onLesson (showLesson index app).
Proof.
  intros Hon. destruct (decide (0 <= index <= lastIndex app)) as [Hin|Hout].
  - destruct (showLesson_inside app index Hin) as (l & Hl & Hi & Hc & Hls & _).
    unfold onLesson, indexInRange, lastIndex in *. by rewrite Hi, Hc, Hls, Hl.
  - by rewrite showLesson_outside.
Qed.

Ltac nav_cases lem :=
  first
    [ apply lem
    | unfold previousLesson; case_match; [apply lem|]
    | unfold nextLesson; case_match; [apply lem|] ].

Lemma handle_onLesson (ev : Event) (app : App) :
  onLesson app → onLesson (handle ev app).
Proof.
  intros Hin.
  destruct ev; simpl;
    try (apply (onLesson_frame app); [by frame|exact Hin]).
  - unfold previousLesson. case_match; [by apply showLesson_onLesson|done].
  - unfold nextLesson. case_match; [by apply showLesson_onLesson|done].
  - by apply showLesson_onLesson.
  - destruct (checkAnswer app) as [app'|] eqn:Hc; [|done].
    apply (onLesson_frame app); [|done].
    apply checkAnswer_cases in Hc as [->|(l & _ & [->| ->])]; done.
  - unfold nextPracticeLesson. case_match.
    + apply (onLesson_frame (showLesson (currentLessonIndex app + 1) app)); [done|].
      by apply showLesson_onLesson.
    + by apply (onLesson_frame app).
  - destruct (checkAnswer app) as [app'|] eqn:Hc; [|done].
    apply (onLesson_frame app); [|done].
    apply checkAnswer_cases in Hc as [->|(l & _ & [->| ->])]; done.
  - destruct inTextField; [done|].
    destruct key; simpl; try done;
      try (apply (onLesson_frame app); [by frame|exact Hin]).
    + unfold previousLesson. case_match; [by apply showLesson_onLesson|done].
    + unfold nextLesson. case_match; [by apply showLesson_onLesson|done].
  - apply (onLesson_frame app); [|done].
    destruct (audioEnded_cases element app) as [->|(b1 & b2 & ->)]; done.
Qed.

Lemma initialize_onLesson (dom : Elements) (fetched : option LessonData) :
  lessons (initialize dom fetched) ≠ [] → onLesson (initialize dom fetched).
Proof.
  intros Hne. unfold initialize in *. simpl in Hne. rewrite showLesson_lessons in Hne.
  apply (onLesson_frame (showLesson 0 (loadLessons fetched (construct dom)))); [done|].
  set (app := loadLessons fetched (construct dom)) in *.
  destruct (showLesson_inside app 0) as (l & Hl & Hi & Hc & Hls & _).
  - unfold lastIndex. destruct (lessons app); [done|]. simpl length. lia.
  - unfold onLesson, indexInRange, lastIndex. rewrite Hi, Hc, Hls. split; [|done].
    destruct (lessons app); [done|]. simpl length. lia.
Qed.

Lemma run_onLesson (evs : list Event) (app : App) :
  onLesson app → onLesson (run evs app).
Proof.
  intros Hinv. induction evs as [|ev evs IH] using rev_ind; [done|].
  rewrite run_snoc. by apply handle_onLesson.
Qed.

(** X1.  Once lessons are loaded, in every state the controller reaches
    the cursor is inside the lessons and the current lesson is the one
    stored there.  So [checkAnswer()] and [showAnswer()], which read the
    current lesson, never throw in such a state. *)
Theorem current_lesson_at_cursor
    (dom : Elements) (fetched : option LessonData) (evs : list Event) :
  lessons (initialize dom fetched) ≠ [] →
  let app := run evs (initialize dom fetched) in
  0 <= currentLessonIndex app <= lastIndex app
  ∧ currentLesson app = lessons app !! Z.to_nat (currentLessonIndex app)
  ∧ is_Some (currentLesson app)
  ∧ is_Some (checkAnswer app)
  ∧ is_Some (showAnswer app).
Proof.
  intros Hne app.
  assert (Hon : onLesson app) by (by apply run_onLesson, initialize_onLesson).
  clearbody app. destruct Hon as [Hin Hcur].
  assert (Hsome : is_Some (currentLesson app)).
  { rewrite Hcur. apply lookup_lt_is_Some_2. unfold indexInRange, lastIndex in Hin. lia. }
  split; [exact Hin|]. split_and!; try done.
  - destruct Hsome as [l Hl]. unfold checkAnswer. rewrite Hl.
    destruct (trim _); [done|]. by destruct (compareAnswers _ _).
  - destruct Hsome as [l Hl]. unfold showAnswer. by rewrite Hl.
Qed.

Lemma current_lesson_at_cursor_witness :
  let app := run [ClickNextLesson; ClickStartPractice; ClickShowAnswer] sampleApp in
  0 <= currentLessonIndex app <= lastIndex app
  ∧ currentLesson app = lessons app !! Z.to_nat (currentLessonIndex app)
  ∧ is_Some (currentLesson app)
  ∧ is_Some (checkAnswer app)
  ∧ is_Some (showAnswer app).
Proof.
  apply (current_lesson_at_cursor emptyPage None
           [ClickNextLesson; ClickStartPractice; ClickShowAnswer]).
  vm_compute. discriminate.
Defined.

(** ** The study view follows the current lesson *)

Lemma studyInStep_frame (app app' : App) :
  (position app', study (elements app')) = (position app, study (elements app)) →
  studyInStep app → studyInStep app'.
Proof.
  unfold studyInStep, studyShows, position, lastIndex. intros Heq Hin.
  injection Heq as -> -> -> ->. done.
Qed.

Lemma showLesson_studyInStep (index : Z) (app : App) :
  studyInStep app → studyInStep (showLesson index app).
Proof.
  intros Hin. unfold showLesson.
  destruct ((index <? 0) || (index >=? Z.of_nat (length (lessons app)))); [done|].
  destruct (lessons app !! Z.to_nat index) as [l|]; [|done].
  intros lesson [= <-]. unfold studyShows, lastIndex. simpl. split_and!; try done.
  by destruct (Lesson.french l) as [[|]|].
Qed.

Lemma handle_studyInStep (ev : Event) (app : App) :
  studyInStep app → studyInStep (handle ev app).
Proof.
  intros Hin.
  destruct ev; simpl;
    try (apply (studyInStep_frame app); [by frame|exact Hin]).
  - unfold previousLesson. case_match; [by apply showLesson_studyInStep|done].
  - unfold nextLesson. case_match; [by apply showLesson_studyInStep|done].
  - by apply showLesson_studyInStep.
  - destruct (checkAnswer app) as [app'|] eqn:Hc; [|done].
    apply (studyInStep_frame app); [|done].
    apply checkAnswer_cases in Hc as [->|(l & _ & [->| ->])]; done.
  - unfold nextPracticeLesson. case_match.
    + apply (studyInStep_frame (showLesson (currentLessonIndex app + 1) app)); [done|].
      by apply showLesson_studyInStep.
    + by apply (studyInStep_frame app).
  - destruct (checkAnswer app) as [app'|] eqn:Hc; [|done].
    apply (studyInStep_frame app); [|done].
    apply checkAnswer_cases in Hc as [->|(l & _ & [->| ->])]; done.
  - destruct inTextField; [done|].
    destruct key; simpl; try done;
      try (apply (studyInStep_frame app); [by frame|exact Hin]).
    + unfold previousLesson. case_match; [by apply showLesson_studyInStep|done].
    + unfold nextLesson. case_match; [by apply showLesson_studyInStep|done].
  - apply (studyInStep_frame app); [|done].
    destruct (audioEnded_cases element app) as [->|(b1 & b2 & ->)]; done.
Qed.

Lemma initialize_studyInStep (dom : Elements) (fetched : option LessonData) :
  studyInStep (initialize dom fetched).
Proof.
  unfold initialize.
  apply (studyInStep_frame (showLesson 0 (loadLessons fetched (construct dom)))); [done|].
  apply showLesson_studyInStep. intros lesson. by destruct fetched.
Qed.

(** X2.  In every state the controller reaches, the study view shows the
    current lesson: its texts and id, the French row exactly when the
    lesson has French text, "Lesson i+1 of n" and the selector on the
    cursor; the previous button is disabled exactly on the first lesson
    and the next button exactly on the last. *)
Theorem study_view_in_step
    (dom : Elements) (fetched : option LessonData) (evs : list Event)
    (lesson : Lesson.t) :
  let app := run evs (initialize dom fetched) in
  currentLesson app = Some lesson →
  studyShows app lesson
  ∧ (prevLessonBtn_disabled (study (elements app)) = true ↔ currentLessonIndex app = 0)
  ∧ (nextLessonBtn_disabled (study (elements app)) = true
     ↔ currentLessonIndex app = lastIndex app).
Proof.
  intros app Hcur.
  assert (Hstep : studyInStep app).
  { unfold app. clear. induction evs as [|ev evs IH] using rev_ind.
    - apply initialize_studyInStep.
    - rewrite run_snoc. by apply handle_studyInStep. }
  specialize (Hstep lesson Hcur). split; [done|].
  destruct Hstep as (_ & _ & _ & _ & _ & _ & _ & _ & _ & _ & -> & ->).
  split; apply Z.eqb_eq.
Qed.

Lemma study_view_in_step_witness :
  let app := run [ClickNextLesson; KeyDown false ArrowRight] sampleApp in
  studyShows app
    (Lesson.mk 3
       [0x6211; 0x4ECE; 0x4ECA; 0x5E74; 0x4E8C; 0x6708; 0x5F00; 0x59CB; 0x5728;
        0x4E0A; 0x6D77; 0x5DE5; 0x4F5C; 0x3002]
       [0x57; 0x1D2; 0x20; 0x63; 0xF3; 0x6E; 0x67; 0x20; 0x6A; 0x12B; 0x6E;
        0x6E; 0x69; 0xE1; 0x6E; 0x20; 0xE8; 0x72; 0x79; 0x75; 0xE8; 0x20; 0x6B;
        0x101; 0x69; 0x73; 0x68; 0x1D0; 0x20; 0x7A; 0xE0; 0x69; 0x20; 0x53;
        0x68; 0xE0; 0x6E; 0x67; 0x68; 0x1CE; 0x69; 0x20; 0x67; 0x14D; 0x6E;
        0x67; 0x7A; 0x75; 0xF2; 0x2E]
       (units "I from this-year February start at Shanghai work.")
       (units "I started working in Shanghai in February this year.")
       (units "lesson_03.mp3") None None None)
  ∧ (prevLessonBtn_disabled (study (elements app)) = true ↔ currentLessonIndex app = 0)
  ∧ (nextLessonBtn_disabled (study (elements app)) = true
     ↔ currentLessonIndex app = lastIndex app).
Proof.
  apply (study_view_in_step emptyPage None [ClickNextLesson; KeyDown false ArrowRight]).
  vm_compute. reflexivity.
Defined.

(** ** One view at a time *)

Lemma handle_modes (ev : Event) (app : App) :
  modes (handle ev app) = modes app
  ∨ modes (handle ev app) = (true, false)
  ∨ modes (handle ev app) = (false, true).
Proof.
  destruct ev; simpl; try (left; by frame); auto.
  - destruct (checkAnswer app) as [app'|] eqn:Hc; [|by left].
    left. apply checkAnswer_cases in Hc as [->|(l & _ & [->| ->])]; done.
  - unfold nextPracticeLesson. case_match; [left; by frame|right; right; done].
  - destruct (checkAnswer app) as [app'|] eqn:Hc; [|by left].
    left. apply checkAnswer_cases in Hc as [->|(l & _ & [->| ->])]; done.
  - destruct inTextField; [by left|]. destruct key; simpl; auto; left; by frame.
  - left. destruct (audioEnded_cases element app) as [->|(b1 & b2 & ->)]; done.
Qed.

Lemma run_modes (dom : Elements) (fetched : option LessonData) (evs : list Event) :
  studyMode_hidden dom = negb (practiceMode_hidden dom) →
  (modes (run evs (initialize dom fetched))).1
  = negb (modes (run evs (initialize dom fetched))).2.
Proof.
  intros Hdom. induction evs as [|ev evs IH] using rev_ind.
  - assert (H : modes (initialize dom fetched) = modes (construct dom))
      by (unfold initialize, loadLessons; destruct fetched; by frame).
    unfold run. simpl fold_left. by rewrite H.
  - rewrite run_snoc.
    destruct (handle_modes ev (run evs (initialize dom fetched))) as [H|[H|H]];
      by rewrite H.
Qed.

(** X3.  If the page starts with exactly one of the study view and the
    practice view hidden, then exactly one is hidden in every state the
    controller reaches.  Starting practice always ends with the practice
    view shown and the study view hidden, going back with the reverse. *)
Theorem one_view_at_a_time
    (dom : Elements) (fetched : option LessonData) (evs : list Event) :
  studyMode_hidden dom = negb (practiceMode_hidden dom) →
  let app := run evs (initialize dom fetched) in
  studyMode_hidden (elements app) = negb (practiceMode_hidden (elements app))
  ∧ modes (handle ClickStartPractice app) = (true, false)
  ∧ modes (handle ClickBackToStudy app) = (false, true).
Proof.
  intros Hdom app. split; [|done].
  exact (run_modes dom fetched evs Hdom).
Qed.

Lemma one_view_at_a_time_witness :
  let app := run [ClickStartPractice; ClickNextPractice; KeyDown false KeyP] sampleApp in
  studyMode_hidden (elements app) = negb (practiceMode_hidden (elements app))
  ∧ modes (handle ClickStartPractice app) = (true, false)
  ∧ modes (handle ClickBackToStudy app) = (false, true).
Proof.
  apply (one_view_at_a_time emptyPage None
           [ClickStartPractice; ClickNextPractice; KeyDown false KeyP]).
  reflexivity.
Defined.

(** ** The lessons never change *)

Lemma handle_store (ev : Event) (app : App) :
  (lessons (handle ev app), totalCount (elements (handle ev app)))
  = (lessons app, totalCount (elements app)).
Proof.
  destruct ev; simpl; try (by frame).
  - destruct (checkAnswer app) as [app'|] eqn:Hc; [|done].
    apply checkAnswer_cases in Hc as [->|(l & _ & [->| ->])]; done.
  - destruct (checkAnswer app) as [app'|] eqn:Hc; [|done].
    apply checkAnswer_cases in Hc as [->|(l & _ & [->| ->])]; done.
  - destruct (audioEnded_cases element app) as [->|(b1 & b2 & ->)]; done.
Qed.

(** X4.  The lessons are fixed at start-up: the fetched list, or the three
    sample lessons when the fetch fails, and no event changes them.  The
    total shown is [total_lessons] of the fetched document, whatever the
    number of lessons it holds, or 3 for the sample lessons, and no event
    changes it either. *)
Theorem lessons_fixed_at_startup
    (dom : Elements) (fetched : option LessonData) (evs : list Event) :
  let app := run evs (initialize dom fetched) in
  lessons app
  = match fetched with Some data => data_lessons data | None => getSampleLessons end
  ∧ totalCount (elements app)
    = match fetched with Some data => total_lessons data | None => 3 end.
Proof.
  cbv zeta. induction evs as [|ev evs IH] using rev_ind.
  - split; [apply initialize_lessons|].
    unfold initialize. destruct fetched; by frame.
  - rewrite run_snoc.
    pose proof (handle_store ev (run evs (initialize dom fetched))) as H.
    injection H as -> ->. done.
Qed.

(** ** An empty list of lessons *)

Lemma handle_idleOn (dom : Elements) (ev : Event) (app : App) :
  idleOn dom app → idleOn dom (handle ev app).
Proof.
  intros (Hpos & Hpb & Ht & Hpr & Hst).
  destruct app as [ls idx cur comp ca au ts el].
  unfold idleOn, position, playback, progress in *. simpl in *. simplify_eq.
  destruct ev; simpl; unfold_handlers; unfold checkAnswer; simpl;
    repeat case_match; simplify_eq/=; try done.
  all: split_and!; try done; by f_equal.
Qed.

Lemma initialize_idleOn (dom : Elements) (total : Z) :
  idleOn dom (initialize dom (Some {| total_lessons := total; data_lessons := [] |})).
Proof. done. Qed.

Lemma run_idleOn (dom : Elements) (total : Z) (evs : list Event) :
  idleOn dom
    (run evs (initialize dom (Some {| total_lessons := total; data_lessons := [] |}))).
Proof.
  induction evs as [|ev evs IH] using rev_ind.
  - apply initialize_idleOn.
  - rewrite run_snoc. by apply handle_idleOn.
Qed.

Lemma runSession_snoc (evs : list SessionEvent) (ev : SessionEvent) (s : Session) :
  runSession (evs ++ [ev]) s = handleSession ev (runSession evs s).
Proof. unfold runSession. by rewrite fold_left_app. Qed.

Lemma handleSession_idleOn (dom : Elements) (ev : SessionEvent) (s : Session) :
  idleOn dom (controller s) →
  idleOn dom (controller (handleSession ev s))
  ∧ indexIsNaN (handleSession ev s) = indexIsNaN s || isNaNSelection ev.
Proof.
  intros Hidle. destruct s as [app nan]. simpl in *.
  destruct ev as [ev|]; simpl.
  - destruct nan; simpl; [|split; [by apply handle_idleOn|done]].
    assert (Hother : idleOn dom (handle ev app)) by by apply handle_idleOn.
    assert (Hls : lessons app = []).
    { destruct Hidle as (Hpos & _). unfold position in Hpos. congruence. }
    destruct ev; simpl; try done.
    + rewrite Hls. simpl length.
      destruct ((selectedIndex <? 0) || (selectedIndex >=? Z.of_nat 0)) eqn:Hguard;
        [done|exfalso].
      apply orb_false_iff in Hguard as [Hneg Hpos]. apply Z.ltb_ge in Hneg.
      rewrite Z.geb_leb in Hpos. apply Z.leb_gt in Hpos. simpl in Hpos. lia.
    + by destruct inTextField, key.
  - split; [|by rewrite orb_true_r].
    destruct Hidle as (Hpos & Hpb & Ht & Hpr & Hst).
    unfold idleOn, position, playback, progress in *. simpl.
    split_and!; try done. congruence.
Qed.

(** X5.  When the fetched document holds no lessons, no event ever
    selects a lesson or writes the study view, also when the user chooses
    an option of the page whose value is not a number, which
    [showLesson] takes as NaN.  There is no current lesson, nothing is
    completed and no audio element is created; the index is 0 until such
    a choice, and NaN from then on.  In every such state [showAnswer()]
    throws, [checkAnswer()] throws unless the answer box is blank, and the
    play button does nothing. *)
Theorem empty_lesson_list (dom : Elements) (total : Z) (evs : list SessionEvent) :
  let s :=
    runSession evs
      (startSession dom (Some {| total_lessons := total; data_lessons := [] |})) in
  let app := controller s in
  lessons app = []
  ∧ lessonIndex s = (if existsb isNaNSelection evs then NaN else Number 0)
  ∧ currentLesson app = None
  ∧ study (elements app) = study dom
  ∧ completedLessons app = ∅
  ∧ completedCount (elements app) = 0%nat
  ∧ audios app = []
  ∧ showAnswer app = None
  ∧ (typedAnswer app ≠ [] → checkAnswer app = None)
  ∧ handleSession (Numbered ClickPlayAudio) s = s
  ∧ handleSession (Numbered ClickNextLesson) s = s
  ∧ handleSession (Numbered ClickPrevLesson) s = s.
Proof.
  intros s app.
  assert (Hinv : idleOn dom (controller s)
                 ∧ indexIsNaN s = existsb isNaNSelection evs).
  { unfold s. induction evs as [|ev evs [IH1 IH2]] using rev_ind.
    - split; [apply initialize_idleOn|done].
    - rewrite runSession_snoc, existsb_app. simpl. rewrite orb_false_r.
      destruct (handleSession_idleOn dom ev _ IH1) as [H1 H2].
      split; [done|]. by rewrite H2, IH2. }
  unfold app in *. clearbody s. clear app.
  destruct Hinv as [(Hpos & Hpb & Ht & Hpr & Hst) Hnan].
  unfold lessonIndex. rewrite <- Hnan. clear Hnan.
  destruct s as [[ls idx cur comp ca au ts el] nan].
  unfold position, playback, progress in *. simpl in *. simplify_eq.
  split_and!; try done; try (by destruct nan).
  unfold checkAnswer, typedAnswer. simpl. intros Hne. by destruct (trim _).
Qed.

Lemma empty_lesson_list_witness :
  let s :=
    runSession
      [Numbered (InputAnswer [0x61]); ChangeLessonSelectNaN;
       Numbered (ChangeLessonSelect 0); Numbered ClickPlayFrench]
      (startSession emptyPage (Some {| total_lessons := 0; data_lessons := [] |})) in
  lessons (controller s) = []
  ∧ lessonIndex s = NaN
  ∧ currentLesson (controller s) = None
  ∧ study (elements (controller s)) = study emptyPage
  ∧ completedLessons (controller s) = ∅
  ∧ audios (controller s) = []
  ∧ showAnswer (controller s) = None
  ∧ checkAnswer (controller s) = None.
Proof.
  destruct (empty_lesson_list emptyPage 0
              [Numbered (InputAnswer [0x61]); ChangeLessonSelectNaN;
               Numbered (ChangeLessonSelect 0); Numbered ClickPlayFrench])
    as (H1 & H2 & H3 & H4 & H5 & _ & H7 & H8 & H9 & _).
  cbv zeta.
  split_and!; [exact H1|exact H2|exact H3|exact H4|exact H5|exact H7|exact H8|].
  apply H9. vm_compute. discriminate.
Defined.

(** ** Completed lessons are lessons *)

Lemma fromLessons_frame (app app' : App) :
  (lessons app', currentLesson app', completedLessons app')
  = (lessons app, currentLesson app, completedLessons app) →
  fromLessons app → fromLessons app'.
Proof. unfold fromLessons. intros Heq Hin. injection Heq as -> -> ->. done. Qed.

Lemma showLesson_fromLessons (index : Z) (app : App) :
  fromLessons app → fromLessons (showLesson index app).
Proof.
  intros [Hcur Hdone]. unfold showLesson.
  destruct ((index <? 0) || (index >=? Z.of_nat (length (lessons app)))); [done|].
  destruct (lessons app !! Z.to_nat index) as [l|] eqn:Hl; [|done].
  split; [|done]. simpl. intros lesson [= <-]. by eapply list_elem_of_lookup_2.
Qed.

Lemma checkAnswer_fromLessons (app app' : App) :
  checkAnswer app = Some app' → fromLessons app → fromLessons app'.
Proof.
  intros Hc Hin. apply checkAnswer_cases in Hc as [->|(l & Hl & [->| ->])];
    try (by apply (fromLessons_frame app)).
  destruct Hin as [Hcur Hdone]. split; [done|]. simpl.
  intros id [->%elem_of_singleton|Hid]%elem_of_union; [|by apply Hdone].
  exists l. split; [by apply Hcur|done].
Qed.

Lemma handle_fromLessons (ev : Event) (app : App) :
  fromLessons app → fromLessons (handle ev app).
Proof.
  intros Hin.
  destruct ev; simpl;
    try (apply (fromLessons_frame app);
           [unfold_handlers; repeat case_match; simpl; congruence|exact Hin]).
  - unfold previousLesson. case_match; [by apply showLesson_fromLessons|done].
  - unfold nextLesson. case_match; [by apply showLesson_fromLessons|done].
  - by apply showLesson_fromLessons.
  - destruct (checkAnswer app) as [app'|] eqn:Hc; [|done].
    by eapply checkAnswer_fromLessons.
  - unfold nextPracticeLesson. case_match.
    + apply (fromLessons_frame (showLesson (currentLessonIndex app + 1) app)); [done|].
      by apply showLesson_fromLessons.
    + by apply (fromLessons_frame app).
  - destruct (checkAnswer app) as [app'|] eqn:Hc; [|done].
    by eapply checkAnswer_fromLessons.
  - destruct inTextField; [done|].
    destruct key; simpl; try done;
      try (apply (fromLessons_frame app);
           [unfold_handlers; repeat case_match; simpl; congruence|exact Hin]).
    + unfold previousLesson. case_match; [by apply showLesson_fromLessons|done].
    + unfold nextLesson. case_match; [by apply showLesson_fromLessons|done].
  - apply (fromLessons_frame app); [|done].
    destruct (audioEnded_cases element app) as [->|(b1 & b2 & ->)]; done.
Qed.

Lemma run_fromLessons (dom : Elements) (fetched : option LessonData) (evs : list Event) :
  fromLessons (run evs (initialize dom fetched)).
Proof.
  induction evs as [|ev evs IH] using rev_ind.
  - unfold initialize.
    apply (fromLessons_frame (showLesson 0 (loadLessons fetched (construct dom)))); [done|].
    apply showLesson_fromLessons. split.
    + intros lesson. by destruct fetched.
    + intros id. destruct fetched; simpl; set_solver.
  - rewrite run_snoc. by apply handle_fromLessons.
Qed.

Lemma size_list_to_set_le (l : list Z) :
  (size (list_to_set l : gset Z) ≤ length l)%nat.
Proof.
  induction l as [|x l IH].
  - done.
  - change (list_to_set (x :: l) : gset Z) with ({[x]} ∪ list_to_set l : gset Z).
    rewrite size_union_alt, size_singleton. simpl length.
    assert (Hsub : (list_to_set l ∖ {[x]} : gset Z) ⊆ list_to_set l)
      by apply subseteq_difference_l, reflexivity.
    apply subseteq_size in Hsub. lia.
Qed.

(** X6.  In every state the controller reaches, each completed id is the
    id of one of the lessons, so the completed counter never exceeds the
    number of lessons. *)
Theorem completed_are_lessons
    (dom : Elements) (fetched : option LessonData) (evs : list Event) :
  let app := run evs (initialize dom fetched) in
  (∀ id, id ∈ completedLessons app →
     ∃ lesson, lesson ∈ lessons app ∧ Lesson.id lesson = id)
  ∧ (completedCount (elements app) ≤ length (lessons app))%nat.
Proof.
  intros app. destruct (run_fromLessons dom fetched evs) as [_ Hdone].
  fold app in Hdone. split; [exact Hdone|].
  assert (Hcount : counterMatches app) by apply run_counter, initialize_counter.
  rewrite Hcount, <- (length_fmap Lesson.id (lessons app)).
  etrans; [|apply size_list_to_set_le].
  apply subseteq_size. intros id Hid. apply elem_of_list_to_set.
  destruct (Hdone id Hid) as (l & Hl & <-). by apply list_elem_of_fmap_2.
Qed.

(** ** The audio elements *)










(** ** A playback that fails *)



(** ** Lessons without a French recording *)

Lemma onlyPrimary_alter (f : Audio → Audio) (i : nat) (l : list Audio) :
  (∀ a, primaryElement a → primaryElement (f a)) →
  Forall primaryElement l → Forall primaryElement (alter f i l).
Proof. intros Hf Hl. apply Forall_alter; [done|]. intros a _. apply Hf. Qed.

Lemma stopCurrentAudio_primary (app : App) :
  Forall primaryElement (audios app) →
  Forall primaryElement (audios (stopCurrentAudio app))
  ∧ tasks (stopCurrentAudio app) = tasks app
  ∧ elements (stopCurrentAudio app) = elements app.
Proof.
  unfold stopCurrentAudio. destruct (currentAudio app); [|done].
  intros Hl. split; [|done]. by apply onlyPrimary_alter.
Qed.

Lemma playAudio_start_onlyPrimary (practice : bool) (app : App) :
  onlyPrimary app →
  onlyPrimary (playAudio_start practice app)
  ∧ playFrenchBtn (elements (playAudio_start practice app)) = playFrenchBtn (elements app).
Proof.
  intros [Hau Hts]. unfold playAudio_start.
  destruct (currentLesson app) as [lesson|]; [|done].
  destruct (stopCurrentAudio_primary app Hau) as (Hau' & Hts' & Hel').
  unfold onlyPrimary. simpl. rewrite Hts', Hel'. split_and!; [| |done].
  - apply Forall_app. split; [done|]. apply Forall_singleton. by split.
  - apply Forall_app. split; [done|]. by apply Forall_singleton.
Qed.

Lemma resetButtons_primary (vs : list Variant) (app : App) :
  Forall (fun v => v = Primary) vs →
  let app' :=
    fold_left (fun acc v => withElements (withButton v (idleButton v)) acc) vs app in
  audios app' = audios app ∧ tasks app' = tasks app
  ∧ playFrenchBtn (elements app') = playFrenchBtn (elements app).
Proof.
  revert app. induction vs as [|v vs IH]; intros app Hvs; [done|].
  apply Forall_cons in Hvs as [-> Hvs]. simpl.
  destruct (IH (withElements (withButton Primary (idleButton Primary)) app) Hvs)
    as (-> & -> & ->). done.
Qed.

Ltac same_french H :=
  match goal with |- onlyPrimary ?app' ∧ _ => apply (H app') end.

Ltac primary_step :=
  unfold complete, catchError, handleAudioError, showNotification,
    playCurrentAudio, onlyPrimary;
  repeat case_match; simpl; split_and!; try done;
  try (by apply Forall_delete);
  try (apply Forall_alter; [done|]; done);
  try (apply onlyPrimary_alter; [|done]; intros ? [? ?]; split; [done|]; simpl;
       try done; apply Forall_app; split; [done|]; by apply Forall_singleton).

Lemma handle_onlyPrimary (ev : Event) (app : App) :
  fromLessons app → withoutFrenchAudio (lessons app) → onlyPrimary app →
  onlyPrimary (handle ev app)
  ∧ playFrenchBtn (elements (handle ev app)) = playFrenchBtn (elements app).
Proof.
  intros [Hcur _] Hno Hinv.
  assert (Hframe : ∀ app',
            (audios app', tasks app', playFrenchBtn (elements app'))
            = (audios app, tasks app, playFrenchBtn (elements app)) →
            onlyPrimary app' ∧ playFrenchBtn (elements app') = playFrenchBtn (elements app)).
  { intros app' Heq. unfold onlyPrimary. injection Heq as -> -> ->. done. }
  destruct ev; simpl;
    try (by apply playAudio_start_onlyPrimary);
    try (same_french Hframe; by frame).
  - unfold playFrenchAudio_start. destruct (currentLesson app) as [lesson|] eqn:Hl;
      [|by same_french Hframe].
    unfold withoutFrenchAudio in Hno. rewrite Forall_forall in Hno.
    rewrite (Hno lesson (Hcur lesson eq_refl)). by same_french Hframe.
  - unfold playPracticeAudio_start.
    set (app1 := withElements _ app).
    change (currentLesson app1) with (currentLesson app).
    destruct (currentLesson app); [|by same_french Hframe].
    by apply (playAudio_start_onlyPrimary true app1).
  - destruct (checkAnswer app) as [app'|] eqn:Hc; [|done].
    same_french Hframe. apply checkAnswer_cases in Hc as [->|(l & _ & [->| ->])]; done.
  - destruct (checkAnswer app) as [app'|] eqn:Hc; [|done].
    same_french Hframe. apply checkAnswer_cases in Hc as [->|(l & _ & [->| ->])]; done.
  - destruct inTextField; [done|].
    destruct key; simpl; try done; try (same_french Hframe; by frame).
    by apply playAudio_start_onlyPrimary.
  - destruct Hinv as [Hau Hts]. unfold resumeAfterFetch.
    destruct (tasks app !! task) as [t|] eqn:Ht; [|done].
    assert (Hv : variant t = Primary).
    { rewrite Forall_forall in Hts. by apply Hts, (list_elem_of_lookup_2 _ task). }
    rewrite Hv.
    destruct (awaiting t), outcome; try done; primary_step.
  - destruct Hinv as [Hau Hts]. unfold resumeAfterPlay.
    destruct (tasks app !! task) as [t|] eqn:Ht; [|done].
    assert (Hv : variant t = Primary).
    { rewrite Forall_forall in Hts. by apply Hts, (list_elem_of_lookup_2 _ task). }
    rewrite Hv.
    destruct (awaiting t), outcome; try done; primary_step.
  - destruct Hinv as [Hau Hts]. unfold audioEnded.
    destruct (audios app !! element) as [a|] eqn:Ha; [|done].
    destruct (paused a); [done|].
    assert (Hvs : Forall (fun v => v = Primary) (endedListeners a)).
    { rewrite Forall_forall in Hau. by apply (Hau a), (list_elem_of_lookup_2 _ element). }
    destruct (resetButtons_primary (endedListeners a)
                (withAudios (alter endPlaying element) app) Hvs) as (Heq1 & Heq2 & Heq3).
    unfold onlyPrimary. rewrite Heq1, Heq2, Heq3. simpl. split_and!; [|done|done].
    apply onlyPrimary_alter; [|done]. by intros b [? ?].
  - destruct Hinv as [Hau Hts]. unfold audioTimeUpdate.
    destruct (audios app !! element) as [a|] eqn:Ha; [|done].
    destruct (paused a); [done|]. unfold onlyPrimary. simpl. split_and!; [|done|done].
    apply onlyPrimary_alter; [|done]. by intros b [? ?].
Qed.

Lemma run_studyInStep (dom : Elements) (fetched : option LessonData) (evs : list Event) :
  studyInStep (run evs (initialize dom fetched)).
Proof.
  induction evs as [|ev evs IH] using rev_ind.
  - apply initialize_studyInStep.
  - rewrite run_snoc. by apply handle_studyInStep.
Qed.

(** Without a current lesson the study view is the one of the page. *)
Lemma study_untouched (dom : Elements) (fetched : option LessonData) (evs : list Event) :
  currentLesson (run evs (initialize dom fetched)) = None →
  study (elements (run evs (initialize dom fetched))) = study dom.
Proof.
  intros Hnone.
  destruct (decide (lessons (initialize dom fetched) = [])) as [Hempty|Hne].
  - rewrite initialize_lessons in Hempty.
    destruct fetched as [[total ls]|]; [|done]. simpl in Hempty. subst ls.
    by destruct (run_idleOn dom total evs) as (_ & _ & _ & _ & Hst).
  - destruct (run_onLesson evs _ (initialize_onLesson dom fetched Hne)) as [Hin Hcur].
    rewrite Hcur in Hnone. apply lookup_ge_None in Hnone.
    unfold indexInRange, lastIndex in Hin. lia.
Qed.

(** X9.  When no lesson has a French recording, as with the sample
    lessons, French playback never happens: in every state the controller
    reaches, "Play French" only shows the notification that no French
    audio is available, and every audio element, ['ended'] listener and
    suspended call is one of [playAudio].  The French play button keeps the
    label, the enabled state and the playing mark that the page gave it;
    whether it is displayed is another matter, which [showLesson] decides
    by the French translation of the current lesson, not by the
    recording: it is displayed exactly when the current lesson has a
    translation, and as on the page while there is no current lesson. *)
Theorem no_french_recordings
    (dom : Elements) (fetched : option LessonData) (evs : list Event) :
  withoutFrenchAudio (lessons (initialize dom fetched)) →
  let app := run evs (initialize dom fetched) in
  handle ClickPlayFrench app
  = showNotification "No French audio available for this lesson." app
  ∧ onlyPrimary app
  ∧ playFrenchBtn (elements app) = playFrenchBtn dom
  ∧ (∀ lesson, currentLesson app = Some lesson →
       playFrenchBtn_shown (study (elements app)) = truthy (Lesson.french lesson))
  ∧ (currentLesson app = None →
       playFrenchBtn_shown (study (elements app)) = playFrenchBtn_shown (study dom)).
Proof.
  intros Hno app.
  assert (Hinv : withoutFrenchAudio (lessons app) ∧ onlyPrimary app
                 ∧ playFrenchBtn (elements app) = playFrenchBtn dom).
  { unfold app. induction evs as [|ev evs IH] using rev_ind.
    - split_and!; [done| |].
      + assert (Hp : (audios (initialize dom fetched), tasks (initialize dom fetched))
                     = ([], []))
          by (unfold initialize, loadLessons; destruct fetched; by frame).
        injection Hp as Ha Ht. unfold onlyPrimary, run. simpl. rewrite Ha, Ht.
        split; constructor.
      + unfold initialize, loadLessons; destruct fetched; by frame.
    - rewrite run_snoc. destruct IH as (Hno' & Hpr & Hbtn).
      destruct (handle_onlyPrimary ev (run evs (initialize dom fetched))
                  (run_fromLessons dom fetched evs) Hno' Hpr) as [Hpr' Hbtn'].
      split_and!; [|done|congruence].
      pose proof (handle_store ev (run evs (initialize dom fetched))) as Hst.
      injection Hst as -> _. done. }
  destruct Hinv as (Hno' & Hpr & Hbtn). split_and!; [|done|done| |].
  - simpl. unfold playFrenchAudio_start.
    destruct (currentLesson app) as [lesson|] eqn:Hl; [|done].
    destruct (run_fromLessons dom fetched evs) as [Hcur _]. fold app in Hcur.
    unfold withoutFrenchAudio in Hno'. rewrite Forall_forall in Hno'.
    by rewrite (Hno' lesson (Hcur lesson Hl)).
  - intros lesson Hl.
    destruct (run_studyInStep dom fetched evs lesson Hl)
      as (_ & _ & _ & _ & _ & _ & Hshown & _).
    exact Hshown.
  - intros Hnone. unfold app in *. by rewrite study_untouched.
Qed.

Lemma no_french_recordings_witness :
  let app := run [ClickPlayAudio; ClickPlayFrench; FetchSettled 0 ResponseOk] sampleApp in
  handle ClickPlayFrench app
  = showNotification "No French audio available for this lesson." app
  ∧ onlyPrimary app
  ∧ playFrenchBtn (elements app) = playFrenchBtn emptyPage
  ∧ playFrenchBtn_shown (study (elements app)) = false.
Proof.
  destruct (no_french_recordings emptyPage None
              [ClickPlayAudio; ClickPlayFrench; FetchSettled 0 ResponseOk])
    as (Hclick & Hprimary & Hbtn & Hshown & _).
  - vm_compute. repeat constructor.
  - cbv zeta. split_and!; [exact Hclick|exact Hprimary|exact Hbtn|].
    etrans; [apply (Hshown (default secondSample (head getSampleLessons)))|];
      vm_compute; reflexivity.
Defined.

(** ** The lesson selector *)

Lemma chinesePreview_length (chinese : jsstring) :
  (length (chinesePreview chinese) ≤ 23)%nat.
Proof.
  unfold chinesePreview. destruct (20 <? length chinese)%nat eqn:Hlen.
  - rewrite length_app, length_take.
    change (length (units "...")) with 3%nat. lia.
  - apply Nat.ltb_ge in Hlen. lia.
Qed.

(** X10.  With lessons loaded, [populateLessonSelector] replaces the
    options of the drop-down by one option per lesson, in the order of the
    lessons: option [i] has value [i] and shows the id of lesson [i] with
    its Chinese text, cut after 20 code units and followed by "..." when
    it is longer.  Choosing an option makes the lesson it shows the current
    one. *)
Theorem lesson_selector_options
    (app : App) (options : list SelectOption) (i : nat) (lesson : Lesson.t) :
  lessons app !! i = Some lesson →
  let options' := populateLessonSelector (lessons app) options in
  length options' = length (lessons app)
  ∧ ∃ o,
      options' !! i = Some o
      ∧ option_value o = Z.of_nat i
      ∧ option_id o = Lesson.id lesson
      ∧ (length (option_preview o) ≤ 23)%nat
      ∧ take 20 (option_preview o) = take 20 (Lesson.chinese lesson)
      ∧ ((length (Lesson.chinese lesson) ≤ 20)%nat →
         option_preview o = Lesson.chinese lesson)
      ∧ ((20 < length (Lesson.chinese lesson))%nat →
         option_preview o = take 20 (Lesson.chinese lesson) ++ units "...")
      ∧ currentLesson (handle (ChangeLessonSelect (option_value o)) app) = Some lesson
      ∧ lessonSelect_value (study (elements (handle (ChangeLessonSelect (option_value o)) app)))
        = option_value o.
Proof.
  intros Hi options'.
  assert (Hopts : options'
    = imap (fun index lesson =>
        {| option_value := Z.of_nat index;
           option_source :=
             if truthy (Lesson.source lesson) then Lesson.source lesson else None;
           option_id := Lesson.id lesson;
           option_preview := chinesePreview (Lesson.chinese lesson) |}) (lessons app)).
  { unfold options', populateLessonSelector. by destruct (lessons app). }
  rewrite Hopts. split; [by rewrite length_imap|].
  eexists. split; [by rewrite list_lookup_imap, Hi|]. simpl.
  assert (Hin : 0 <= Z.of_nat i <= lastIndex app).
  { apply lookup_lt_Some in Hi. unfold lastIndex. lia. }
  destruct (showLesson_inside app (Z.of_nat i) Hin) as (l & Hl & _ & Hc & _).
  rewrite Nat2Z.id, Hi in Hl. injection Hl as <-.
  split_and!; try done.
  - apply chinesePreview_length.
  - unfold chinesePreview. destruct (20 <? length (Lesson.chinese lesson))%nat eqn:Hlen; [|done].
    apply Nat.ltb_lt in Hlen. rewrite take_app_le by (rewrite length_take; lia).
    by rewrite take_take.
  - intros Hlen. unfold chinesePreview.
    destruct (20 <? length (Lesson.chinese lesson))%nat eqn:Hlt; [|done].
    apply Nat.ltb_lt in Hlt. lia.
  - intros Hlen. unfold chinesePreview.
    destruct (20 <? length (Lesson.chinese lesson))%nat eqn:Hlt; [done|].
    apply Nat.ltb_ge in Hlt. lia.
  - unfold showLesson.
    destruct ((Z.of_nat i <? 0) || (Z.of_nat i >=? Z.of_nat (length (lessons app)))) eqn:Hout.
    + unfold lastIndex in Hin. lia.
    + by rewrite Nat2Z.id, Hi.
Qed.

Lemma lesson_selector_options_witness :
  let options' := populateLessonSelector (lessons sampleApp) [] in
  length options' = 3%nat
  ∧ ∃ o,
      options' !! 1%nat = Some o
      ∧ option_value o = 1
      ∧ option_id o = 2
      ∧ option_preview o = Lesson.chinese secondSample
      ∧ currentLesson (handle (ChangeLessonSelect (option_value o)) sampleApp)
        = Some secondSample.
Proof.
  assert (Hl : lessons sampleApp !! 1%nat = Some secondSample) by (vm_compute; reflexivity).
  destruct (lesson_selector_options sampleApp [] 1 secondSample Hl)
    as (Hlen & o & Ho & Hv & Hid & _ & _ & Hshort & _ & Hcur & _).
  cbv zeta. split; [exact Hlen|].
  exists o. split_and!; [exact Ho|exact Hv|exact Hid| |exact Hcur].
  apply Hshort. vm_compute. lia.
Defined.

(** ** The normal form of an answer *)

Lemma tidyFrom_spaces (inSpaces : bool) (s : jsstring) :
  tidyFrom inSpaces s = true → Forall (fun c => isWhiteSpace c = true → c = 0x20) s.
Proof.
  revert inSpaces. induction s as [|c s IH]; intros inSpaces H; [constructor|].
  simpl in H. destruct (isWhiteSpace c) eqn:Hc.
  - apply andb_prop in H as [[_ Heq]%andb_prop H].
    constructor; [intros _; lia|by eapply IH].
  - constructor; [congruence|by eapply IH].
Qed.

(** X11.  Whatever the string, its normal form holds no punctuation of the
    set, its only white space is single U+0020 between other code units,
    and the three steps after lower-casing leave it as it is.  So
    normalizing a normal form can only change it by lower-casing it
    again. *)
Theorem normalize_shape (s : jsstring) :
  let n := normalize s in
  Forall (fun c => isPunctuation c = false ∧ (isWhiteSpace c = true → c = 0x20)) n
  ∧ tidyFrom false n = true
  ∧ startsClean n
  ∧ trimEnd n = n
  ∧ removePunctuation n = n
  ∧ collapseSpaces n = n
  ∧ trim n = n
  ∧ normalize n = trim (collapseSpaces (removePunctuation (toLowerCase n)))
  ∧ (toLowerCase n = n → normalize n = n).
Proof.
  intros n.
  assert (Hclean : Forall (fun c => isPunctuation c = false) n).
  { apply Forall_trim, Forall_collapseFrom; [done|apply removePunctuation_clean]. }
  assert (Htidy : tidyFrom false n = true).
  { unfold n, normalize, trim, collapseSpaces.
    eapply tidyFrom_trimEnd, tidyFrom_trimStart, collapseFrom_tidy. }
  assert (Hstart : startsClean n) by apply startsClean_trimEnd, trimStart_clean.
  assert (Hend : trimEnd n = n) by apply trimEnd_idempotent.
  assert (Hrem : removePunctuation n = n) by by apply removePunctuation_id.
  assert (Hcol : collapseSpaces n = n) by by apply tidyFrom_id.
  assert (Htrim : trim n = n) by (unfold trim; by rewrite startsClean_trimStart).
  split_and!; try done.
  - apply Forall_and. split; [done|]. by eapply tidyFrom_spaces.
  - intros Hlow. unfold normalize. by rewrite Hlow, Hrem, Hcol, Htrim.
Qed.

(** ** Typing the expected answer *)

Lemma trimStart_decompose (s : jsstring) :
  ∃ w, allWhiteSpace w ∧ s = w ++ trimStart s.
Proof.
  induction s as [|c s (w & Hw & Hs)]; [exists []; split; [constructor|done]|].
  rewrite trimStart_cons. destruct (isWhiteSpace c) eqn:Hc.
  - exists (c :: w). split; [by constructor|]. by rewrite <- app_comm_cons, <- Hs.
  - exists []. split; [constructor|done].
Qed.

Lemma trimEnd_decompose (s : jsstring) :
  ∃ w, allWhiteSpace w ∧ s = trimEnd s ++ w.
Proof.
  induction s as [|c s (w & Hw & Hs)]; [exists []; split; [constructor|done]|].
  cbn [trimEnd]. destruct (trimEnd s) as [|k kept] eqn:Hkept.
  - simpl in Hs. subst s. destruct (isWhiteSpace c) eqn:Hc.
    + exists (c :: w). split; [by constructor|done].
    + by exists w.
  - exists w. split; [done|]. by rewrite <- app_comm_cons, <- Hs.
Qed.

Lemma trim_decompose (s : jsstring) :
  ∃ w w', allWhiteSpace w ∧ allWhiteSpace w' ∧ s = w ++ trim s ++ w'.
Proof.
  destruct (trimStart_decompose s) as (w & Hw & Hs).
  destruct (trimEnd_decompose (trimStart s)) as (w' & Hw' & Hs').
  exists w, w'. split_and!; [done|done|]. unfold trim. by rewrite <- Hs', <- Hs.
Qed.

Lemma trim_surrounded (w s w' : jsstring) :
  allWhiteSpace w → allWhiteSpace w' → trim (w ++ s ++ w') = trim s.
Proof.
  intros Hw Hw'. unfold trim at 1. rewrite trimStart_allWhiteSpace by done.
  by apply trim_allWhiteSpace_end.
Qed.

Lemma WellFormed_drop_start (w s : jsstring) :
  allWhiteSpace w → WellFormed (w ++ s) → WellFormed s.
Proof.
  induction 1 as [|c w Hc Hw IH]; [done|]. rewrite <- app_comm_cons. intros Hwf.
  apply isWhiteSpace_scalar in Hc as [Hc _]. apply isScalar_spec in Hc.
  inversion Hwf as [|? ? _ _ Hs|h l ? Hh _ Hs]; subst; [by apply IH|].
  apply isLeadingSurrogate_spec in Hh. lia.
Qed.

Lemma WellFormed_drop_end (s w : jsstring) :
  allWhiteSpace w → WellFormed (s ++ w) → WellFormed s.
Proof.
  intros Hw Hwf. remember (s ++ w) as x eqn:Hx. revert s Hx.
  induction Hwf as [|c x Hc Hle Hwf IH|h l x Hh Hl Hwf IH]; intros s Hx.
  - symmetry in Hx. apply app_eq_nil in Hx as [-> _]. apply wf_nil.
  - destruct s as [|c' s]; [apply wf_nil|]. injection Hx as <- ->.
    apply wf_unit; [done|done|by apply IH].
  - destruct s as [|h' [|l' s]]; [apply wf_nil| |].
    + injection Hx as <- Hx. subst w. apply Forall_cons in Hw as [Hw _].
      apply isWhiteSpace_scalar in Hw as [Hw _]. apply isScalar_spec in Hw.
      apply isTrailingSurrogate_spec in Hl. lia.
    + injection Hx as <- <- ->. apply wf_pair; [done|done|by apply IH].
Qed.

Lemma Plain_trim (s : jsstring) : Plain s → Plain (trim s).
Proof.
  intros [Hwf Hsigma].
  destruct (trim_decompose s) as (w & w' & Hw & Hw' & Hs).
  rewrite Hs in Hwf, Hsigma. split.
  - apply (WellFormed_drop_end _ w'); [done|].
    by apply (WellFormed_drop_start w).
  - intros Hin. apply Hsigma. apply elem_of_app. right. apply elem_of_app. by left.
Qed.

Lemma normalize_trim (s : jsstring) : Plain s → normalize (trim s) = normalize s.
Proof.
  intros Hs. destruct (trim_decompose s) as (w & w' & Hw & Hw' & Heq).
  rewrite Heq at 2. symmetry. apply normalize_surrounded; [by apply Plain_trim|done|done].
Qed.

(** X12.  Typing the expected answer as the lesson has it, with any white
    space before or after, is accepted: when the expected answer is plain
    text and not blank, checking it marks the current lesson completed,
    shows the counter at the size of the completed set and the correct
    feedback, hides the check button and shows the advance button. *)
Theorem expected_answer_accepted (app : App) (lesson : Lesson.t) (w w' : jsstring) :
  currentLesson app = Some lesson →
  Plain (expectedAnswer app lesson) →
  trim (expectedAnswer app lesson) ≠ [] →
  allWhiteSpace w → allWhiteSpace w' →
  let app' :=
    run [InputAnswer (w ++ expectedAnswer app lesson ++ w'); ClickCheckAnswer] app in
  completedLessons app' = {[ Lesson.id lesson ]} ∪ completedLessons app
  ∧ completedCount (elements app') = size (completedLessons app')
  ∧ feedbackArea_innerHTML (practice (elements app')) = CorrectFeedback
  ∧ practiceAnswer_className (practice (elements app')) = "correct"%string
  ∧ checkAnswerBtn_hidden (practice (elements app')) = true
  ∧ nextPracticeBtn_hidden (practice (elements app')) = false.
Proof.
  intros Hcur Hplain Hne Hw Hw' app'.
  set (e := expectedAnswer app lesson) in *.
  set (app1 := withElements (withPractice (setAnswer (w ++ e ++ w'))) app).
  assert (Htyped : typedAnswer app1 = trim e) by by apply trim_surrounded.
  assert (Hcheck : checkAnswer app1
    = Some (updateStats (addCompleted (Lesson.id lesson) (showCorrectFeedback app1)))).
  { apply checkAnswer_correct; [done|by rewrite Htyped|].
    apply compareAnswers_spec. rewrite Htyped.
    change (expectedAnswer app1 lesson) with e. by apply normalize_trim. }
  unfold app', run. simpl. fold app1. rewrite Hcheck. done.
Qed.

Lemma expected_answer_accepted_witness :
  let app := handle ClickStartPractice (handle ClickNextLesson sampleApp) in
  let app' :=
    run [InputAnswer ([0x20; 0x09] ++ Lesson.pinyin secondSample ++ [0x3000]);
         ClickCheckAnswer] app in
  completedLessons app' = {[ 2 ]}
  ∧ completedCount (elements app') = 1%nat
  ∧ feedbackArea_innerHTML (practice (elements app')) = CorrectFeedback.
Proof.
  set (app := handle ClickStartPractice (handle ClickNextLesson sampleApp)).
  assert (Hcur : currentLesson app = Some secondSample) by (vm_compute; reflexivity).
  assert (Hplain : Plain (expectedAnswer app secondSample)).
  { apply isPlain_spec. vm_compute. reflexivity. }
  assert (Hne : trim (expectedAnswer app secondSample) ≠ []) by (vm_compute; discriminate).
  assert (Hw : allWhiteSpace [0x20; 0x09]) by (repeat constructor).
  assert (Hw' : allWhiteSpace [0x3000]) by (repeat constructor).
  destruct (expected_answer_accepted app secondSample _ _ Hcur Hplain Hne Hw Hw')
    as (Hdone & Hcount & Hfeedback & _).
  cbv zeta. split_and!.
  - etrans; [exact Hdone|]. vm_compute. reflexivity.
  - etrans; [exact Hcount|]. rewrite Hdone. vm_compute. reflexivity.
  - exact Hfeedback.
Defined.

(** ** What marks a lesson completed *)

(** X13.  Only a correct check changes the completed set: when an event
    changes it, the event is a click on the check button or Enter in the
    answer box, the answer typed is not blank and has the normal form of
    the expected answer of the current lesson, and the id of that lesson,
    which was not in the set, is what the set gains.  Showing the answer,
    navigation, playback and the keyboard shortcuts never mark a lesson. *)
Theorem completion_only_by_correct_check (ev : Event) (app : App) :
  completedLessons (handle ev app) ≠ completedLessons app →
  (ev = ClickCheckAnswer ∨ ev = PressEnterInAnswer)
  ∧ ∃ lesson,
      currentLesson app = Some lesson
      ∧ typedAnswer app ≠ []
      ∧ normalize (typedAnswer app) = normalize (expectedAnswer app lesson)
      ∧ (Lesson.id lesson ∉ completedLessons app)
      ∧ completedLessons (handle ev app) = {[ Lesson.id lesson ]} ∪ completedLessons app.
Proof.
  intros Hne.
  assert (Hcheck : default app (checkAnswer app) = handle ClickCheckAnswer app) by done.
  assert (Hother : ev ≠ ClickCheckAnswer → ev ≠ PressEnterInAnswer → False).
  { intros H1 H2. apply Hne.
    pose proof (handle_progress ev app H1 H2) as Hp. unfold progress in Hp. congruence. }
  assert (Hev : ev = ClickCheckAnswer ∨ ev = PressEnterInAnswer).
  { destruct ev; auto; exfalso; by apply Hother. }
  split; [done|].
  assert (Hne' : completedLessons (default app (checkAnswer app)) ≠ completedLessons app)
    by (by destruct Hev as [-> | ->]).
  assert (Heq : handle ev app = default app (checkAnswer app))
    by (by destruct Hev as [-> | ->]).
  rewrite Heq. clear Heq Hev Hother Hne Hcheck.
  unfold checkAnswer, typedAnswer in *.
  destruct (trim (practiceAnswer_value (practice (elements app)))) as [|c u] eqn:Hu; [done|].
  destruct (currentLesson app) as [lesson|]; [|done].
  destruct (compareAnswers (c :: u) (expectedAnswer app lesson)) eqn:Hcmp; [|done].
  exists lesson. simpl in *. split_and!; try done.
  - by apply compareAnswers_spec.
  - intros Hin. apply Hne'. by apply subseteq_union_1_L, singleton_subseteq_l.
Qed.

Lemma completion_only_by_correct_check_witness :
  let app := practising lowerCasePinyin in
  ∃ lesson,
    currentLesson app = Some lesson
    ∧ normalize (typedAnswer app) = normalize (expectedAnswer app lesson)
    ∧ completedLessons (handle ClickCheckAnswer app)
      = {[ Lesson.id lesson ]} ∪ completedLessons app.
Proof.
  assert (Hne : completedLessons (handle ClickCheckAnswer (practising lowerCasePinyin))
                ≠ completedLessons (practising lowerCasePinyin)).
  { apply (bool_decide_unpack _). vm_compute. exact I. }
  destruct (completion_only_by_correct_check ClickCheckAnswer _ Hne)
    as (_ & lesson & Hcur & _ & Hnorm & _ & Hdone).
  by exists lesson.
Defined.

(** ** Going to the next lesson and back *)

Lemma showLesson_at (index : Z) (lesson : Lesson.t) (app : App) :
  0 <= index → lessons app !! Z.to_nat index = Some lesson →
  showLesson index app
  = withElements (withStudy (fun s =>
      {| lessonNumber :=
           (if truthy (Lesson.source lesson) then Lesson.source lesson else None,
            Lesson.id lesson);
         chineseText := Lesson.chinese lesson;
         pinyinText := Lesson.pinyin lesson;
         literalText := Lesson.literal lesson;
         englishText := Lesson.english lesson;
         frenchText :=
           (if truthy (Lesson.french lesson) then default [] (Lesson.french lesson)
            else frenchText s);
         frenchRow_shown := truthy (Lesson.french lesson);
         playFrenchBtn_shown := truthy (Lesson.french lesson);
         progressText := (index + 1, Z.of_nat (length (lessons app)));
         lessonSelect_value := index;
         prevLessonBtn_disabled := index =? 0;
         nextLessonBtn_disabled := index =? Z.of_nat (length (lessons app)) - 1 |}))
      {| lessons := lessons app;
         currentLessonIndex := index;
         currentLesson := Some lesson;
         completedLessons := completedLessons app;
         currentAudio := currentAudio app; audios := audios app;
         tasks := tasks app; elements := elements app |}.
Proof.
  intros Hpos Hl. unfold showLesson. rewrite Hl.
  apply lookup_lt_Some in Hl.
  destruct ((index <? 0) || (index >=? Z.of_nat (length (lessons app)))) eqn:Hout; [lia|done].
Qed.

(** Showing a lesson whose French translation is missing hides the row
    and leaves the text of the cell as it was. *)
Lemma showLesson_keeps_french (index : Z) (lesson : Lesson.t) (app : App) :
  0 <= index → lessons app !! Z.to_nat index = Some lesson →
  truthy (Lesson.french lesson) = false →
  frenchText (study (elements (showLesson index app))) = frenchText (study (elements app))
  ∧ frenchRow_shown (study (elements (showLesson index app))) = false.
Proof.
  intros Hpos Hl Hfr. rewrite (showLesson_at index lesson) by done. simpl.
  by rewrite Hfr.
Qed.

Lemma study_view_determined (app : App) (lesson : Lesson.t) (s : StudyView) :
  studyShows app lesson →
  s = study (elements app) →
  {| lessonNumber :=
       (if truthy (Lesson.source lesson) then Lesson.source lesson else None,
        Lesson.id lesson);
     chineseText := Lesson.chinese lesson;
     pinyinText := Lesson.pinyin lesson;
     literalText := Lesson.literal lesson;
     englishText := Lesson.english lesson;
     frenchText := frenchText s;
     frenchRow_shown := truthy (Lesson.french lesson);
     playFrenchBtn_shown := truthy (Lesson.french lesson);
     progressText := (currentLessonIndex app + 1, Z.of_nat (length (lessons app)));
     lessonSelect_value := currentLessonIndex app;
     prevLessonBtn_disabled := currentLessonIndex app =? 0;
     nextLessonBtn_disabled := currentLessonIndex app =? lastIndex app |} = s.
Proof.
  intros (H1 & H2 & H3 & H4 & H5 & H6 & H7 & _ & H9 & H10 & H11 & H12) ->.
  destruct (study (elements app)). simpl in *. by subst.
Qed.

(** X14.  Going to the next lesson and back restores the state: from
    every state the controller reaches with the cursor before the last
    lesson, "next" followed by "previous" gives the state back, except
    that the cell of the French translation, when its row is hidden, may
    hold the text of the lesson just left. *)
Theorem next_then_previous
    (dom : Elements) (fetched : option LessonData) (evs : list Event) :
  let app := run evs (initialize dom fetched) in
  lessons (initialize dom fetched) ≠ [] →
  currentLessonIndex app < lastIndex app →
  let app' := run [ClickNextLesson; ClickPrevLesson] app in
  app = withElements (withStudy (withFrenchText (frenchText (study (elements app))))) app'
  ∧ (frenchRow_shown (study (elements app)) = true →
     frenchText (study (elements app')) = frenchText (study (elements app))).
Proof.
  intros app Hne Hlt app'.
  destruct (run_onLesson evs (initialize dom fetched) (initialize_onLesson dom fetched Hne))
    as [Hin Hcur]. fold app in Hin, Hcur.
  assert (Hstep : studyInStep app).
  { unfold app. clear. induction evs as [|ev evs IH] using rev_ind.
    - apply initialize_studyInStep.
    - rewrite run_snoc. by apply handle_studyInStep. }
  clearbody app. unfold indexInRange in Hin.
  destruct (lessons app !! Z.to_nat (currentLessonIndex app)) as [l0|] eqn:Hl0;
    [|apply lookup_ge_None in Hl0; unfold lastIndex in *; lia].
  destruct (lessons app !! Z.to_nat (currentLessonIndex app + 1)) as [l1|] eqn:Hl1;
    [|apply lookup_ge_None in Hl1; unfold lastIndex in *; lia].
  specialize (Hstep l0 Hcur).
  pose proof (study_view_determined app l0 _ Hstep eq_refl) as Hview.
  destruct Hstep as (_ & _ & _ & _ & _ & Hrow & _ & Hfr & _).
  assert (Hnext : nextLesson app = showLesson (currentLessonIndex app + 1) app).
  { unfold nextLesson. unfold lastIndex in Hlt.
    destruct (currentLessonIndex app <? Z.of_nat (length (lessons app)) - 1) eqn:H; [done|lia]. }
  unfold app', run. simpl. rewrite Hnext.
  rewrite (showLesson_at (currentLessonIndex app + 1) l1 app) by (done || lia).
  unfold previousLesson. simpl.
  destruct (currentLessonIndex app + 1 >? 0) eqn:Hgt; [|lia].
  replace (currentLessonIndex app + 1 - 1) with (currentLessonIndex app) by lia.
  rewrite (showLesson_at (currentLessonIndex app) l0) by (done || lia).
  simpl. unfold lastIndex in Hview. split.
  - destruct app as [ls idx cur comp ca au ts el]. simpl in *. subst cur.
    unfold withElements, withStudy. simpl. f_equal.
    destruct el as [st pr sh ph b1 b2 cc tc ns]. simpl in *. f_equal.
    rewrite <- Hview at 1. unfold withFrenchText. simpl. done.
  - intros Hshown. rewrite Hrow in Hshown. rewrite Hshown.
    specialize (Hfr Hshown). by rewrite <- Hfr.
Qed.

Lemma next_then_previous_witness :
  run [ClickNextLesson; ClickPrevLesson] (run [ClickNextLesson] sampleApp)
  = run [ClickNextLesson] sampleApp.
Proof.
  destruct (next_then_previous emptyPage None [ClickNextLesson]) as [Heq _].
  - vm_compute. discriminate.
  - vm_compute. reflexivity.
  - symmetry. etrans; [exact Heq|]. vm_compute. reflexivity.
Defined.

(** ** Playback and navigation keep apart *)

(** What [showLesson] decides for the French row and button. *)
Lemma showLesson_french_display (index : Z) (app : App) :
  showLesson index app = app
  ∨ ∃ lesson,
      currentLesson (showLesson index app) = Some lesson
      ∧ frenchRow_shown (study (elements (showLesson index app)))
        = truthy (Lesson.french lesson)
      ∧ playFrenchBtn_shown (study (elements (showLesson index app)))
        = truthy (Lesson.french lesson).
Proof.
  unfold showLesson.
  destruct ((index <? 0) || (index >=? Z.of_nat (length (lessons app)))); [by left|].
  destruct (lessons app !! Z.to_nat index) as [lesson|]; [|by left].
  right. by exists lesson.
Qed.

(** X15.  Playback and the lesson do not touch each other.  A play
    request, a settling promise or an event of an audio element leaves the
    lessons, the cursor, the completed set, the study view, the answer
    typed with its feedback, and the view shown as they are.  Moving the
    cursor leaves the audio elements and the suspended calls as they are,
    so a recording that plays goes on playing while another lesson is
    shown; it leaves the practice form as it is, so a feedback shown stays
    while the lesson under it changes; and it leaves the label, the
    enabled state and the playing mark of both play buttons as they are.
    What it does change of a play button is whether the French one is
    displayed: unless it does nothing at all, it displays the French row
    and button exactly when the lesson it shows has a French
    translation. *)
Theorem playback_and_navigation_apart (ev : Event) (app : App) :
  (isPlaybackEvent ev = true →
     position (handle ev app) = position app
     ∧ progress (handle ev app) = progress app
     ∧ study (elements (handle ev app)) = study (elements app)
     ∧ formContent (handle ev app) = formContent app
     ∧ modes (handle ev app) = modes app)
  ∧ (isNavigationEvent ev = true →
       playback (handle ev app) = playback app
       ∧ tasks (handle ev app) = tasks app
       ∧ playButtons (handle ev app) = playButtons app
       ∧ progress (handle ev app) = progress app
       ∧ practice (elements (handle ev app)) = practice (elements app)
       ∧ modes (handle ev app) = modes app
       ∧ (handle ev app = app
          ∨ ∃ lesson,
              currentLesson (handle ev app) = Some lesson
              ∧ frenchRow_shown (study (elements (handle ev app)))
                = truthy (Lesson.french lesson)
              ∧ playFrenchBtn_shown (study (elements (handle ev app)))
                = truthy (Lesson.french lesson))).
Proof.
  split; intros Hev.
  - destruct ev; try done; simpl.
    1-4, 6-7, 9-10: split_and!; by frame.
    + destruct inTextField, key; try done. simpl. split_and!; by frame.
    + destruct (audioEnded_cases element app) as [->|(b1 & b2 & ->)]; done.
  - assert (Hprev : previousLesson app = app
                    ∨ previousLesson app = showLesson (currentLessonIndex app - 1) app)
      by (unfold previousLesson; case_match; auto).
    assert (Hnext : nextLesson app = app
                    ∨ nextLesson app = showLesson (currentLessonIndex app + 1) app)
      by (unfold nextLesson; case_match; auto).
    destruct ev; try done; simpl.
    + split_and!; try (by frame).
      destruct Hprev as [->| ->]; [by left|apply showLesson_french_display].
    + split_and!; try (by frame).
      destruct Hnext as [->| ->]; [by left|apply showLesson_french_display].
    + split_and!; try (by frame). apply showLesson_french_display.
    + destruct inTextField, key; try done; simpl; split_and!; try (by frame).
      * destruct Hprev as [->| ->]; [by left|apply showLesson_french_display].
      * destruct Hnext as [->| ->]; [by left|apply showLesson_french_display].
Qed.

Lemma playback_and_navigation_apart_witness :
  (playback (handle ClickNextLesson firstPlaying) = playback firstPlaying
   ∧ position (handle (AudioEnded 0) firstPlaying) = position firstPlaying)
  ∧ (playFrenchBtn_shown (study (elements mixedApp)) = true
     ∧ playFrenchBtn_shown (study (elements (handle ClickNextLesson mixedApp))) = false
     ∧ playButtons (handle ClickNextLesson mixedApp) = playButtons mixedApp).
Proof.
  destruct (playback_and_navigation_apart ClickNextLesson firstPlaying) as [_ Hnav].
  destruct (playback_and_navigation_apart (AudioEnded 0) firstPlaying) as [Hplay _].
  destruct (playback_and_navigation_apart ClickNextLesson mixedApp) as [_ Hmixed].
  split_and!.
  - apply Hnav. reflexivity.
  - apply Hplay. reflexivity.
  - vm_compute. reflexivity.
  - destruct (Hmixed eq_refl) as (_ & _ & _ & _ & _ & _ & [Hsame|(lesson & Hl & _ & Hshown)]).
    + exfalso. revert Hsame.
      assert (Hneq : currentLessonIndex (handle ClickNextLesson mixedApp)
                     ≠ currentLessonIndex mixedApp) by (vm_compute; discriminate).
      intros Hsame. apply Hneq. by rewrite Hsame.
    + rewrite Hshown.
      assert (Hcur : currentLesson (handle ClickNextLesson mixedApp) = Some secondSample)
        by (vm_compute; reflexivity).
      rewrite Hcur in Hl. injection Hl as <-. reflexivity.
  - apply Hmixed. reflexivity.
Defined.

(** ** A fresh practice form *)

(** X16.  Entering practice mode, choosing a practice type, and advancing
    to a following lesson each discard the answer typed and its feedback:
    the form is blank, with the check button shown and the advance button
    hidden, and a check that follows at once only asks for an answer.
    Advancing on the last lesson leaves the form as it is. *)
Theorem practice_form_reset (app : App) (toPinyin : bool) :
  let checked := practicePinyin_checked (practice (elements app)) in
  practice (elements (handle ClickStartPractice app)) = blankForm checked
  ∧ practice (elements (handle (ChangePracticeType toPinyin) app)) = blankForm toPinyin
  ∧ (currentLessonIndex app < lastIndex app →
     practice (elements (handle ClickNextPractice app)) = blankForm checked)
  ∧ (¬ currentLessonIndex app < lastIndex app →
     practice (elements (handle ClickNextPractice app)) = practice (elements app))
  ∧ (∀ app', practice (elements app') = blankForm checked →
       handle ClickCheckAnswer app'
       = showNotification "Please enter your answer first." app').
Proof.
  intros checked. split_and!.
  - done.
  - done.
  - intros Hlt. simpl. unfold nextPracticeLesson, lastIndex in *.
    destruct (currentLessonIndex app <? Z.of_nat (length (lessons app)) - 1) eqn:H; [|lia].
    unfold resetPractice, blankForm. simpl. f_equal. unfold showLesson. by repeat case_match.
  - intros Hlt. simpl. unfold nextPracticeLesson, lastIndex in *.
    destruct (currentLessonIndex app <? Z.of_nat (length (lessons app)) - 1) eqn:H; [lia|done].
  - intros app' Hform. simpl. unfold checkAnswer. by rewrite Hform.
Qed.

Lemma practice_form_reset_witness :
  practiceAnswer_value (practice (elements wrongAnswer)) = units "ni hao"
  ∧ practiceAnswer_className (practice (elements wrongAnswer)) = "incorrect"%string
  ∧ practice (elements (handle ClickNextPractice wrongAnswer)) = blankForm true.
Proof.
  split_and!; [vm_compute; reflexivity|vm_compute; reflexivity|].
  destruct (practice_form_reset wrongAnswer true) as (_ & _ & Hnext & _).
  apply Hnext. vm_compute. reflexivity.
Defined.
